(** * kana-dojo: the translate / analyze caching, coalescing and admission layer

    A shallow embedding of
      - the translation API client        (clientCache, pendingRequests, translate),
      - the POST /api/translate route     (translationCache, cleanupCache, getKuroshiro, POST),
      - the POST /api/analyze-text route  (analysisCache, cleanupCache, getKuroshiro, POST).

    JavaScript runs these functions on one thread; a function runs without
    interruption up to its next [await].  Asynchronous code is therefore
    modelled as a transition system whose steps are the synchronous segments
    between two await points, and a request handler taken in isolation as a
    function of the state it sees and of the answers of its collaborators. *)

From stdpp Require Import gmap list strings sorting pretty.
From Stdlib Require Import ZArith Lia Ascii String.

Open Scope Z_scope.

(** ** JavaScript values *)

Module Js.

(** A JavaScript string is a sequence of UTF-16 code units; [length] counts
    code units. *)
Abbreviation jsstring := (list N).

Definition lit (s : string) : jsstring := N_of_ascii <$> list_ascii_of_string s.

Definition strlen (s : jsstring) : Z := Z.of_nat (List.length s).

(** WhiteSpace and LineTerminator code units, the ones String.prototype.trim strips. *)
Definition is_ws (c : N) : bool :=
  ((9 <=? c) && (c <=? 13) || (c =? 32) || (c =? 160) || (c =? 5760)
   || (8192 <=? c) && (c <=? 8202) || (c =? 8232) || (c =? 8233)
   || (c =? 8239) || (c =? 8287) || (c =? 12288) || (c =? 65279))%N.

Fixpoint trimStart (s : jsstring) : jsstring :=
  match s with
  | c :: s' => if is_ws c then trimStart s' else s
  | [] => []
  end.

Definition trimEnd (s : jsstring) : jsstring := rev (trimStart (rev s)).

Definition trim (s : jsstring) : jsstring := trimEnd (trimStart s).

(** The values a JSON request body can hold in one field. *)
Inductive value :=
| VUndefined
| VNull
| VBool (b : bool)
| VNumber (n : Z)
| VString (s : jsstring)
| VObject.

(** ToBoolean. *)
Definition truthy (v : value) : bool :=
  match v with
  | VUndefined | VNull => false
  | VBool b => b
  | VNumber n => negb (n =? 0)
  | VString s => negb (strlen s =? 0)
  | VObject => true
  end.

(** Strict equality with a string. *)
Definition strict_eq_str (v : value) (s : jsstring) : bool :=
  match v with VString t => bool_decide (t = s) | _ => false end.

End Js.

Import Js.

(** ** The built-in Map, in insertion order *)

Abbreviation jsmap V := (list (jsstring * V)).

Module JsMap.

Section Ops.
Context {V : Type}.

Fixpoint mget (k : jsstring) (m : jsmap V) : option V :=
  match m with
  | [] => None
  | (k', v) :: m' => if decide (k' = k) then Some v else mget k m'
  end.

(** [set] on a present key replaces the value where it stands, on an absent
    key it appends. *)
Fixpoint mset (k : jsstring) (v : V) (m : jsmap V) : jsmap V :=
  match m with
  | [] => [(k, v)]
  | (k', v') :: m' => if decide (k' = k) then (k, v) :: m' else (k', v') :: mset k v m'
  end.

Definition mdelete (k : jsstring) (m : jsmap V) : jsmap V := filter (λ kv, kv.1 ≠ k) m.

Definition msize (m : jsmap V) : nat := List.length m.

Definition wf (m : jsmap V) : Prop := NoDup m.*1.
End Ops.

End JsMap.

Import JsMap.

(** ** Exceptions and promises *)

(** What a [catch] clause of these files can tell apart. *)
Inductive exn :=
| TypeError (message : jsstring)
| OtherError.

Inductive result (A : Type) :=
| Returns (a : A)
| Throws (e : exn).
Arguments Returns {A} a.
Arguments Throws {A} e.

(** String.prototype.includes. *)
Fixpoint startsWith (p s : jsstring) : bool :=
  match p, s with
  | [], _ => true
  | c :: p', d :: s' => bool_decide (c = d) && startsWith p' s'
  | _ :: _, [] => false
  end.

Fixpoint includes (s p : jsstring) : bool :=
  startsWith p s || match s with [] => false | _ :: s' => includes s' p end.

(** Template-literal conversion of a value. *)
Definition toString (v : value) : jsstring :=
  match v with
  | VUndefined => lit "undefined"
  | VNull => lit "null"
  | VBool true => lit "true"
  | VBool false => lit "false"
  | VNumber n => lit (pretty.pretty n)
  | VString s => s
  | VObject => lit "[object Object]"
  end.

(** ** The rate limiter, seen from the routes

    '@/shared/lib/rateLimit' is outside the sources at hand.  The routes read
    three fields of what [rateLimiter.check(clientIP)] returns and hand the
    whole of it to [createRateLimitHeaders]; both are inputs of the model. *)

Module RateLimit.

Record RateLimitResult := {
  allowed : bool;
  reason : value;
  retryAfter : value
}.

Abbreviation Headers := (jsmap jsstring).

(** Headers.prototype.forEach((value, key) => target.set(key, value)). *)
Definition copyInto (src target : Headers) : Headers :=
  foldl (λ acc kv, mset kv.1 kv.2 acc) target src.

End RateLimit.

Import RateLimit.

(** ** cleanupCache, as both routes write it *)

Module ServerCache.

Section Cleanup.
Context {V : Type}.
Variable timestamp : V → Z.
Variable CACHE_TTL : Z.
Variable MAX_CACHE_SIZE : nat.
Variable CLEANUP_INTERVAL : Z.

Record store := {
  cache : jsmap V;
  lastCleanupTime : Z
}.

(** for (const [key, value] of cache) if (now - value.timestamp > CACHE_TTL) cache.delete(key) *)
Definition purgeExpired (now : Z) (m : jsmap V) : jsmap V :=
  foldl (λ acc kv, if now - timestamp kv.2 >? CACHE_TTL then mdelete kv.1 acc else acc) m m.

(** entries.sort((a, b) => a[1].timestamp - b[1].timestamp): Array.prototype.sort
    is stable, so entries of equal timestamp keep their insertion order. *)
Fixpoint insertByTimestamp (e : jsstring * V) (l : list (jsstring * V)) : list (jsstring * V) :=
  match l with
  | [] => [e]
  | x :: l' => if timestamp e.2 <=? timestamp x.2 then e :: x :: l' else x :: insertByTimestamp e l'
  end.

Fixpoint sortByTimestamp (l : list (jsstring * V)) : list (jsstring * V) :=
  match l with
  | [] => []
  | e :: l' => insertByTimestamp e (sortByTimestamp l')
  end.

(** The end index entries.length - MAX_CACHE_SIZE / 2, as slice truncates it;
    it is only computed when entries.length exceeds MAX_CACHE_SIZE. *)
Definition removeCount (n : nat) : nat := ((2 * n - MAX_CACHE_SIZE) / 2)%nat.

Definition evictOldest (m : jsmap V) : jsmap V :=
  if (MAX_CACHE_SIZE <? msize m)%nat then
    let entries := m in
    let sorted := sortByTimestamp entries in
    let toRemove := take (removeCount (List.length entries)) sorted in
    foldl (λ acc kv, mdelete kv.1 acc) m toRemove
  else m.

(** The first [if] of cleanupCache: the sweep of expired entries, at most
    once per CLEANUP_INTERVAL. *)
Definition expireStage (now : Z) (s : store) : store :=
  if now - lastCleanupTime s >? CLEANUP_INTERVAL
  then {| cache := purgeExpired now (cache s); lastCleanupTime := now |}
  else s.

Definition cleanupCache (now : Z) (s : store) : store :=
  let s1 := expireStage now s in
  {| cache := evictOldest (cache s1); lastCleanupTime := lastCleanupTime s1 |}.

(** Oldest first, down to [half] entries: what is kept is kept untouched and
    in place, nothing removed is newer than anything kept, and an entry
    newer than all that was removed is kept. *)
Definition evictedOldestFirst (half : nat) (before after : jsmap V) : Prop :=
  msize after = half
  ∧ after `sublist_of` before
  ∧ (∀ r e, r ∈ before → r ∉ after → e ∈ after → timestamp r.2 ≤ timestamp e.2)
  ∧ (∀ e, e ∈ before → (∀ r, r ∈ before → r ∉ after → timestamp r.2 < timestamp e.2) →
          e ∈ after).

End Cleanup.

Arguments store : clear implicits.
Arguments cache {V} s.
Arguments lastCleanupTime {V} s.

End ServerCache.

(** ** The lazily built kuroshiro instance

    One record per run of the construction code.  Its phases are the
    segments between the awaits: the two dynamic imports, then
    [new Kuroshiro()] and [kuroshiro.init(analyzer)]. *)

Inductive phase :=
| Importing
| Initialising
| Fulfilled
| Rejected (e : exn).

(** What a caller of getKuroshiro holds when the synchronous part returns. *)
Inductive handle :=
| Ready (instance : nat)
| Awaiting (run : nat).

Inductive kevent :=
| KCall
| KImportsDone (run : nat) (failure : option exn)
| KInitDone (run : nat) (failure : option exn).

(** ** What a request handler does to the world, in order *)

Inductive effect :=
| RateLimitCheck (clientIP : jsstring)
| ReadBody
| CacheGet (key : jsstring)
| CacheSet (key : jsstring)
| CacheCleanup
| GoogleFetch (q source target : jsstring)
| KuroshiroConvert (text : jsstring)
| KuroshiroParse (text : jsstring).

(** ** POST /api/translate *)

Module TranslateRoute.

Record CacheEntry := {
  translatedText : jsstring;
  romanization : option jsstring;
  timestamp : Z
}.

Definition CACHE_TTL : Z := 1000 * 60 * 60.
Definition MAX_CACHE_SIZE : nat := 500.
Definition CLEANUP_INTERVAL : Z := 1000 * 60 * 5.

(** translationCache together with lastCleanupTime. *)
Definition store := ServerCache.store CacheEntry.

Definition getCacheKey (text source target : jsstring) : jsstring :=
  source ++ lit ":" ++ target ++ lit ":" ++ text.

Definition cleanupCache : Z → store → store :=
  ServerCache.cleanupCache timestamp CACHE_TTL MAX_CACHE_SIZE CLEANUP_INTERVAL.

(** *** getKuroshiro, with its in-progress marker *)

Record Kuroshiro := {
  kuroshiroInstance : option nat;
  kuroshiroInitPromise : option nat;
  runs : list phase;
  constructed : nat
}.

Definition noKuroshiro : Kuroshiro :=
  {| kuroshiroInstance := None; kuroshiroInitPromise := None; runs := []; constructed := 0 |}.

(** The synchronous part of a call: up to the first await of the closure it
    may start. *)
Definition getKuroshiro (k : Kuroshiro) : handle * Kuroshiro :=
  match kuroshiroInstance k with
  | Some i => (Ready i, k)
  | None =>
    match kuroshiroInitPromise k with
    | Some p => (Awaiting p, k)
    | None =>
      let p := List.length (runs k) in
      (Awaiting p,
       {| kuroshiroInstance := None;
          kuroshiroInitPromise := Some p;
          runs := runs k ++ [Importing];
          constructed := constructed k |})
    end
  end.

(** The closure resumes after Promise.all of the imports: on success it
    evaluates [new Kuroshiro()] and [new KuromojiAnalyzer()] and awaits init;
    on failure the exception leaves the closure. *)
Definition importsDone (p : nat) (failure : option exn) (k : Kuroshiro) : Kuroshiro :=
  match runs k !! p with
  | Some Importing =>
    match failure with
    | None =>
      {| kuroshiroInstance := kuroshiroInstance k;
         kuroshiroInitPromise := kuroshiroInitPromise k;
         runs := <[p := Initialising]> (runs k);
         constructed := S (constructed k) |}
    | Some e =>
      {| kuroshiroInstance := kuroshiroInstance k;
         kuroshiroInitPromise := kuroshiroInitPromise k;
         runs := <[p := Rejected e]> (runs k);
         constructed := constructed k |}
    end
  | _ => k
  end.

(** The closure resumes after kuroshiro.init: on success it stores the
    instance and resets the marker; on failure the exception leaves the
    closure before either assignment. *)
Definition initDone (p : nat) (failure : option exn) (k : Kuroshiro) : Kuroshiro :=
  match runs k !! p with
  | Some Initialising =>
    match failure with
    | None =>
      {| kuroshiroInstance := Some p;
         kuroshiroInitPromise := None;
         runs := <[p := Fulfilled]> (runs k);
         constructed := constructed k |}
    | Some e =>
      {| kuroshiroInstance := kuroshiroInstance k;
         kuroshiroInitPromise := kuroshiroInitPromise k;
         runs := <[p := Rejected e]> (runs k);
         constructed := constructed k |}
    end
  | _ => k
  end.

(** One scheduling step; a resumption that is not due leaves the state as it is. *)
Definition kstep (k : Kuroshiro) (ev : kevent) : Kuroshiro :=
  match ev with
  | KCall => (getKuroshiro k).2
  | KImportsDone p failure => importsDone p failure k
  | KInitDone p failure => initDone p failure k
  end.

Definition krun (evs : list kevent) : Kuroshiro := foldl kstep noKuroshiro evs.

(** The closures started so far, that is, the construction attempts. *)
Definition attempts (k : Kuroshiro) : nat := List.length (runs k).

Definition inProgress (k : Kuroshiro) (p : nat) : Prop :=
  runs k !! p = Some Importing ∨ runs k !! p = Some Initialising.

(** Every reachable state has one of three shapes: nothing started; one run,
    not fulfilled, with the marker on it; one fulfilled run, its instance
    stored and the marker reset. *)
Inductive shape : Kuroshiro → Prop :=
| shape_idle :
    shape noKuroshiro
| shape_marked ph c :
    ph ≠ Fulfilled → (ph = Importing → c = 0%nat) → (ph = Initialising → c = 1%nat) →
    (c ≤ 1)%nat →
    shape {| kuroshiroInstance := None; kuroshiroInitPromise := Some 0%nat;
             runs := [ph]; constructed := c |}
| shape_built :
    shape {| kuroshiroInstance := Some 0%nat; kuroshiroInitPromise := None;
             runs := [Fulfilled]; constructed := 1 |}.

(** *** The handler *)

Definition INVALID_INPUT := lit "INVALID_INPUT".
Definition RATE_LIMIT := lit "RATE_LIMIT".
Definition API_ERROR := lit "API_ERROR".
Definition AUTH_ERROR := lit "AUTH_ERROR".
Definition NETWORK_ERROR := lit "NETWORK_ERROR".

Record TranslationRequestBody := {
  text : value;
  sourceLanguage : value;
  targetLanguage : value
}.

Record Translation := {
  tr_translatedText : jsstring;
  tr_detectedSourceLanguage : option jsstring
}.

Record GoogleResponse := {
  g_status : Z;
  g_json : result (list Translation)
}.

Definition g_ok (g : GoogleResponse) : bool := (200 <=? g_status g) && (g_status g <=? 299).

Inductive body :=
| ErrorBody (code message : jsstring) (status : Z) (retryAfter : option value)
| TranslationBody (translatedText : jsstring) (detectedSourceLanguage romanization : option jsstring)
    (cached : bool).

Record Response := {
  r_body : body;
  r_status : Z;
  r_headers : Headers
}.

(** The answers one request gets from its collaborators, in the order it
    asks for them. *)
Record Env := {
  clientIP : jsstring;
  rateLimitResult : RateLimitResult;
  requestJson : result TranslationRequestBody;
  nowLookup : Z;
  apiKey : option jsstring;
  googleFetch : result GoogleResponse;
  kuroshiroConvert : result jsstring;
  nowStore : Z;
  nowCleanup : Z
}.

Definition validLanguages : list jsstring := [lit "en"; lit "ja"].

Definition arrayIncludes (l : list jsstring) (v : value) : bool := existsb (strict_eq_str v) l.

Section Handler.
Variable createRateLimitHeaders : RateLimitResult → Headers.

Definition json (b : body) (status : Z) (h : Headers) : Response :=
  {| r_body := b; r_status := status; r_headers := h |}.

Definition rateLimitMessage (r : RateLimitResult) : jsstring :=
  if strict_eq_str (reason r) (lit "daily_quota") then
    lit "Daily translation limit reached. Please try again tomorrow."
  else if strict_eq_str (reason r) (lit "global_limit") then
    lit "Service is experiencing high demand. Please try again in a moment."
  else lit "Too many requests. Please wait " ++ toString (retryAfter r) ++ lit " seconds.".

Definition rateLimited (r : RateLimitResult) : Response :=
  json (ErrorBody RATE_LIMIT (rateLimitMessage r) 429 (Some (retryAfter r))) 429
       (createRateLimitHeaders r).

Definition invalidInput (message : jsstring) : Response :=
  json (ErrorBody INVALID_INPUT message 400 None) 400 [].

Definition errorResponse (code message : jsstring) (status : Z) : Response :=
  json (ErrorBody code message status None) status [].

(** NextResponse.json(body, { status }) with a status that is not a constant
    of the route.  It is Response.json, which follows the Fetch standard: a
    status outside 200..599 is refused with a RangeError, and a body on a
    null-body status (204, 205, 304; 101 and 103 are out of range already)
    with a TypeError. *)
Definition nullBodyStatus (status : Z) : bool :=
  (status =? 204) || (status =? 205) || (status =? 304).

Definition responseJson (code message : jsstring) (status : Z) : result Response :=
  if (status <? 200) || (status >? 599) then Throws OtherError
  else if nullBodyStatus status then
    Throws (TypeError (lit "Response constructor: Invalid response status code "
                       ++ toString (VNumber status)))
  else Returns (errorResponse code message status).

(** The catch clause. *)
Definition onError (e : exn) : Response :=
  match e with
  | TypeError m =>
    if includes m (lit "fetch") then
      errorResponse NETWORK_ERROR (lit "Unable to connect. Please check your internet connection.") 503
    else errorResponse API_ERROR (lit "Translation service is temporarily unavailable.") 500
  | OtherError => errorResponse API_ERROR (lit "Translation service is temporarily unavailable.") 500
  end.

Definition generateRomanization (japaneseText : jsstring) (convert : result jsstring)
  : jsstring * list effect :=
  if strlen japaneseText =? 0 then ([], [])
  else
    match convert with
    | Returns romaji => (romaji, [KuroshiroConvert japaneseText])
    | Throws _ => ([], [KuroshiroConvert japaneseText])
    end.

Definition successHeaders (r : RateLimitResult) : Headers :=
  copyInto (createRateLimitHeaders r)
           (mset (lit "Cache-Control") (lit "private, max-age=3600") []).

(** From the API key on: the request missed the cache. *)
Definition callGoogle (env : Env) (st : store) (text source target cacheKey : jsstring)
  : Response * list effect * store :=
  match apiKey env with
  | None => (errorResponse AUTH_ERROR (lit "Translation service configuration error.") 500, [], st)
  | Some [] => (errorResponse AUTH_ERROR (lit "Translation service configuration error.") 500, [], st)
  | Some (_ :: _) =>
    let called := [GoogleFetch text source target] in
    match googleFetch env with
    | Throws e => (onError e, called, st)
    | Returns googleResponse =>
      if g_status googleResponse =? 429 then
        (errorResponse RATE_LIMIT (lit "Too many requests. Please wait a moment and try again.") 429,
         called, st)
      else if (g_status googleResponse =? 401) || (g_status googleResponse =? 403) then
        (errorResponse AUTH_ERROR (lit "Translation service configuration error.")
           (g_status googleResponse), called, st)
      else if negb (g_ok googleResponse) then
        match responseJson API_ERROR (lit "Translation service is temporarily unavailable.")
                (g_status googleResponse) with
        | Returns response => (response, called, st)
        | Throws e => (onError e, called, st)
        end
      else
        match g_json googleResponse with
        | Throws e => (onError e, called, st)
        | Returns [] =>
          (onError (TypeError (lit "Cannot read properties of undefined (reading 'translatedText')")),
           called, st)
        | Returns (translation :: _) =>
          let '(romaji, converted) :=
            if bool_decide (target = lit "ja")
            then generateRomanization (tr_translatedText translation) (kuroshiroConvert env)
            else ([], []) in
          let romanization := if strlen romaji =? 0 then None else Some romaji in
          let st1 :=
            {| ServerCache.cache :=
                 mset cacheKey
                   {| translatedText := tr_translatedText translation;
                      romanization := romanization;
                      timestamp := nowStore env |}
                   (ServerCache.cache st);
               ServerCache.lastCleanupTime := ServerCache.lastCleanupTime st |} in
          let st2 := cleanupCache (nowCleanup env) st1 in
          (json (TranslationBody (tr_translatedText translation)
                   (tr_detectedSourceLanguage translation) romanization false)
                200 (successHeaders (rateLimitResult env)),
           called ++ converted ++ [CacheSet cacheKey; CacheCleanup], st2)
        end
    end
  end.

(** After the rate limiter let the request in and the body was read. *)
Definition handleBody (env : Env) (st : store) (b : TranslationRequestBody)
  : Response * list effect * store :=
  match text b with
  | VString t =>
    if negb (truthy (text b)) then
      (invalidInput (lit "Please enter valid text to translate."), [], st)
    else if strlen (trim t) =? 0 then
      (invalidInput (lit "Please enter text to translate."), [], st)
    else if strlen t >? 5000 then
      (invalidInput (lit "Text exceeds maximum length of 5000 characters."), [], st)
    else if negb (arrayIncludes validLanguages (sourceLanguage b))
            || negb (arrayIncludes validLanguages (targetLanguage b)) then
      (invalidInput (lit "Invalid language selection."), [], st)
    else
      let source := toString (sourceLanguage b) in
      let target := toString (targetLanguage b) in
      let cacheKey := getCacheKey (trim t) source target in
      let miss :=
        let '(r, effs, st') := callGoogle env st t source target cacheKey in
        (r, CacheGet cacheKey :: effs, st') in
      match mget cacheKey (ServerCache.cache st) with
      | Some cached =>
        if nowLookup env - timestamp cached <? CACHE_TTL then
          (json (TranslationBody (translatedText cached) None (romanization cached) true)
                200 (successHeaders (rateLimitResult env)),
           [CacheGet cacheKey], st)
        else miss
      | None => miss
      end
  | _ => (invalidInput (lit "Please enter valid text to translate."), [], st)
  end.

Definition POST (env : Env) (st : store) : Response * list effect * store :=
  let checked := [RateLimitCheck (clientIP env)] in
  if negb (allowed (rateLimitResult env)) then
    (rateLimited (rateLimitResult env), checked, st)
  else
    match requestJson env with
    | Throws e => (onError e, checked ++ [ReadBody], st)
    | Returns b =>
      let '(r, effs, st') := handleBody env st b in
      (r, checked ++ ReadBody :: effs, st')
    end.

End Handler.

End TranslateRoute.

(** ** POST /api/analyze-text *)

Module AnalyzeRoute.

Record KuromojiToken := {
  surface_form : jsstring;
  pos : jsstring;
  pos_detail_1 : jsstring;
  pos_detail_2 : jsstring;
  pos_detail_3 : jsstring;
  conjugated_type : jsstring;
  conjugated_form : jsstring;
  basic_form : jsstring;
  reading : jsstring;
  pronunciation : jsstring
}.

(** What [posMap[pos] || pos] evaluates to: a string, or, for a tag that
    names a member of Object.prototype, that member (a function, or the
    prototype itself for __proto__). *)
Inductive posValue :=
| PosString (s : jsstring)
| PosInherited (member : jsstring).

Record AnalyzedToken := {
  surface : jsstring;
  a_reading : option jsstring;
  basicForm : option jsstring;
  a_pos : posValue;
  posDetail : jsstring
}.

Record CacheEntry := {
  tokens : list AnalyzedToken;
  timestamp : Z
}.

Definition CACHE_TTL : Z := 1000 * 60 * 60.
Definition MAX_CACHE_SIZE : nat := 200.
Definition CLEANUP_INTERVAL : Z := 1000 * 60 * 5.

(** analysisCache together with lastCleanupTime. *)
Definition store := ServerCache.store CacheEntry.

Definition cleanupCache : Z → store → store :=
  ServerCache.cleanupCache timestamp CACHE_TTL MAX_CACHE_SIZE CLEANUP_INTERVAL.

(** The handler reads and writes analysisCache under the request text as it
    came: analysisCache.get(text), analysisCache.set(text, ...). *)
Definition cacheKey (text : jsstring) : jsstring := text.

(** *** getKuroshiro, without a marker *)

Record Kuroshiro := {
  kuroshiroInstance : option nat;
  runs : list phase;
  constructed : nat
}.

Definition noKuroshiro : Kuroshiro :=
  {| kuroshiroInstance := None; runs := []; constructed := 0 |}.

(** The synchronous part of a call: the test of the instance, then the
    imports are requested and the call awaits them. *)
Definition getKuroshiro (k : Kuroshiro) : handle * Kuroshiro :=
  match kuroshiroInstance k with
  | Some i => (Ready i, k)
  | None =>
    let p := List.length (runs k) in
    (Awaiting p,
     {| kuroshiroInstance := None;
        runs := runs k ++ [Importing];
        constructed := constructed k |})
  end.

Definition importsDone (p : nat) (failure : option exn) (k : Kuroshiro) : Kuroshiro :=
  match runs k !! p with
  | Some Importing =>
    match failure with
    | None =>
      {| kuroshiroInstance := kuroshiroInstance k;
         runs := <[p := Initialising]> (runs k);
         constructed := S (constructed k) |}
    | Some e =>
      {| kuroshiroInstance := kuroshiroInstance k;
         runs := <[p := Rejected e]> (runs k);
         constructed := constructed k |}
    end
  | _ => k
  end.

Definition initDone (p : nat) (failure : option exn) (k : Kuroshiro) : Kuroshiro :=
  match runs k !! p with
  | Some Initialising =>
    match failure with
    | None =>
      {| kuroshiroInstance := Some p;
         runs := <[p := Fulfilled]> (runs k);
         constructed := constructed k |}
    | Some e =>
      {| kuroshiroInstance := kuroshiroInstance k;
         runs := <[p := Rejected e]> (runs k);
         constructed := constructed k |}
    end
  | _ => k
  end.

Definition kstep (k : Kuroshiro) (ev : kevent) : Kuroshiro :=
  match ev with
  | KCall => (getKuroshiro k).2
  | KImportsDone p failure => importsDone p failure k
  | KInitDone p failure => initDone p failure k
  end.

Definition krun (evs : list kevent) : Kuroshiro := foldl kstep noKuroshiro evs.

Definition attempts (k : Kuroshiro) : nat := List.length (runs k).

(** *** Token conversion *)

Definition katakanaToHiragana (katakana : jsstring) : jsstring :=
  (λ c, if (12449 <=? c) && (c <=? 12534) then c - 96 else c)%N <$> katakana.

Definition posMap : list (jsstring * jsstring) :=
  [ ([21517; 35422]%N, lit "Noun");
    ([21205; 35422]%N, lit "Verb");
    ([24418; 23481; 35422]%N, lit "Adjective");
    ([24418; 23481; 21205; 35422]%N, lit "Na-adjective");
    ([21103; 35422]%N, lit "Adverb");
    ([21161; 35422]%N, lit "Particle");
    ([21161; 21205; 35422]%N, lit "Auxiliary");
    ([25509; 32154; 35422]%N, lit "Conjunction");
    ([36899; 20307; 35422]%N, lit "Pre-noun");
    ([24863; 21205; 35422]%N, lit "Interjection");
    ([35352; 21495]%N, lit "Symbol");
    ([12501; 12451; 12521; 12540]%N, lit "Filler");
    ([25509; 38957; 35422]%N, lit "Prefix");
    ([25509; 23614; 36766]%N, lit "Suffix") ].

(** The property names an object literal inherits from Object.prototype. *)
Definition objectPrototypeMembers : list jsstring :=
  [ lit "constructor"; lit "hasOwnProperty"; lit "isPrototypeOf";
    lit "propertyIsEnumerable"; lit "toLocaleString"; lit "toString"; lit "valueOf";
    lit "__proto__"; lit "__defineGetter__"; lit "__defineSetter__";
    lit "__lookupGetter__"; lit "__lookupSetter__" ].

(** posMap is an object literal: a tag that is not one of its keys is looked
    up along the prototype chain, and what is found there is truthy. *)
Definition getSimplifiedPOS (pos posDetail1 : jsstring) : posValue :=
  match mget pos posMap with
  | Some name => PosString name
  | None =>
    if bool_decide (pos ∈ objectPrototypeMembers) then PosInherited pos else PosString pos
  end.

Fixpoint join (sep : jsstring) (l : list jsstring) : jsstring :=
  match l with
  | [] => []
  | [x] => x
  | x :: l' => x ++ sep ++ join sep l'
  end.

Definition getPOSDetail (token : KuromojiToken) : jsstring :=
  let star := lit "*" in
  let details :=
    (if bool_decide (conjugated_type token ≠ star) then [conjugated_type token] else [])
    ++ (if bool_decide (conjugated_form token ≠ star) then [conjugated_form token] else [])
    ++ (if bool_decide (pos_detail_1 token ≠ star) then [pos_detail_1 token] else []) in
  match join (lit ", ") details with
  | [] => lit "No additional info"
  | joined => joined
  end.

Definition analyzeToken (token : KuromojiToken) : AnalyzedToken :=
  {| surface := surface_form token;
     a_reading := Some (katakanaToHiragana (reading token));
     basicForm := if bool_decide (basic_form token ≠ lit "*") then Some (basic_form token) else None;
     a_pos := getSimplifiedPOS (pos token) (pos_detail_1 token);
     posDetail := getPOSDetail token |}.

(** *** The handler *)

Inductive body :=
| RateLimitBody (error code : jsstring) (retryAfter : value)
| ErrorBody (error : jsstring)
| TokensBody (tokens : list AnalyzedToken) (cached : bool).

Record Response := {
  r_body : body;
  r_status : Z;
  r_headers : Headers
}.

Record Env := {
  clientIP : jsstring;
  rateLimitResult : RateLimitResult;
  requestJson : result value;
  nowLookup : Z;
  kuroshiro : result unit;
  parse : result (list KuromojiToken);
  nowStore : Z;
  nowCleanup : Z
}.

Section Handler.
Variable createRateLimitHeaders : RateLimitResult → Headers.

Definition json (b : body) (status : Z) (h : Headers) : Response :=
  {| r_body := b; r_status := status; r_headers := h |}.

Definition rateLimitMessage (r : RateLimitResult) : jsstring :=
  if strict_eq_str (reason r) (lit "daily_quota") then
    lit "Daily analysis limit reached. Please try again tomorrow."
  else if strict_eq_str (reason r) (lit "global_limit") then
    lit "Service is experiencing high demand. Please try again in a moment."
  else lit "Too many requests. Please wait " ++ toString (retryAfter r) ++ lit " seconds.".

Definition rateLimited (r : RateLimitResult) : Response :=
  json (RateLimitBody (rateLimitMessage r) (lit "RATE_LIMIT") (retryAfter r)) 429
       (createRateLimitHeaders r).

Definition onError : Response :=
  json (ErrorBody (lit "Failed to analyze text. Please try again.")) 500 [].

(** From the call of getKuroshiro on: the request missed the cache. *)
Definition analyze (env : Env) (st : store) (text : jsstring)
  : Response * list effect * store :=
  match kuroshiro env with
  | Throws _ => (onError, [], st)
  | Returns _ =>
    match parse env with
    | Throws _ => (onError, [KuroshiroParse text], st)
    | Returns kuromojiTokens =>
      let analyzedTokens := analyzeToken <$> kuromojiTokens in
      let st1 :=
        {| ServerCache.cache :=
             mset (cacheKey text) {| tokens := analyzedTokens; timestamp := nowStore env |}
                  (ServerCache.cache st);
           ServerCache.lastCleanupTime := ServerCache.lastCleanupTime st |} in
      let st2 := cleanupCache (nowCleanup env) st1 in
      (json (TokensBody analyzedTokens false) 200
            (copyInto (createRateLimitHeaders (rateLimitResult env)) []),
       [KuroshiroParse text; CacheSet (cacheKey text); CacheCleanup], st2)
    end
  end.

(** After the rate limiter let the request in and the body was read; [v] is
    the [text] field of the body. *)
Definition handleBody (env : Env) (st : store) (v : value)
  : Response * list effect * store :=
  match v with
  | VString text =>
    if negb (truthy v) || (strlen (trim text) =? 0) then
      (json (ErrorBody (lit "Please provide valid text to analyze.")) 400 [], [], st)
    else if strlen text >? 5000 then
      (json (ErrorBody (lit "Text exceeds maximum length of 5000 characters.")) 400 [], [], st)
    else
      let miss :=
        let '(r, effs, st') := analyze env st text in
        (r, CacheGet (cacheKey text) :: effs, st') in
      match mget (cacheKey text) (ServerCache.cache st) with
      | Some cached =>
        if nowLookup env - timestamp cached <? CACHE_TTL then
          (json (TokensBody (tokens cached) true) 200
                (copyInto (createRateLimitHeaders (rateLimitResult env)) []),
           [CacheGet (cacheKey text)], st)
        else miss
      | None => miss
      end
  | _ => (json (ErrorBody (lit "Please provide valid text to analyze.")) 400 [], [], st)
  end.

Definition POST (env : Env) (st : store) : Response * list effect * store :=
  let checked := [RateLimitCheck (clientIP env)] in
  if negb (allowed (rateLimitResult env)) then
    (rateLimited (rateLimitResult env), checked, st)
  else
    match requestJson env with
    | Throws _ => (onError, checked ++ [ReadBody], st)
    | Returns v =>
      let '(r, effs, st') := handleBody env st v in
      (r, checked ++ ReadBody :: effs, st')
    end.

End Handler.

End AnalyzeRoute.

(** ** The translation API client *)

Module Client.

Inductive Language := en | ja.

Definition languageString (l : Language) : jsstring :=
  match l with en => lit "en" | ja => lit "ja" end.

Record TranslationAPIResponse := {
  translatedText : jsstring;
  romanization : option jsstring;
  cached : bool
}.

Record TranslationAPIError := {
  code : jsstring;
  message : jsstring;
  status : Z
}.

Record CacheEntry := {
  response : TranslationAPIResponse;
  timestamp : Z
}.

Definition CLIENT_CACHE_TTL : Z := 1000 * 60 * 30.
Definition MAX_CLIENT_CACHE_SIZE : nat := 100.

Definition INVALID_INPUT := lit "INVALID_INPUT".
Definition RATE_LIMIT := lit "RATE_LIMIT".
Definition API_ERROR := lit "API_ERROR".
Definition AUTH_ERROR := lit "AUTH_ERROR".
Definition NETWORK_ERROR := lit "NETWORK_ERROR".
Definition OFFLINE := lit "OFFLINE".

Definition ERROR_MESSAGES : list (jsstring * jsstring) :=
  [ (INVALID_INPUT, lit "Please enter valid text to translate.");
    (RATE_LIMIT, lit "Too many requests. Please wait a moment and try again.");
    (API_ERROR, lit "Translation service is temporarily unavailable.");
    (AUTH_ERROR, lit "Translation service configuration error.");
    (NETWORK_ERROR, lit "Unable to connect. Please check your internet connection.");
    (OFFLINE, lit "You are offline. Please check your internet connection.") ].

(** ERROR_MESSAGES[code] || ERROR_MESSAGES[ERROR_CODES.API_ERROR]; the code
    may be missing from a reply. *)
Definition getErrorMessage (code : option jsstring) : jsstring :=
  match code ≫= λ c, mget c ERROR_MESSAGES with
  | Some m => m
  | None => lit "Translation service is temporarily unavailable."
  end.

(** [navigator] is None where there is no navigator object. *)
Definition isOnline (navigator : option bool) : bool :=
  match navigator with
  | None => true
  | Some onLine => onLine
  end.

Definition getClientCacheKey (text : jsstring) (source target : Language) : jsstring :=
  languageString source ++ lit ":" ++ languageString target ++ lit ":" ++ trim text.

Definition cleanupClientCache (now : Z) (m : jsmap CacheEntry) : jsmap CacheEntry :=
  if (MAX_CLIENT_CACHE_SIZE <? msize m)%nat then
    foldl (λ acc kv, if now - timestamp kv.2 >? CLIENT_CACHE_TTL then mdelete kv.1 acc else acc) m m
  else m.

(** A requestPromise: the key it was started for, how it settled, and whether
    the [finally] block of the call that started it has run. *)
Inductive settlement :=
| Pending
| Resolved (r : TranslationAPIResponse)
| RejectedWith (e : TranslationAPIError).

Record Request := {
  req_key : jsstring;
  req_state : settlement;
  req_finalized : bool
}.

Record State := {
  clientCache : jsmap CacheEntry;
  pendingRequests : gmap jsstring nat;
  requests : list Request
}.

Definition initial : State :=
  {| clientCache := []; pendingRequests := ∅; requests := [] |}.

(** What a call of translate has in hand when its synchronous part ends. *)
Inductive outcome :=
| Throw (e : TranslationAPIError)
| Return (r : TranslationAPIResponse)
| Await (request : nat).

Inductive call :=
| Fetch (text : jsstring) (source target : Language).

(** translate up to its first suspension.  The closure that performs the
    request runs up to its own first await, the one on fetch, before
    pendingRequests.set. *)
Definition translate (navigator : option bool) (now : Z)
    (text : jsstring) (sourceLanguage targetLanguage : Language) (s : State)
  : outcome * list call * State :=
  if negb (isOnline navigator) then
    (Throw {| code := OFFLINE; message := getErrorMessage (Some OFFLINE); status := 0 |}, [], s)
  else if (strlen text =? 0) || (strlen (trim text) =? 0) then
    (Throw {| code := INVALID_INPUT; message := lit "Please enter text to translate.";
              status := 400 |}, [], s)
  else if strlen text >? 5000 then
    (Throw {| code := INVALID_INPUT;
              message := lit "Text exceeds maximum length of 5000 characters.";
              status := 400 |}, [], s)
  else
    let cacheKey := getClientCacheKey text sourceLanguage targetLanguage in
    let uncached :=
      match pendingRequests s !! cacheKey with
      | Some pendingRequest => (Await pendingRequest, [], s)
      | None =>
        let requestPromise := List.length (requests s) in
        (Await requestPromise,
         [Fetch text sourceLanguage targetLanguage],
         {| clientCache := clientCache s;
            pendingRequests := <[cacheKey := requestPromise]> (pendingRequests s);
            requests := requests s
                        ++ [{| req_key := cacheKey; req_state := Pending; req_finalized := false |}] |})
      end in
    match mget cacheKey (clientCache s) with
    | Some cached =>
      if now - timestamp cached <? CLIENT_CACHE_TTL then (Return (response cached), [], s)
      else uncached
    | None => uncached
    end.

(** The reply of /api/translate as the closure reads it. *)
Record Data := {
  d_code : option jsstring;
  d_message : option jsstring;
  d_translation : TranslationAPIResponse
}.

Inductive fetched :=
| FetchFails (e : exn)
| FetchReplies (status : Z) (json : result Data).

Definition orElse (v : option jsstring) (d : jsstring) : jsstring :=
  match v with
  | Some (c :: s) => c :: s
  | _ => d
  end.

(** The catch clause of the closure, for what is not yet a TranslationAPIError. *)
Definition classify (e : exn) : TranslationAPIError :=
  match e with
  | TypeError _ =>
    {| code := NETWORK_ERROR; message := getErrorMessage (Some NETWORK_ERROR); status := 0 |}
  | OtherError =>
    {| code := API_ERROR; message := getErrorMessage (Some API_ERROR); status := 500 |}
  end.

(** The closure from the reply of fetch to its return or throw. *)
Definition requestResult (f : fetched) : TranslationAPIResponse + TranslationAPIError :=
  match f with
  | FetchFails e => inr (classify e)
  | FetchReplies _ (Throws e) => inr (classify e)
  | FetchReplies st (Returns data) =>
    if negb ((200 <=? st) && (st <=? 299)) then
      inr {| code := orElse (d_code data) API_ERROR;
             message := orElse (d_message data) (getErrorMessage (d_code data));
             status := st |}
    else inl (d_translation data)
  end.

(** The closure resumes and runs to its end, which settles requestPromise. *)
Definition settle (p : nat) (f : fetched) (nowStore nowCleanup : Z) (s : State) : State :=
  match requests s !! p with
  | Some {| req_key := cacheKey; req_state := Pending; req_finalized := fin |} =>
    match requestResult f with
    | inl translationResult =>
      {| clientCache :=
           cleanupClientCache nowCleanup
             (mset cacheKey {| response := translationResult; timestamp := nowStore |}
                   (clientCache s));
         pendingRequests := pendingRequests s;
         requests := <[p := {| req_key := cacheKey; req_state := Resolved translationResult;
                               req_finalized := fin |}]> (requests s) |}
    | inr error =>
      {| clientCache := clientCache s;
         pendingRequests := pendingRequests s;
         requests := <[p := {| req_key := cacheKey; req_state := RejectedWith error;
                               req_finalized := fin |}]> (requests s) |}
    end
  | _ => s
  end.

(** The call that started request [p] resumes from its await, with the value
    or the exception, and runs its [finally] block. *)
Definition finallyBlock (p : nat) (s : State) : State :=
  match requests s !! p with
  | Some {| req_key := cacheKey; req_state := st; req_finalized := false |} =>
    match st with
    | Pending => s
    | _ =>
      {| clientCache := clientCache s;
         pendingRequests := delete cacheKey (pendingRequests s);
         requests := <[p := {| req_key := cacheKey; req_state := st; req_finalized := true |}]>
                       (requests s) |}
    end
  | _ => s
  end.

Inductive event :=
| Call (navigator : option bool) (now : Z) (text : jsstring) (source target : Language)
| Settle (p : nat) (f : fetched) (nowStore nowCleanup : Z)
| Finally (p : nat).

(** One scheduling step; a resumption that is not due leaves the state as it is. *)
Definition step (s : State) (ev : event) : State :=
  match ev with
  | Call navigator now text source target => (translate navigator now text source target s).2
  | Settle p f nowStore nowCleanup => settle p f nowStore nowCleanup s
  | Finally p => finallyBlock p s
  end.

Definition run (evs : list event) : State := foldl step initial evs.

(** What whoever awaits request [p] receives once it has settled. *)
Definition delivered (s : State) (p : nat) : option (TranslationAPIResponse + TranslationAPIError) :=
  match requests s !! p with
  | Some {| req_state := Resolved r |} => Some (inl r)
  | Some {| req_state := RejectedWith e |} => Some (inr e)
  | _ => None
  end.

Definition inFlight (s : State) (p : nat) (k : jsstring) : Prop :=
  ∃ r, requests s !! p = Some r ∧ req_key r = k ∧ req_state r = Pending.

(** A text that passes the two input checks of translate. *)
Definition validText (text : jsstring) : Prop := trim text ≠ [] ∧ strlen text ≤ 5000.

(** The cache holds no entry for the key that is fresh at [now]. *)
Definition cacheMiss (now : Z) (key : jsstring) (s : State) : Prop :=
  match mget key (clientCache s) with
  | Some cached => (now - timestamp cached <? CLIENT_CACHE_TTL) = false
  | None => True
  end.

(** The registry and the requests agree: a registered id is a request of that
    key whose [finally] has not run; such a request is the one registered
    under its key; [finally] only runs on a settled request. *)
Record consistent (s : State) : Prop := {
  registered k p :
    pendingRequests s !! k = Some p →
    ∃ r, requests s !! p = Some r ∧ req_key r = k ∧ req_finalized r = false;
  tracked p r :
    requests s !! p = Some r → req_finalized r = false →
    pendingRequests s !! req_key r = Some p;
  finalized_settled p r :
    requests s !! p = Some r → req_finalized r = true → req_state r ≠ Pending
}.

End Client.

(** ** Vocabulary of the statements *)

(** Which ceiling a denial names. *)
Inductive denial := DailyQuota | GlobalLimit | Throttled.

Definition denialOf (r : RateLimitResult) : denial :=
  if strict_eq_str (reason r) (lit "daily_quota") then DailyQuota
  else if strict_eq_str (reason r) (lit "global_limit") then GlobalLimit
  else Throttled.

(** A body the translate route turns down: no text, a text that trims to
    nothing, a text of more than 5000 code units, or a language other than
    'en' and 'ja'. *)
Definition invalidTranslateBody (b : TranslateRoute.TranslationRequestBody) : Prop :=
  match TranslateRoute.text b with
  | VString t =>
    trim t = [] ∨ 5000 < strlen t
    ∨ (TranslateRoute.sourceLanguage b ≠ VString (lit "en")
       ∧ TranslateRoute.sourceLanguage b ≠ VString (lit "ja"))
    ∨ (TranslateRoute.targetLanguage b ≠ VString (lit "en")
       ∧ TranslateRoute.targetLanguage b ≠ VString (lit "ja"))
  | _ => True
  end.

Definition invalidAnalyzeText (v : value) : Prop :=
  match v with
  | VString t => trim t = [] ∨ 5000 < strlen t
  | _ => True
  end.

Definition isInvalidInput (r : TranslateRoute.Response) : Prop :=
  TranslateRoute.r_status r = 400
  ∧ ∃ message, TranslateRoute.r_body r
               = TranslateRoute.ErrorBody TranslateRoute.INVALID_INPUT message 400 None.

(** The answers that turn a text down for its length. *)
Definition isLengthError (r : TranslateRoute.Response) : Prop :=
  TranslateRoute.r_body r
  = TranslateRoute.ErrorBody TranslateRoute.INVALID_INPUT
      (lit "Text exceeds maximum length of 5000 characters.") 400 None.

Definition isClientLengthError (o : Client.outcome) : Prop :=
  o = Client.Throw {| Client.code := Client.INVALID_INPUT;
                      Client.message := lit "Text exceeds maximum length of 5000 characters.";
                      Client.status := 400 |}.

Definition validLanguage (v : value) : Prop := v = VString (lit "en") ∨ v = VString (lit "ja").

(** [st'] is [st], or [st] after one Map.set followed by cleanupCache. *)
Definition putThenCleanup {V} (cleanup : Z → ServerCache.store V → ServerCache.store V)
    (st st' : ServerCache.store V) : Prop :=
  st' = st
  ∨ ∃ k entry now,
      st' = cleanup now
              {| ServerCache.cache := mset k entry (ServerCache.cache st);
                 ServerCache.lastCleanupTime := ServerCache.lastCleanupTime st |}.

(** The translate request of [env] reads translationCache under [key],
    whatever the store: the lookup of [key] is what it does after the rate
    limiter and the body, and a fresh entry under [key] is what it is
    answered with. *)
Definition translateLooksUp (h : RateLimitResult → Headers) (env : TranslateRoute.Env)
    (key : jsstring) : Prop :=
  ∀ st,
    (∃ rest, (TranslateRoute.POST h env st).1.2
             = RateLimitCheck (TranslateRoute.clientIP env) :: ReadBody :: CacheGet key :: rest)
    ∧ ∀ cached,
        mget key (ServerCache.cache st) = Some cached →
        TranslateRoute.nowLookup env - TranslateRoute.timestamp cached < TranslateRoute.CACHE_TTL →
        TranslateRoute.r_body (TranslateRoute.POST h env st).1.1
        = TranslateRoute.TranslationBody (TranslateRoute.translatedText cached) None
            (TranslateRoute.romanization cached) true.

(** The same for an analyze request and analysisCache. *)
Definition analyzeLooksUp (h : RateLimitResult → Headers) (env : AnalyzeRoute.Env)
    (key : jsstring) : Prop :=
  ∀ st,
    (∃ rest, (AnalyzeRoute.POST h env st).1.2
             = RateLimitCheck (AnalyzeRoute.clientIP env) :: ReadBody :: CacheGet key :: rest)
    ∧ ∀ cached,
        mget key (ServerCache.cache st) = Some cached →
        AnalyzeRoute.nowLookup env - AnalyzeRoute.timestamp cached < AnalyzeRoute.CACHE_TTL →
        AnalyzeRoute.r_body (AnalyzeRoute.POST h env st).1.1
        = AnalyzeRoute.TokensBody (AnalyzeRoute.tokens cached) true.

(** ** Sample inputs *)

Definition translateStoreOf (n : nat) : TranslateRoute.store :=
  {| ServerCache.cache :=
       (λ i, ([N.of_nat i],
              {| TranslateRoute.translatedText := []; TranslateRoute.romanization := None;
                 TranslateRoute.timestamp := Z.of_nat i |})) <$> seq 0 n;
     ServerCache.lastCleanupTime := 0 |}.

Definition sampleHeaders (r : RateLimitResult) : Headers :=
  [(lit "Retry-After", toString (retryAfter r))].

Definition deniedResult : RateLimitResult :=
  {| allowed := false; reason := VString (lit "daily_quota"); retryAfter := VNumber 3600 |}.

Definition allowedResult : RateLimitResult :=
  {| allowed := true; reason := VUndefined; retryAfter := VUndefined |}.

Definition translateEnv (rl : RateLimitResult) (text : jsstring) : TranslateRoute.Env :=
  {| TranslateRoute.clientIP := lit "203.0.113.7";
     TranslateRoute.rateLimitResult := rl;
     TranslateRoute.requestJson :=
       Returns {| TranslateRoute.text := VString text;
                  TranslateRoute.sourceLanguage := VString (lit "en");
                  TranslateRoute.targetLanguage := VString (lit "ja") |};
     TranslateRoute.nowLookup := 0;
     TranslateRoute.apiKey := Some (lit "key");
     TranslateRoute.googleFetch :=
       Returns {| TranslateRoute.g_status := 200;
                  TranslateRoute.g_json :=
                    Returns [{| TranslateRoute.tr_translatedText := [12354%N];
                                TranslateRoute.tr_detectedSourceLanguage := None |}] |};
     TranslateRoute.kuroshiroConvert := Returns (lit "a");
     TranslateRoute.nowStore := 0;
     TranslateRoute.nowCleanup := 0 |}.

Definition analyzeEnv (rl : RateLimitResult) (text : jsstring) : AnalyzeRoute.Env :=
  {| AnalyzeRoute.clientIP := lit "203.0.113.7";
     AnalyzeRoute.rateLimitResult := rl;
     AnalyzeRoute.requestJson := Returns (VString text);
     AnalyzeRoute.nowLookup := 0;
     AnalyzeRoute.kuroshiro := Returns ();
     AnalyzeRoute.parse := Returns [];
     AnalyzeRoute.nowStore := 0;
     AnalyzeRoute.nowCleanup := 0 |}.

Definition emptyTranslateStore : TranslateRoute.store :=
  {| ServerCache.cache := []; ServerCache.lastCleanupTime := 0 |}.

Definition emptyAnalyzeStore : AnalyzeRoute.store :=
  {| ServerCache.cache := []; ServerCache.lastCleanupTime := 0 |}.

Definition oversizeText : jsstring := replicate (Z.to_nat 5001) 97%N.

Definition analyzeStoreWith (text : jsstring) : AnalyzeRoute.store :=
  {| ServerCache.cache := [(text, {| AnalyzeRoute.tokens := []; AnalyzeRoute.timestamp := 0 |})];
     ServerCache.lastCleanupTime := 0 |}.

Definition sampleReply (text : jsstring) : Client.fetched :=
  Client.FetchReplies 200
    (Returns {| Client.d_code := None; Client.d_message := None;
                Client.d_translation :=
                  {| Client.translatedText := text; Client.romanization := None;
                     Client.cached := false |} |}).

(** Two calls for one text, the second with surrounding blanks, before the
    request of the first has been answered. *)
Definition twoCallers : list Client.event :=
  [Client.Call None 0 (lit "hi") Client.en Client.ja;
   Client.Call None 0 (lit " hi ") Client.en Client.ja].

(** The [i]-th of a series of translations of different texts, all at time 0:
    the call, the reply, the [finally] block. *)
Definition translation (i : nat) : list Client.event :=
  [Client.Call None 0 [N.of_nat (1000 + i)] Client.en Client.ja;
   Client.Settle i (sampleReply [N.of_nat (2000 + i)]) 0 0;
   Client.Finally i].

Definition translations (n : nat) : list Client.event := flat_map translation (seq 0 n).

(** ** Vocabulary of the further statements *)

(** A translate request that gets as far as the cache lookup: let in by the
    rate limiter, body read, text and languages accepted. *)
Definition reachesLookup (env : TranslateRoute.Env) (b : TranslateRoute.TranslationRequestBody)
    (t : jsstring) : Prop :=
  allowed (TranslateRoute.rateLimitResult env) = true
  ∧ TranslateRoute.requestJson env = Returns b
  ∧ TranslateRoute.text b = VString t
  ∧ trim t ≠ [] ∧ strlen t ≤ 5000
  ∧ validLanguage (TranslateRoute.sourceLanguage b)
  ∧ validLanguage (TranslateRoute.targetLanguage b).

(** The key under which the translate route looks such a request up. *)
Definition requestKey (b : TranslateRoute.TranslationRequestBody) (t : jsstring) : jsstring :=
  TranslateRoute.getCacheKey (trim t)
    (toString (TranslateRoute.sourceLanguage b)) (toString (TranslateRoute.targetLanguage b)).

(** translationCache holds no entry for the key that is fresh at [now]. *)
Definition translateMiss (now : Z) (key : jsstring) (st : TranslateRoute.store) : Prop :=
  match mget key (ServerCache.cache st) with
  | Some cached => TranslateRoute.CACHE_TTL ≤ now - TranslateRoute.timestamp cached
  | None => True
  end.

Definition isCachedResponse (r : TranslateRoute.Response) : Prop :=
  ∃ translated detected romaji,
    TranslateRoute.r_body r = TranslateRoute.TranslationBody translated detected romaji true.

(** A translation obtained from Google on this request. *)
Definition isFreshTranslation (r : TranslateRoute.Response) : Prop :=
  TranslateRoute.r_status r = 200
  ∧ ∃ translated detected romaji,
      TranslateRoute.r_body r = TranslateRoute.TranslationBody translated detected romaji false.

(** An analyze request that gets as far as the cache lookup. *)
Definition reachesAnalysisLookup (env : AnalyzeRoute.Env) (t : jsstring) : Prop :=
  allowed (AnalyzeRoute.rateLimitResult env) = true
  ∧ AnalyzeRoute.requestJson env = Returns (VString t)
  ∧ trim t ≠ [] ∧ strlen t ≤ 5000.

Definition analysisMiss (now : Z) (key : jsstring) (st : AnalyzeRoute.store) : Prop :=
  match mget key (ServerCache.cache st) with
  | Some cached => AnalyzeRoute.CACHE_TTL ≤ now - AnalyzeRoute.timestamp cached
  | None => True
  end.

(** Analyses obtained from the analyzer on this request. *)
Definition isFreshAnalysis (r : AnalyzeRoute.Response) : Prop :=
  AnalyzeRoute.r_status r = 200
  ∧ ∃ tokens, AnalyzeRoute.r_body r = AnalyzeRoute.TokensBody tokens false.

(** A code unit of the block the reading conversion rewrites. *)
Definition isKatakana (c : N) : Prop := (12449 ≤ c ≤ 12534)%N.

(** Several calls of the client's translate, one after the other, with no
    reply arriving in between: each runs its synchronous part on the state
    the one before left. *)
Fixpoint callAll (navigator : option bool) (now : Z) (texts : list jsstring)
    (source target : Client.Language) (s : Client.State)
  : list Client.outcome * list Client.call * Client.State :=
  match texts with
  | [] => ([], [], s)
  | text :: rest =>
    let '(o, sent, s1) := Client.translate navigator now text source target s in
    let '(os, sent', s2) := callAll navigator now rest source target s1 in
    (o :: os, sent ++ sent', s2)
  end.

(** The answers of the translate route: a translation with status 200, or
    an error body whose [status] field is the HTTP status of the response
    and whose code is one of the five of ERROR_CODES. *)
Inductive translateAnswer : TranslateRoute.Response → Prop :=
| answer_translation translated detected romaji cached headers :
    translateAnswer
      (TranslateRoute.json
         (TranslateRoute.TranslationBody translated detected romaji cached) 200 headers)
| answer_invalid message :
    translateAnswer
      (TranslateRoute.json
         (TranslateRoute.ErrorBody TranslateRoute.INVALID_INPUT message 400 None) 400 [])
| answer_rate_limit message retryAfter headers :
    translateAnswer
      (TranslateRoute.json
         (TranslateRoute.ErrorBody TranslateRoute.RATE_LIMIT message 429 retryAfter) 429 headers)
| answer_network message :
    translateAnswer
      (TranslateRoute.json
         (TranslateRoute.ErrorBody TranslateRoute.NETWORK_ERROR message 503 None) 503 [])
| answer_auth message status :
    status = 500 ∨ status = 401 ∨ status = 403 →
    translateAnswer
      (TranslateRoute.json
         (TranslateRoute.ErrorBody TranslateRoute.AUTH_ERROR message status None) status [])
| answer_api message status :
    ¬ (200 ≤ status ≤ 299) →
    translateAnswer
      (TranslateRoute.json
         (TranslateRoute.ErrorBody TranslateRoute.API_ERROR message status None) status []).

(** An event of the client that happens while an entry stored at [stored]
    has not expired: a call less than CLIENT_CACHE_TTL after it, as the
    lookup of translate compares, a reply whose cleanup runs at most
    CLIENT_CACHE_TTL after it, as cleanupClientCache compares. *)
Definition withinWindow (stored : Z) (ev : Client.event) : Prop :=
  match ev with
  | Client.Call _ now _ _ _ => now - stored < Client.CLIENT_CACHE_TTL
  | Client.Settle _ _ _ nowCleanup => nowCleanup - stored ≤ Client.CLIENT_CACHE_TTL
  | Client.Finally _ => True
  end.

(** The body the client sends to /api/translate:
    JSON.stringify({ text, sourceLanguage, targetLanguage }). *)
Definition clientRequestBody (text : jsstring) (source target : Client.Language)
  : TranslateRoute.TranslationRequestBody :=
  {| TranslateRoute.text := VString text;
     TranslateRoute.sourceLanguage := VString (Client.languageString source);
     TranslateRoute.targetLanguage := VString (Client.languageString target) |}.

(** ** Further sample inputs *)

Definition helloBody : TranslateRoute.TranslationRequestBody :=
  {| TranslateRoute.text := VString (lit "hello");
     TranslateRoute.sourceLanguage := VString (lit "en");
     TranslateRoute.targetLanguage := VString (lit "ja") |}.

Definition helloKey : jsstring := lit "en:ja:hello".

Definition helloEntry : TranslateRoute.CacheEntry :=
  {| TranslateRoute.translatedText := [12354%N];
     TranslateRoute.romanization := Some (lit "a");
     TranslateRoute.timestamp := 0 |}.

Definition translateStoreWith (key : jsstring) (entry : TranslateRoute.CacheEntry)
  : TranslateRoute.store :=
  {| ServerCache.cache := [(key, entry)]; ServerCache.lastCleanupTime := 0 |}.

Definition paddedHelloBody : TranslateRoute.TranslationRequestBody :=
  {| TranslateRoute.text := VString (lit " hello ");
     TranslateRoute.sourceLanguage := VString (lit "en");
     TranslateRoute.targetLanguage := VString (lit "ja") |}.

(** A translate request for " hello " from 'en' to 'ja' at time 1000, with
    the given API key and the given outcome of the romaji conversion. *)
(** The request for "hello" when Google replies with [status] and no
    readable body. *)
Definition helloEnvWithStatus (status : Z) : TranslateRoute.Env :=
  {| TranslateRoute.clientIP := lit "203.0.113.7";
     TranslateRoute.rateLimitResult := allowedResult;
     TranslateRoute.requestJson := Returns helloBody;
     TranslateRoute.nowLookup := 1000;
     TranslateRoute.apiKey := Some (lit "key");
     TranslateRoute.googleFetch :=
       Returns {| TranslateRoute.g_status := status;
                  TranslateRoute.g_json := Throws OtherError |};
     TranslateRoute.kuroshiroConvert := Throws OtherError;
     TranslateRoute.nowStore := 1000;
     TranslateRoute.nowCleanup := 1000 |}.

Definition paddedHelloEnv (key : option jsstring) (convert : result jsstring)
  : TranslateRoute.Env :=
  {| TranslateRoute.clientIP := lit "203.0.113.7";
     TranslateRoute.rateLimitResult := allowedResult;
     TranslateRoute.requestJson := Returns paddedHelloBody;
     TranslateRoute.nowLookup := 1000;
     TranslateRoute.apiKey := key;
     TranslateRoute.googleFetch :=
       Returns {| TranslateRoute.g_status := 200;
                  TranslateRoute.g_json :=
                    Returns [{| TranslateRoute.tr_translatedText := [12354%N];
                                TranslateRoute.tr_detectedSourceLanguage := None |}] |};
     TranslateRoute.kuroshiroConvert := convert;
     TranslateRoute.nowStore := 1000;
     TranslateRoute.nowCleanup := 1000 |}.

(** An analyze request whose call of getKuroshiro throws. *)
Definition analyzeEnvFailing (text : jsstring) : AnalyzeRoute.Env :=
  {| AnalyzeRoute.clientIP := lit "203.0.113.7";
     AnalyzeRoute.rateLimitResult := allowedResult;
     AnalyzeRoute.requestJson := Returns (VString text);
     AnalyzeRoute.nowLookup := 0;
     AnalyzeRoute.kuroshiro := Throws OtherError;
     AnalyzeRoute.parse := Returns [];
     AnalyzeRoute.nowStore := 0;
     AnalyzeRoute.nowCleanup := 0 |}.

(** A store whose only entry is two hours old and whose last sweep is as old. *)
Definition staleTranslateStore : TranslateRoute.store :=
  {| ServerCache.cache := [(helloKey, helloEntry)]; ServerCache.lastCleanupTime := 0 |}.

Definition sampleToken : AnalyzeRoute.KuromojiToken :=
  {| AnalyzeRoute.surface_form := [12493; 12467]%N;
     AnalyzeRoute.pos := [21517; 35422]%N;
     AnalyzeRoute.pos_detail_1 := lit "*";
     AnalyzeRoute.pos_detail_2 := lit "*";
     AnalyzeRoute.pos_detail_3 := lit "*";
     AnalyzeRoute.conjugated_type := lit "*";
     AnalyzeRoute.conjugated_form := lit "*";
     AnalyzeRoute.basic_form := lit "*";
     AnalyzeRoute.reading := [12493; 12467]%N;
     AnalyzeRoute.pronunciation := [12493; 12467]%N |}.

Definition oneCaller : list Client.event :=
  [Client.Call None 0 (lit "hi") Client.en Client.ja].

(** * Properties *)

(** ** The insertion-ordered map *)

Section JsMapFacts.
Context {V : Type}.
Implicit Types (m : jsmap V) (k : jsstring) (v : V).

Lemma filter_all {A} (P : A → Prop) `{∀ x, Decision (P x)} (l : list A) :
  (∀ x, x ∈ l → P x) → filter P l = l.
Proof.
  induction l as [|a l IH]; intros Hl; [done |].
  rewrite filter_cons_True by (apply Hl; left).
  f_equal. apply IH. intros x Hx. apply Hl. by right.
Qed.

Lemma filter_none {A} (P : A → Prop) `{∀ x, Decision (P x)} (l : list A) :
  (∀ x, x ∈ l → ¬ P x) → filter P l = [].
Proof.
  induction l as [|a l IH]; intros Hl; [done |].
  rewrite filter_cons_False by (apply Hl; left).
  apply IH. intros x Hx. apply Hl. by right.
Qed.

Lemma filter_ext_elem {A} (P Q : A → Prop) `{∀ x, Decision (P x)} `{∀ x, Decision (Q x)}
    (l : list A) :
  (∀ x, x ∈ l → P x ↔ Q x) → filter P l = filter Q l.
Proof.
  induction l as [|a l IH]; intros Hl; [done |].
  assert (filter P l = filter Q l) as Htl by (apply IH; intros x Hx; apply Hl; by right).
  destruct (decide (P a)) as [Hp|Hp].
  - rewrite !filter_cons_True; [by f_equal | by apply Hl; [left |] | done].
  - rewrite !filter_cons_False; [done | | done]. intros Hq. apply Hp, Hl; [by left | done].
Qed.

Lemma filter_wf (P : jsstring * V → Prop) `{∀ x, Decision (P x)} m : wf m → wf (filter P m).
Proof.
  unfold wf. induction m as [|a m IH]; intros Hnd; [done |].
  simpl in Hnd. apply NoDup_cons in Hnd as [Hna Hnd].
  destruct (decide (P a)).
  - rewrite filter_cons_True by done. simpl. apply NoDup_cons. split; [| by apply IH].
    intros Hin. apply Hna. apply list_elem_of_fmap in Hin as (x & -> & Hx).
    apply list_elem_of_fmap. exists x. split; [done |].
    by apply list_elem_of_filter in Hx as [_ ?].
  - rewrite filter_cons_False by done. by apply IH.
Qed.

Lemma mdelete_wf k m : wf m → wf (mdelete k m).
Proof. apply filter_wf. Qed.

Lemma mset_keys k v m :
  (mset k v m).*1 = if decide (k ∈ m.*1) then m.*1 else m.*1 ++ [k].
Proof.
  induction m as [|[k' v'] m IH].
  - reflexivity.
  - cbn [mset]. destruct (decide (k' = k)) as [->|Hne].
    + rewrite decide_True by (rewrite fmap_cons; left; done). done.
    + rewrite !fmap_cons, IH. cbn [fst].
      destruct (decide (k ∈ m.*1)) as [Hin|Hnin].
      * rewrite decide_True by (by right). done.
      * rewrite decide_False; [done |]. intros Hc. apply elem_of_cons in Hc as [->|]; done.
Qed.

Lemma mset_wf k v m : wf m → wf (mset k v m).
Proof.
  unfold wf. rewrite mset_keys. destruct (decide (k ∈ m.*1)); [done |].
  intros H. apply NoDup_app. split_and!; [done | | apply NoDup_singleton].
  intros x Hx Hx'. apply list_elem_of_singleton in Hx' as ->. done.
Qed.

Lemma mget_mset_eq k v m : mget k (mset k v m) = Some v.
Proof.
  induction m as [|[k' v'] m IH]; simpl.
  - by rewrite decide_True.
  - destruct (decide (k' = k)) as [->|Hne]; simpl.
    + by rewrite decide_True.
    + by rewrite decide_False.
Qed.

Lemma mget_mset_ne k k' v m : k ≠ k' → mget k' (mset k v m) = mget k' m.
Proof.
  intros Hne. induction m as [|[k0 v0] m IH]; simpl.
  - by rewrite decide_False.
  - destruct (decide (k0 = k)) as [->|Hne0]; simpl.
    + by rewrite !decide_False.
    + by rewrite IH.
Qed.

Lemma msize_mset k v m :
  msize (mset k v m) = if decide (k ∈ m.*1) then msize m else S (msize m).
Proof.
  unfold msize. rewrite <-(length_fmap fst (mset k v m)), mset_keys.
  destruct (decide (k ∈ m.*1)); rewrite ?length_app, length_fmap; simpl; lia.
Qed.

(** forEach(([key]) => map.delete(key)) over a list of entries. *)
Lemma foldl_mdelete (R : list (jsstring * V)) m :
  foldl (λ acc kv, mdelete kv.1 acc) m R = filter (λ kv, kv.1 ∉ R.*1) m.
Proof.
  revert m. induction R as [|r R IH]; intros m; simpl.
  - symmetry. apply filter_all. intros x _. apply not_elem_of_nil.
  - rewrite IH. unfold mdelete. rewrite list_filter_filter.
    apply list_filter_iff. intros x. rewrite not_elem_of_cons. tauto.
Qed.

(** The loop that deletes the entries a test selects, one key at a time. *)
Lemma foldl_mdelete_if (test : V → bool) (R : list (jsstring * V)) m :
  foldl (λ acc kv, if test kv.2 then mdelete kv.1 acc else acc) m R
  = filter (λ kv, kv.1 ∉ (filter (λ kv, test kv.2 = true) R).*1) m.
Proof.
  revert m. induction R as [|r R IH]; intros m; simpl.
  - symmetry. apply filter_all. intros x _. apply not_elem_of_nil.
  - rewrite IH. destruct (test r.2) eqn:E.
    + rewrite filter_cons_True by done. unfold mdelete. rewrite list_filter_filter.
      apply list_filter_iff. intros x. simpl. rewrite not_elem_of_cons. tauto.
    + rewrite filter_cons_False by (rewrite E; done). done.
Qed.

Lemma wf_key_inj m (x y : jsstring * V) : wf m → x ∈ m → y ∈ m → x.1 = y.1 → x = y.
Proof.
  unfold wf. induction m as [|a m IH]; intros Hnd Hx Hy Hk.
  - by apply elem_of_nil in Hx.
  - simpl in Hnd. apply NoDup_cons in Hnd as [Hna Hnd].
    apply elem_of_cons in Hx as [->|Hx]; apply elem_of_cons in Hy as [->|Hy]; auto.
    + exfalso. apply Hna. rewrite Hk. apply list_elem_of_fmap. eauto.
    + exfalso. apply Hna. rewrite <-Hk. apply list_elem_of_fmap. eauto.
Qed.

(** On a map, deleting the selected keys removes the selected entries and no other. *)
Lemma foldl_mdelete_if_wf (test : V → bool) m :
  wf m →
  foldl (λ acc kv, if test kv.2 then mdelete kv.1 acc else acc) m m
  = filter (λ kv, test kv.2 = false) m.
Proof.
  intros Hwf. rewrite foldl_mdelete_if. apply filter_ext_elem. intros x Hx. split.
  - intros Hn. destruct (test x.2) eqn:E; [| done]. exfalso. apply Hn.
    apply list_elem_of_fmap. exists x. split; [done |]. by apply list_elem_of_filter.
  - intros E Hin. apply list_elem_of_fmap in Hin as (y & Hk & Hy).
    apply list_elem_of_filter in Hy as [Hty Hy].
    assert (x = y) as -> by (by apply (wf_key_inj m)). congruence.
Qed.
End JsMapFacts.

(** ** cleanupCache *)

Section ServerCacheFacts.
Context {V : Type}.
Variable timestamp : V → Z.
Variable CACHE_TTL : Z.
Variable MAX_CACHE_SIZE : nat.
Variable CLEANUP_INTERVAL : Z.

Local Abbreviation sortByTimestamp := (ServerCache.sortByTimestamp timestamp).
Local Abbreviation insertByTimestamp := (ServerCache.insertByTimestamp timestamp).
Local Abbreviation evictOldest := (ServerCache.evictOldest timestamp MAX_CACHE_SIZE).
Local Abbreviation removeCount := (ServerCache.removeCount MAX_CACHE_SIZE).
Local Abbreviation notNewer := (λ a b : jsstring * V, timestamp a.2 ≤ timestamp b.2).

Lemma insertByTimestamp_perm e l : insertByTimestamp e l ≡ₚ e :: l.
Proof.
  induction l as [|x l IH]; simpl; [done |].
  destruct (timestamp e.2 <=? timestamp x.2); [done |].
  rewrite IH. apply Permutation_swap.
Qed.

Lemma sortByTimestamp_perm l : sortByTimestamp l ≡ₚ l.
Proof.
  induction l as [|e l IH]; simpl; [done |].
  by rewrite insertByTimestamp_perm, IH.
Qed.

Lemma insertByTimestamp_sorted e l :
  StronglySorted notNewer l → StronglySorted notNewer (insertByTimestamp e l).
Proof.
  induction 1 as [|x l Hs IH Hx]; simpl.
  - repeat constructor.
  - destruct (Z.leb_spec (timestamp e.2) (timestamp x.2)) as [Hle|Hgt].
    + constructor; [by constructor |]. constructor; [done |].
      eapply Forall_impl; [exact Hx |]. simpl. intros; lia.
    + constructor; [done |]. rewrite insertByTimestamp_perm.
      constructor; [lia | done].
Qed.

Lemma sortByTimestamp_sorted l : StronglySorted notNewer (sortByTimestamp l).
Proof.
  induction l as [|e l IH]; simpl; [constructor |].
  by apply insertByTimestamp_sorted.
Qed.

(** The sort is the stable one: entries of one timestamp stay in the order
    they had. *)
Lemma insertByTimestamp_stable e l t :
  StronglySorted notNewer l →
  filter (λ x, timestamp x.2 = t) (insertByTimestamp e l)
  = filter (λ x, timestamp x.2 = t) (e :: l).
Proof.
  induction 1 as [|x l Hs IH Hx]; simpl; [done |].
  destruct (Z.leb_spec (timestamp e.2) (timestamp x.2)) as [Hle|Hgt]; [done |].
  destruct (decide (timestamp e.2 = t)) as [He|He].
  - rewrite (filter_cons_True _ e) by done.
    rewrite (filter_cons_False _ x) by lia.
    rewrite (filter_cons_False _ x) by lia.
    rewrite IH. by rewrite filter_cons_True.
  - rewrite (filter_cons_False _ e) by done.
    destruct (decide (timestamp x.2 = t)) as [Hxt|Hxt].
    + rewrite !(filter_cons_True _ x) by done. rewrite IH.
      by rewrite filter_cons_False.
    + rewrite !(filter_cons_False _ x) by done. rewrite IH.
      by rewrite filter_cons_False.
Qed.

Lemma sortByTimestamp_stable l t :
  filter (λ x, timestamp x.2 = t) (sortByTimestamp l) = filter (λ x, timestamp x.2 = t) l.
Proof.
  induction l as [|e l IH]; simpl; [done |].
  rewrite insertByTimestamp_stable by apply sortByTimestamp_sorted.
  destruct (decide (timestamp e.2 = t)).
  - rewrite !filter_cons_True by done. by rewrite IH.
  - rewrite !filter_cons_False by done. by rewrite IH.
Qed.


Lemma sorted_take_drop n (l : list (jsstring * V)) r e :
  StronglySorted notNewer l → r ∈ take n l → e ∈ drop n l → timestamp r.2 ≤ timestamp e.2.
Proof.
  intros Hs. revert n. induction Hs as [|x l Hs IH Hx]; intros n Hr He.
  - rewrite take_nil in Hr. by apply elem_of_nil in Hr.
  - destruct n as [|n]; simpl in *; [by apply elem_of_nil in Hr |].
    apply elem_of_cons in Hr as [->|Hr]; [| by eapply IH].
    rewrite Forall_forall in Hx. apply Hx.
    rewrite <-(take_drop n l). apply elem_of_app. by right.
Qed.

(** What the eviction keeps, entry for entry: the tail of the sorted array. *)
Lemma evictOldest_kept m :
  wf m → (MAX_CACHE_SIZE < msize m)%nat →
  evictOldest m ≡ₚ drop (removeCount (List.length m)) (sortByTimestamp m).
Proof.
  intros Hwf Hbig. unfold ServerCache.evictOldest.
  apply Nat.ltb_lt in Hbig as ->. cbv zeta. rewrite foldl_mdelete.
  set (n := removeCount (List.length m)).
  set (P := λ kv : jsstring * V, kv.1 ∉ (take n (sortByTimestamp m)).*1).
  rewrite <-(sortByTimestamp_perm m) at 1.
  rewrite <-(take_drop n (sortByTimestamp m)) at 1.
  rewrite filter_app.
  assert (wf (take n (sortByTimestamp m) ++ drop n (sortByTimestamp m))) as Hnd.
  { rewrite take_drop. unfold wf. by rewrite sortByTimestamp_perm. }
  unfold wf in Hnd. rewrite fmap_app in Hnd. apply NoDup_app in Hnd as (_ & Hdisj & _).
  rewrite filter_none, filter_all; [done | |].
  - intros x Hx Hin. apply (Hdisj x.1 Hin). by apply list_elem_of_fmap_2.
  - intros x Hx HP. apply HP. by apply list_elem_of_fmap_2.
Qed.

Lemma evictOldest_size m :
  wf m → (MAX_CACHE_SIZE < msize m)%nat →
  msize (evictOldest m) = (msize m - removeCount (msize m))%nat.
Proof.
  intros Hwf Hbig. unfold msize at 1. rewrite (evictOldest_kept m Hwf Hbig).
  rewrite length_drop. unfold msize. by rewrite sortByTimestamp_perm.
Qed.

Lemma evictOldest_sublist m : evictOldest m `sublist_of` m.
Proof.
  unfold ServerCache.evictOldest. destruct (_ <? _)%nat; [| done].
  cbv zeta. rewrite foldl_mdelete. apply sublist_filter.
Qed.

Lemma evictOldest_small m : (msize m ≤ MAX_CACHE_SIZE)%nat → evictOldest m = m.
Proof.
  intros H. unfold ServerCache.evictOldest.
  destruct (Nat.ltb_spec MAX_CACHE_SIZE (msize m)); [lia | done].
Qed.

(** Whatever the keys, the eviction leaves no more than the size it aims at. *)
Lemma evictOldest_bound m :
  (msize (evictOldest m) ≤ MAX_CACHE_SIZE)%nat.
Proof.
  destruct (Nat.ltb_spec MAX_CACHE_SIZE (msize m)) as [Hbig|Hsmall];
    [| by rewrite evictOldest_small].
  unfold ServerCache.evictOldest. apply Nat.ltb_lt in Hbig as Hb. rewrite Hb. cbv zeta.
  rewrite foldl_mdelete.
  set (n := removeCount (List.length m)).
  set (s := sortByTimestamp m).
  set (P := λ kv : jsstring * V, kv.1 ∉ (take n s).*1).
  unfold msize. rewrite <-(sortByTimestamp_perm m) at 1. fold s.
  rewrite <-(take_drop n s) at 1. rewrite filter_app, length_app.
  rewrite (filter_none P (take n s)).
  - simpl. etrans; [apply length_filter |]. rewrite length_drop.
    subst s. rewrite sortByTimestamp_perm. subst n.
    unfold ServerCache.removeCount. unfold msize in Hbig.
    assert (List.length m - MAX_CACHE_SIZE ≤ (2 * List.length m - MAX_CACHE_SIZE) / 2)%nat; [| lia].
    apply Nat.div_le_lower_bound; lia.
  - intros x Hx HP. apply HP. by apply list_elem_of_fmap_2.
Qed.

Lemma evictOldest_wf m : wf m → wf (evictOldest m).
Proof.
  intros Hwf. unfold ServerCache.evictOldest. destruct (_ <? _)%nat; [| done].
  cbv zeta. rewrite foldl_mdelete. by apply filter_wf.
Qed.

Lemma evictOldest_oldest_first m r e :
  wf m → (MAX_CACHE_SIZE < msize m)%nat →
  r ∈ m → r ∉ evictOldest m → e ∈ evictOldest m → timestamp r.2 ≤ timestamp e.2.
Proof.
  intros Hwf Hbig Hr Hrm He.
  rewrite (evictOldest_kept m Hwf Hbig) in Hrm, He.
  apply (sorted_take_drop (removeCount (List.length m)) (sortByTimestamp m));
    [apply sortByTimestamp_sorted | | done].
  rewrite <-(sortByTimestamp_perm m), <-(take_drop (removeCount (List.length m))) in Hr.
  apply elem_of_app in Hr as [|]; done.
Qed.

Lemma evictOldest_newer_kept m e :
  wf m →
  e ∈ m → (∀ r, r ∈ m → r ∉ evictOldest m → timestamp r.2 < timestamp e.2) →
  e ∈ evictOldest m.
Proof.
  intros Hwf He Hnew. unfold ServerCache.evictOldest in *.
  destruct (_ <? _)%nat; [| done]. cbv zeta in *. rewrite foldl_mdelete in *.
  apply list_elem_of_filter. split; [| done]. intros Hin.
  specialize (Hnew e He). enough (timestamp e.2 < timestamp e.2) by lia.
  apply Hnew. rewrite list_elem_of_filter. intros [Hn _]. done.
Qed.

Lemma purgeExpired_filter now m :
  wf m →
  ServerCache.purgeExpired timestamp CACHE_TTL now m
  = filter (λ kv, (now - timestamp kv.2 >? CACHE_TTL) = false) m.
Proof.
  intros Hwf. unfold ServerCache.purgeExpired.
  by rewrite (foldl_mdelete_if_wf (λ v, now - timestamp v >? CACHE_TTL)).
Qed.

Lemma purgeExpired_wf now m : wf m → wf (ServerCache.purgeExpired timestamp CACHE_TTL now m).
Proof. intros Hwf. rewrite purgeExpired_filter by done. by apply filter_wf. Qed.

Lemma expireStage_wf now s :
  wf (ServerCache.cache s) →
  wf (ServerCache.cache (ServerCache.expireStage timestamp CACHE_TTL CLEANUP_INTERVAL now s)).
Proof.
  intros Hwf. unfold ServerCache.expireStage.
  destruct (_ >? _); simpl; [by apply purgeExpired_wf | done].
Qed.

Lemma cleanupCache_evicts now s half :
  wf (ServerCache.cache s) →
  let s1 := ServerCache.expireStage timestamp CACHE_TTL CLEANUP_INTERVAL now s in
  (MAX_CACHE_SIZE < msize (ServerCache.cache s1))%nat →
  (msize (ServerCache.cache s1) - removeCount (msize (ServerCache.cache s1)) = half)%nat →
  ServerCache.evictedOldestFirst timestamp half (ServerCache.cache s1)
    (ServerCache.cache
       (ServerCache.cleanupCache timestamp CACHE_TTL MAX_CACHE_SIZE CLEANUP_INTERVAL now s)).
Proof.
  intros Hwf s1 Hbig Hhalf. unfold ServerCache.cleanupCache. fold s1. simpl.
  assert (wf (ServerCache.cache s1)) as Hwf1 by (by apply expireStage_wf).
  split_and!.
  - by rewrite evictOldest_size.
  - apply evictOldest_sublist.
  - intros r e. by apply evictOldest_oldest_first.
  - intros e. by apply evictOldest_newer_kept.
Qed.

Lemma cleanupCache_bound now s :
  (msize (ServerCache.cache
            (ServerCache.cleanupCache timestamp CACHE_TTL MAX_CACHE_SIZE CLEANUP_INTERVAL now s))
   ≤ MAX_CACHE_SIZE)%nat.
Proof. unfold ServerCache.cleanupCache. simpl. apply evictOldest_bound. Qed.

Lemma cleanupCache_wf now s :
  wf (ServerCache.cache s) →
  wf (ServerCache.cache
        (ServerCache.cleanupCache timestamp CACHE_TTL MAX_CACHE_SIZE CLEANUP_INTERVAL now s)).
Proof.
  intros Hwf. unfold ServerCache.cleanupCache. simpl. apply evictOldest_wf.
  by apply expireStage_wf.
Qed.

End ServerCacheFacts.

(** ** The two server caches *)

(** C8: in both server caches, when the store that reaches the eviction step
    of cleanupCache holds more than MAX_CACHE_SIZE entries, the step removes
    entries oldest timestamp first and stops at half the maximum (250 of 500
    for translations, 100 of 200 for analyses); no removed entry is newer than
    a kept one, and an entry newer than every removed one is kept. *)
Theorem server_eviction_oldest_first_to_half :
  (∀ now (s : TranslateRoute.store),
     wf (ServerCache.cache s) →
     let s1 := ServerCache.expireStage TranslateRoute.timestamp TranslateRoute.CACHE_TTL
                 TranslateRoute.CLEANUP_INTERVAL now s in
     (TranslateRoute.MAX_CACHE_SIZE < msize (ServerCache.cache s1))%nat →
     ServerCache.evictedOldestFirst TranslateRoute.timestamp
       (TranslateRoute.MAX_CACHE_SIZE / 2)
       (ServerCache.cache s1) (ServerCache.cache (TranslateRoute.cleanupCache now s)))
  ∧ (∀ now (s : AnalyzeRoute.store),
     wf (ServerCache.cache s) →
     let s1 := ServerCache.expireStage AnalyzeRoute.timestamp AnalyzeRoute.CACHE_TTL
                 AnalyzeRoute.CLEANUP_INTERVAL now s in
     (AnalyzeRoute.MAX_CACHE_SIZE < msize (ServerCache.cache s1))%nat →
     ServerCache.evictedOldestFirst AnalyzeRoute.timestamp
       (AnalyzeRoute.MAX_CACHE_SIZE / 2)
       (ServerCache.cache s1) (ServerCache.cache (AnalyzeRoute.cleanupCache now s))).
Proof.
  split; intros now s Hwf s1 Hbig; apply cleanupCache_evicts; try done; fold s1;
    unfold ServerCache.removeCount;
    generalize dependent (msize (ServerCache.cache s1)); intros n Hbig.
  - unfold TranslateRoute.MAX_CACHE_SIZE in *. change (500 / 2)%nat with 250%nat.
    replace (2 * n - 500)%nat with ((n - 250) * 2)%nat by lia.
    rewrite Nat.div_mul by done. lia.
  - unfold AnalyzeRoute.MAX_CACHE_SIZE in *. change (200 / 2)%nat with 100%nat.
    replace (2 * n - 200)%nat with ((n - 100) * 2)%nat by lia.
    rewrite Nat.div_mul by done. lia.
Qed.

Lemma server_eviction_oldest_first_to_half_witness :
  ServerCache.evictedOldestFirst TranslateRoute.timestamp 250
    (ServerCache.cache (translateStoreOf 501))
    (ServerCache.cache (TranslateRoute.cleanupCache 0 (translateStoreOf 501))).
Proof.
  apply (proj1 server_eviction_oldest_first_to_half 0 (translateStoreOf 501)).
  - unfold wf. apply (bool_decide_unpack _). vm_compute. exact I.
  - vm_compute. lia.
Defined.

(** ** getKuroshiro in the translate route *)

Module TranslateKuroshiroFacts.
Import TranslateRoute.

Lemma kstep_shape k ev : shape k → shape (kstep k ev).
Proof.
  intros Hk. destruct Hk as [|ph c Hph Himp Hini Hc|].
  - destruct ev as [|[|p] [e|]|[|p] [e|]]; cbn; constructor; (done || lia).
  - destruct ev as [|[|p] [e|]|[|p] [e|]]; cbn; try (constructor; (done || lia));
      destruct ph; cbn;
      try specialize (Himp eq_refl); try specialize (Hini eq_refl); subst;
      constructor; (done || lia).
  - destruct ev as [|[|p] [e|]|[|p] [e|]]; cbn; constructor.
Qed.

Lemma krun_snoc evs ev : krun (evs ++ [ev]) = kstep (krun evs) ev.
Proof. unfold krun. by rewrite foldl_app. Qed.

Lemma krun_shape evs : shape (krun evs).
Proof.
  induction evs as [|ev evs IH] using rev_ind; [constructor |].
  rewrite krun_snoc. by apply kstep_shape.
Qed.

(** X15: while a run is in progress a call is handed that run and starts nothing:
    in every reachable state. *)
Theorem translate_getKuroshiro_coalesces evs p :
  inProgress (krun evs) p →
  getKuroshiro (krun evs) = (Awaiting p, krun evs)
  ∧ ∀ q, inProgress (krun evs) q → q = p.
Proof.
  intros Hp. pose proof (krun_shape evs) as Hs. unfold inProgress in *.
  destruct Hs as [|ph c Hph Himp Hini Hc|].
  - destruct p; destruct Hp as [Hp|Hp]; discriminate Hp.
  - assert (p = 0%nat) as ->.
    { destruct p as [|p]; [done |]. destruct Hp as [Hp|Hp]; discriminate Hp. }
    split; [done |]. intros [|q] [Hq|Hq]; try done; discriminate Hq.
  - destruct p as [|p]; destruct Hp as [Hp|Hp]; discriminate Hp.
Qed.

(** X16: the construction code of the translate route is entered at most once in
    the life of the process, and [new Kuroshiro()] evaluated at most once. *)
Theorem translate_getKuroshiro_single_attempt evs :
  (attempts (krun evs) ≤ 1)%nat ∧ (constructed (krun evs) ≤ 1)%nat.
Proof.
  destruct (krun_shape evs); cbn; lia.
Qed.

(** A state whose only run was rejected does not move any more. *)
Lemma rejected_is_stuck e c ev :
  let k := {| kuroshiroInstance := None; kuroshiroInitPromise := Some 0%nat;
              runs := [Rejected e]; constructed := c |} in
  kstep k ev = k.
Proof. destruct ev as [|[|p] [e'|]|[|p] [e'|]]; reflexivity. Qed.

Lemma rejected_is_stuck_run e c evs :
  let k := {| kuroshiroInstance := None; kuroshiroInitPromise := Some 0%nat;
              runs := [Rejected e]; constructed := c |} in
  foldl kstep k evs = k.
Proof.
  intros k. induction evs as [|ev evs IH]; [done |].
  simpl. unfold k at 1. rewrite rejected_is_stuck. exact IH.
Qed.

(** C5: construction fails on the first call, at the imports or at init.
    The closure leaves [kuroshiroInitPromise] set to its rejected promise:
    whatever happens afterwards, every later call of getKuroshiro is handed
    that same rejected run 0 and no second attempt is ever started. *)
Theorem translate_getKuroshiro_failure_never_retried (e : exn) (later : list kevent) :
  let afterImportFailure := krun ([KCall; KImportsDone 0 (Some e)] ++ later) in
  let afterInitFailure := krun ([KCall; KImportsDone 0 None; KInitDone 0 (Some e)] ++ later) in
  kuroshiroInitPromise afterImportFailure = Some 0%nat
  ∧ runs afterImportFailure = [Rejected e]
  ∧ getKuroshiro afterImportFailure = (Awaiting 0%nat, afterImportFailure)
  ∧ attempts afterImportFailure = 1%nat
  ∧ kuroshiroInitPromise afterInitFailure = Some 0%nat
  ∧ runs afterInitFailure = [Rejected e]
  ∧ getKuroshiro afterInitFailure = (Awaiting 0%nat, afterInitFailure)
  ∧ attempts afterInitFailure = 1%nat.
Proof.
  unfold krun. rewrite !foldl_app. cbn [foldl kstep getKuroshiro importsDone initDone
    noKuroshiro kuroshiroInstance kuroshiroInitPromise runs constructed snd fst
    List.length app lookup list_lookup insert list_insert].
  cbn. rewrite !rejected_is_stuck_run. cbn. done.
Qed.

End TranslateKuroshiroFacts.

(** ** getKuroshiro in the analyze route *)

Module AnalyzeKuroshiroFacts.
Import AnalyzeRoute.

(** Until an instance is stored, every call starts a run of its own. *)
Lemma analyze_getKuroshiro_starts_a_run k :
  kuroshiroInstance k = None →
  (getKuroshiro k).1 = Awaiting (attempts k)
  ∧ attempts (getKuroshiro k).2 = S (attempts k).
Proof.
  intros Hnone. unfold getKuroshiro, attempts. rewrite Hnone. cbn.
  split; [done |]. rewrite length_app. cbn. lia.
Qed.

(** C1: two analyze requests reach getKuroshiro before the instance exists.
    Each passes the test of [kuroshiroInstance], awaits the imports on a run
    of its own and evaluates [new Kuroshiro()]: the analyzer is constructed
    twice, and the instance the first run stored is replaced by the second. *)
Theorem analyze_getKuroshiro_concurrent_calls_construct_twice :
  let first := getKuroshiro noKuroshiro in
  let second := getKuroshiro first.2 in
  let imported := krun [KCall; KCall; KImportsDone 0 None; KImportsDone 1 None] in
  let finished := kstep (kstep imported (KInitDone 0 None)) (KInitDone 1 None) in
  first.1 = Awaiting 0%nat
  ∧ second.1 = Awaiting 1%nat
  ∧ attempts second.2 = 2%nat
  ∧ constructed imported = 2%nat
  ∧ kuroshiroInstance (kstep imported (KInitDone 0 None)) = Some 0%nat
  ∧ kuroshiroInstance finished = Some 1%nat
  ∧ constructed finished = 2%nat.
Proof. cbn. done. Qed.

End AnalyzeKuroshiroFacts.

(** ** The request handlers *)

Section HandlerFacts.
Variable createRateLimitHeaders : RateLimitResult → Headers.

Lemma strlen_0 (s : jsstring) : (strlen s =? 0) = true ↔ s = [].
Proof.
  unfold strlen. destruct s; cbn; [done |]. split; [| done].
  intros H. apply Z.eqb_eq in H. lia.
Qed.

Lemma strlen_0_false (s : jsstring) : (strlen s =? 0) = false ↔ s ≠ [].
Proof. rewrite <-strlen_0. by destruct (strlen s =? 0). Qed.

Lemma arrayIncludes_valid v :
  TranslateRoute.arrayIncludes TranslateRoute.validLanguages v = false
  ↔ v ≠ VString (lit "en") ∧ v ≠ VString (lit "ja").
Proof.
  unfold TranslateRoute.arrayIncludes, TranslateRoute.validLanguages. cbn [existsb].
  destruct v; cbn [strict_eq_str]; try (split; [done | done]).
  rewrite !orb_false_r, orb_false_iff, !bool_decide_eq_false. split.
  - intros [H1 H2]. split; congruence.
  - intros [H1 H2]. split; congruence.
Qed.

(** Response.json either builds the response or throws, and what it throws
    the catch clause of the translate route answers with 500 API_ERROR: the
    message of its TypeError does not mention fetch. *)
Lemma responseJson_cases code message status :
  (TranslateRoute.responseJson code message status
   = Returns (TranslateRoute.errorResponse code message status)
   ∧ 200 ≤ status ≤ 599 ∧ status ≠ 204 ∧ status ≠ 205 ∧ status ≠ 304)
  ∨ (∃ e, TranslateRoute.responseJson code message status = Throws e
          ∧ TranslateRoute.onError e
            = TranslateRoute.errorResponse TranslateRoute.API_ERROR
                (lit "Translation service is temporarily unavailable.") 500
          ∧ (status < 200 ∨ 599 < status ∨ status = 204 ∨ status = 205 ∨ status = 304)).
Proof.
  unfold TranslateRoute.responseJson, TranslateRoute.nullBodyStatus.
  destruct (Z.ltb_spec status 200); [right; exists OtherError; split_and!; [done | done | lia] |].
  destruct (Z.gtb_spec status 599); [right; exists OtherError; split_and!; [done | done | lia] |].
  cbn [orb].
  destruct (Z.eqb_spec status 204) as [->|];
    [right; eexists; split_and!; [done | by vm_compute | lia] |].
  destruct (Z.eqb_spec status 205) as [->|];
    [right; eexists; split_and!; [done | by vm_compute | lia] |].
  destruct (Z.eqb_spec status 304) as [->|];
    [right; eexists; split_and!; [done | by vm_compute | lia] |].
  left. cbn [orb]. split_and!; (done || lia).
Qed.

(** A body that is turned down is answered 400 INVALID_INPUT by handleBody,
    which touches nothing. *)
Lemma translate_handleBody_invalid env st b :
  invalidTranslateBody b →
  ∃ r, TranslateRoute.handleBody createRateLimitHeaders env st b = (r, [], st)
       ∧ isInvalidInput r.
Proof.
  unfold invalidTranslateBody, TranslateRoute.handleBody, isInvalidInput.
  destruct (TranslateRoute.text b) as [| | | |t|] eqn:Ht; intros Hinv;
    try (eexists; split; [reflexivity | split; [done | by eexists]]).
  cbn [truthy]. destruct (strlen t =? 0) eqn:E0; cbn [negb];
    [eexists; split; [reflexivity | split; [done | by eexists]] |].
  destruct (strlen (trim t) =? 0) eqn:E1;
    [eexists; split; [reflexivity | split; [done | by eexists]] |].
  destruct (strlen t >? 5000) eqn:E2;
    [eexists; split; [reflexivity | split; [done | by eexists]] |].
  apply strlen_0_false in E1.
  assert (¬ 5000 < strlen t) as Hlen by (intros ?; rewrite Z.gtb_ltb in E2; lia).
  destruct Hinv as [?|[?|Hlang]]; [done | done |].
  assert (negb (TranslateRoute.arrayIncludes TranslateRoute.validLanguages
                  (TranslateRoute.sourceLanguage b))
          || negb (TranslateRoute.arrayIncludes TranslateRoute.validLanguages
                     (TranslateRoute.targetLanguage b)) = true) as ->.
  { apply orb_true_iff. destruct Hlang as [H|H]; [left | right];
      apply negb_true_iff, arrayIncludes_valid; exact H. }
  eexists; split; [reflexivity | split; [done | by eexists]].
Qed.

Lemma analyze_handleBody_invalid env st v :
  invalidAnalyzeText v →
  ∃ message,
    AnalyzeRoute.handleBody createRateLimitHeaders env st v
    = (AnalyzeRoute.json (AnalyzeRoute.ErrorBody message) 400 [], [], st).
Proof.
  unfold invalidAnalyzeText, AnalyzeRoute.handleBody.
  destruct v as [| | | |t|]; intros Hinv; try (eexists; reflexivity).
  cbn [truthy]. destruct (strlen t =? 0) eqn:E0; cbn [negb orb]; [eexists; reflexivity |].
  destruct (strlen (trim t) =? 0) eqn:E1; [eexists; reflexivity |].
  destruct (strlen t >? 5000) eqn:E2; [eexists; reflexivity |].
  apply strlen_0_false in E1. rewrite Z.gtb_ltb in E2.
  destruct Hinv as [?|?]; [done | lia].
Qed.

Lemma translate_POST_admitted env st b :
  allowed (TranslateRoute.rateLimitResult env) = true →
  TranslateRoute.requestJson env = Returns b →
  TranslateRoute.POST createRateLimitHeaders env st
  = let '(r, effs, st') := TranslateRoute.handleBody createRateLimitHeaders env st b in
    (r, RateLimitCheck (TranslateRoute.clientIP env) :: ReadBody :: effs, st').
Proof. intros Ha Hb. unfold TranslateRoute.POST. by rewrite Ha, Hb. Qed.

Lemma analyze_POST_admitted env st v :
  allowed (AnalyzeRoute.rateLimitResult env) = true →
  AnalyzeRoute.requestJson env = Returns v →
  AnalyzeRoute.POST createRateLimitHeaders env st
  = let '(r, effs, st') := AnalyzeRoute.handleBody createRateLimitHeaders env st v in
    (r, RateLimitCheck (AnalyzeRoute.clientIP env) :: ReadBody :: effs, st').
Proof. intros Ha Hb. unfold AnalyzeRoute.POST. by rewrite Ha, Hb. Qed.

(** The rate limiter is asked first, whatever the request holds. *)
Lemma translate_POST_checks_first env st :
  ∃ rest, (TranslateRoute.POST createRateLimitHeaders env st).1.2
          = RateLimitCheck (TranslateRoute.clientIP env) :: rest.
Proof.
  unfold TranslateRoute.POST. destruct (allowed _); cbn; [| by eexists].
  destruct (TranslateRoute.requestJson env); [| by eexists].
  destruct (TranslateRoute.handleBody _ _ _ _) as [[r effs] st']. by eexists.
Qed.

Lemma analyze_POST_checks_first env st :
  ∃ rest, (AnalyzeRoute.POST createRateLimitHeaders env st).1.2
          = RateLimitCheck (AnalyzeRoute.clientIP env) :: rest.
Proof.
  unfold AnalyzeRoute.POST. destruct (allowed _); cbn; [| by eexists].
  destruct (AnalyzeRoute.requestJson env); [| by eexists].
  destruct (AnalyzeRoute.handleBody _ _ _ _) as [[r effs] st']. by eexists.
Qed.

(** C3, as the routes have it: both handlers ask the rate limiter before
    they read the body, so admission comes before validation for every
    request; a request that is let in and whose body is invalid is answered
    400 before any cache lookup, cache write or cleanup, and leaves the store
    as it was; a request that is denied is answered 429 whatever its body. *)
Theorem validation_after_admission_before_cache :
  (∀ env st,
     (∃ rest, (TranslateRoute.POST createRateLimitHeaders env st).1.2
              = RateLimitCheck (TranslateRoute.clientIP env) :: rest)
     ∧ (∀ b, allowed (TranslateRoute.rateLimitResult env) = true →
             TranslateRoute.requestJson env = Returns b →
             invalidTranslateBody b →
             ∃ r, TranslateRoute.POST createRateLimitHeaders env st
                  = (r, [RateLimitCheck (TranslateRoute.clientIP env); ReadBody], st)
                  ∧ isInvalidInput r)
     ∧ (allowed (TranslateRoute.rateLimitResult env) = false →
        TranslateRoute.r_status (TranslateRoute.POST createRateLimitHeaders env st).1.1 = 429))
  ∧ (∀ env st,
     (∃ rest, (AnalyzeRoute.POST createRateLimitHeaders env st).1.2
              = RateLimitCheck (AnalyzeRoute.clientIP env) :: rest)
     ∧ (∀ v, allowed (AnalyzeRoute.rateLimitResult env) = true →
             AnalyzeRoute.requestJson env = Returns v →
             invalidAnalyzeText v →
             ∃ message,
               AnalyzeRoute.POST createRateLimitHeaders env st
               = (AnalyzeRoute.json (AnalyzeRoute.ErrorBody message) 400 [],
                  [RateLimitCheck (AnalyzeRoute.clientIP env); ReadBody], st))
     ∧ (allowed (AnalyzeRoute.rateLimitResult env) = false →
        AnalyzeRoute.r_status (AnalyzeRoute.POST createRateLimitHeaders env st).1.1 = 429)).
Proof.
  split; intros env st; split_and!.
  - apply translate_POST_checks_first.
  - intros b Ha Hb Hinv. rewrite (translate_POST_admitted env st b Ha Hb).
    destruct (translate_handleBody_invalid env st b Hinv) as (r & -> & Hr). eauto.
  - intros Hd. unfold TranslateRoute.POST. by rewrite Hd.
  - apply analyze_POST_checks_first.
  - intros v Ha Hb Hinv. rewrite (analyze_POST_admitted env st v Ha Hb).
    destruct (analyze_handleBody_invalid env st v Hinv) as (m & ->). eauto.
  - intros Hd. unfold AnalyzeRoute.POST. by rewrite Hd.
Qed.

Lemma rateLimitMessage_translate_denial r1 r2 :
  TranslateRoute.rateLimitMessage r1 = TranslateRoute.rateLimitMessage r2 →
  denialOf r1 = denialOf r2.
Proof.
  unfold TranslateRoute.rateLimitMessage, denialOf. intros H.
  apply (f_equal head) in H. revert H.
  repeat match goal with
         | |- context [strict_eq_str ?a ?b] => destruct (strict_eq_str a b)
         end; vm_compute; congruence.
Qed.

Lemma rateLimitMessage_analyze_denial r1 r2 :
  AnalyzeRoute.rateLimitMessage r1 = AnalyzeRoute.rateLimitMessage r2 →
  denialOf r1 = denialOf r2.
Proof.
  unfold AnalyzeRoute.rateLimitMessage, denialOf. intros H.
  apply (f_equal head) in H. revert H.
  repeat match goal with
         | |- context [strict_eq_str ?a ?b] => destruct (strict_eq_str a b)
         end; vm_compute; congruence.
Qed.

(** C6: a request the rate limiter denies is answered with status 429, the
    code RATE_LIMIT, the limiter's retryAfter and the rate-limit headers; the
    message tells daily quota, global limit and per-client throttling apart;
    the handler does nothing else: it reads no body, makes no external call
    and leaves the cache as it was. *)
Theorem denied_request_answered_429 :
  (∀ env st,
     allowed (TranslateRoute.rateLimitResult env) = false →
     let rl := TranslateRoute.rateLimitResult env in
     TranslateRoute.POST createRateLimitHeaders env st
     = ({| TranslateRoute.r_body :=
             TranslateRoute.ErrorBody TranslateRoute.RATE_LIMIT
               (TranslateRoute.rateLimitMessage rl) 429 (Some (retryAfter rl));
           TranslateRoute.r_status := 429;
           TranslateRoute.r_headers := createRateLimitHeaders rl |},
        [RateLimitCheck (TranslateRoute.clientIP env)], st))
  ∧ (∀ env st,
     allowed (AnalyzeRoute.rateLimitResult env) = false →
     let rl := AnalyzeRoute.rateLimitResult env in
     AnalyzeRoute.POST createRateLimitHeaders env st
     = ({| AnalyzeRoute.r_body :=
             AnalyzeRoute.RateLimitBody (AnalyzeRoute.rateLimitMessage rl)
               (lit "RATE_LIMIT") (retryAfter rl);
           AnalyzeRoute.r_status := 429;
           AnalyzeRoute.r_headers := createRateLimitHeaders rl |},
        [RateLimitCheck (AnalyzeRoute.clientIP env)], st))
  ∧ (∀ r1 r2,
       TranslateRoute.rateLimitMessage r1 = TranslateRoute.rateLimitMessage r2 →
       denialOf r1 = denialOf r2)
  ∧ (∀ r1 r2,
       AnalyzeRoute.rateLimitMessage r1 = AnalyzeRoute.rateLimitMessage r2 →
       denialOf r1 = denialOf r2).
Proof.
  split_and!.
  - intros env st Hd. unfold TranslateRoute.POST. by rewrite Hd.
  - intros env st Hd. unfold AnalyzeRoute.POST. by rewrite Hd.
  - apply rateLimitMessage_translate_denial.
  - apply rateLimitMessage_analyze_denial.
Qed.

End HandlerFacts.

Lemma validation_after_admission_before_cache_witness :
  (∃ r, TranslateRoute.POST sampleHeaders (translateEnv allowedResult (lit "  ")) emptyTranslateStore
        = (r, [RateLimitCheck (lit "203.0.113.7"); ReadBody], emptyTranslateStore)
        ∧ isInvalidInput r)
  ∧ TranslateRoute.r_status
      (TranslateRoute.POST sampleHeaders (translateEnv deniedResult (lit "  "))
         emptyTranslateStore).1.1 = 429.
Proof.
  split.
  - apply (proj1 (proj2 (proj1 (validation_after_admission_before_cache sampleHeaders)
                           (translateEnv allowedResult (lit "  ")) emptyTranslateStore))
             {| TranslateRoute.text := VString (lit "  ");
                TranslateRoute.sourceLanguage := VString (lit "en");
                TranslateRoute.targetLanguage := VString (lit "ja") |}).
    + reflexivity.
    + reflexivity.
    + left. reflexivity.
  - apply (proj2 (proj2 (proj1 (validation_after_admission_before_cache sampleHeaders)
                           (translateEnv deniedResult (lit "  ")) emptyTranslateStore))).
    reflexivity.
Defined.

(** C3 as the specification words it fails: a request with an empty text
    reaches the rate limiter before anything is validated, and when the
    limiter denies it the answer is the 429, not the validation error. *)
Lemma validation_before_admission_counterexample :
  invalidTranslateBody {| TranslateRoute.text := VString [];
                          TranslateRoute.sourceLanguage := VString (lit "en");
                          TranslateRoute.targetLanguage := VString (lit "ja") |}
  ∧ (TranslateRoute.POST sampleHeaders (translateEnv allowedResult []) emptyTranslateStore).1.2
    = [RateLimitCheck (lit "203.0.113.7"); ReadBody]
  ∧ (TranslateRoute.POST sampleHeaders (translateEnv deniedResult []) emptyTranslateStore).1.2
    = [RateLimitCheck (lit "203.0.113.7")]
  ∧ TranslateRoute.r_status
      (TranslateRoute.POST sampleHeaders (translateEnv deniedResult []) emptyTranslateStore).1.1
    = 429
  ∧ invalidAnalyzeText (VString [])
  ∧ (AnalyzeRoute.POST sampleHeaders (analyzeEnv deniedResult []) emptyAnalyzeStore).1.2
    = [RateLimitCheck (lit "203.0.113.7")]
  ∧ AnalyzeRoute.r_status
      (AnalyzeRoute.POST sampleHeaders (analyzeEnv deniedResult []) emptyAnalyzeStore).1.1
    = 429.
Proof. split_and!; try reflexivity; left; reflexivity. Qed.

Lemma denied_request_answered_429_witness :
  TranslateRoute.POST sampleHeaders (translateEnv deniedResult (lit "hello")) emptyTranslateStore
  = ({| TranslateRoute.r_body :=
          TranslateRoute.ErrorBody TranslateRoute.RATE_LIMIT
            (lit "Daily translation limit reached. Please try again tomorrow.")
            429 (Some (VNumber 3600));
        TranslateRoute.r_status := 429;
        TranslateRoute.r_headers := [(lit "Retry-After", lit "3600")] |},
     [RateLimitCheck (lit "203.0.113.7")], emptyTranslateStore).
Proof.
  apply (proj1 (denied_request_answered_429 sampleHeaders)
           (translateEnv deniedResult (lit "hello")) emptyTranslateStore).
  reflexivity.
Defined.

(** ** Input limits of translate, on the server and in the client *)

Lemma translate_handleBody_5000 h env st b t :
  TranslateRoute.text b = VString t →
  strlen t = 5000 → trim t ≠ [] →
  validLanguage (TranslateRoute.sourceLanguage b) →
  validLanguage (TranslateRoute.targetLanguage b) →
  ∃ r effs st',
    TranslateRoute.handleBody h env st b
    = (r, CacheGet (TranslateRoute.getCacheKey (trim t)
                      (toString (TranslateRoute.sourceLanguage b))
                      (toString (TranslateRoute.targetLanguage b))) :: effs, st').
Proof.
  intros Ht Hlen Htrim Hs Hg. unfold TranslateRoute.handleBody. rewrite Ht.
  cbn [truthy]. rewrite Hlen. cbn [Z.eqb negb].
  apply strlen_0_false in Htrim. rewrite Htrim. cbn [Z.gtb Z.compare Pos.compare Pos.compare_cont].
  change (5000 >? 5000) with false. cbv iota.
  assert (TranslateRoute.arrayIncludes TranslateRoute.validLanguages
            (TranslateRoute.sourceLanguage b) = true) as ->
    by (destruct Hs as [->| ->]; reflexivity).
  assert (TranslateRoute.arrayIncludes TranslateRoute.validLanguages
            (TranslateRoute.targetLanguage b) = true) as ->
    by (destruct Hg as [->| ->]; reflexivity).
  cbn [negb orb]. cbv zeta.
  destruct (TranslateRoute.callGoogle _ _ _ _ _ _) as [[r effs] st'].
  destruct (mget _ _) as [cached|]; [destruct (_ <? _) |]; eauto.
Qed.

(** Two bodies that differ in a literal: compare the literals only. *)
Ltac literal_mismatch :=
  let H := fresh "H" in
  intros H;
  first
    [ discriminate H
    | injection H; clear H;
      repeat (let E := fresh "E" in intros E; try (vm_compute in E; discriminate E)) ].

Ltac passed_on :=
  match goal with
  | |- context [TranslateRoute.responseJson ?c ?m ?s] =>
    destruct (responseJson_cases c m s) as [[-> _]|(? & -> & -> & _)]
  end.

Lemma translate_onError_not_length e : ¬ isLengthError (TranslateRoute.onError e).
Proof.
  unfold isLengthError, TranslateRoute.onError.
  destruct e as [m|]; [destruct (includes m (lit "fetch")) |];
    cbn [TranslateRoute.errorResponse TranslateRoute.json TranslateRoute.r_body];
    literal_mismatch.
Qed.

Lemma translate_callGoogle_not_length h env st t source target key :
  ¬ isLengthError (TranslateRoute.callGoogle h env st t source target key).1.1.
Proof.
  unfold TranslateRoute.callGoogle.
  destruct (TranslateRoute.apiKey env) as [[|c k]|].
  - unfold isLengthError. cbn [fst TranslateRoute.errorResponse TranslateRoute.json
      TranslateRoute.r_body]. literal_mismatch.
  - destruct (TranslateRoute.googleFetch env) as [g|e];
      [| cbn [fst]; apply translate_onError_not_length].
    destruct (_ =? _);
      [unfold isLengthError; cbn [fst TranslateRoute.errorResponse TranslateRoute.json
         TranslateRoute.r_body]; literal_mismatch |].
    destruct (_ || _);
      [unfold isLengthError; cbn [fst TranslateRoute.errorResponse TranslateRoute.json
         TranslateRoute.r_body]; literal_mismatch |].
    destruct (negb _);
      [passed_on; unfold isLengthError; cbn [fst TranslateRoute.errorResponse TranslateRoute.json
         TranslateRoute.r_body]; literal_mismatch |].
    destruct (TranslateRoute.g_json g) as [[|translation l]|e];
      [cbn [fst]; apply translate_onError_not_length | |
       cbn [fst]; apply translate_onError_not_length].
    destruct (bool_decide _); [destruct (TranslateRoute.generateRomanization _ _) |];
      unfold isLengthError; cbn [fst TranslateRoute.json TranslateRoute.r_body];
      discriminate.
  - unfold isLengthError. cbn [fst TranslateRoute.errorResponse TranslateRoute.json
      TranslateRoute.r_body]. literal_mismatch.
Qed.

Lemma translate_handleBody_not_length h env st b t :
  TranslateRoute.text b = VString t → strlen t ≤ 5000 →
  ¬ isLengthError (TranslateRoute.handleBody h env st b).1.1.
Proof.
  intros Ht Hlen. unfold TranslateRoute.handleBody. rewrite Ht.
  destruct (negb _);
    [unfold isLengthError; cbn [fst TranslateRoute.invalidInput TranslateRoute.json
       TranslateRoute.r_body]; literal_mismatch |].
  destruct (_ =? _);
    [unfold isLengthError; cbn [fst TranslateRoute.invalidInput TranslateRoute.json
       TranslateRoute.r_body]; literal_mismatch |].
  destruct (Z.gtb_spec (strlen t) 5000) as [?|_]; [lia |].
  destruct (_ || _);
    [unfold isLengthError; cbn [fst TranslateRoute.invalidInput TranslateRoute.json
       TranslateRoute.r_body]; literal_mismatch |].
  cbv zeta.
  pose proof (translate_callGoogle_not_length h env st t
                (toString (TranslateRoute.sourceLanguage b))
                (toString (TranslateRoute.targetLanguage b))
                (TranslateRoute.getCacheKey (trim t)
                   (toString (TranslateRoute.sourceLanguage b))
                   (toString (TranslateRoute.targetLanguage b)))) as Hg.
  destruct (TranslateRoute.callGoogle _ _ _ _ _ _ _) as [[r effs] st'].
  destruct (mget _ _) as [c|]; [destruct (_ <? _) |]; try exact Hg.
  unfold isLengthError. cbn [fst TranslateRoute.json TranslateRoute.r_body]. discriminate.
Qed.

(** C7, as the code has it: the length and blank-text checks come second.
    On the server, a translate request the rate limiter lets in and whose
    text trims to nothing or has more than 5000 code units is answered
    400 INVALID_INPUT with no external call; one of exactly 5000 code units
    is never answered with the length error, and, when it is not blank and
    its languages are recognised, it passes validation and reaches the cache
    lookup.  In the client, the same holds of a call made while online: it
    throws INVALID_INPUT with status 400 and issues no request; a text of
    exactly 5000 code units never gets the length error and, when it is not
    blank, is not thrown back at all. *)
Theorem admitted_translate_input_limits :
  (∀ h env st b t,
     allowed (TranslateRoute.rateLimitResult env) = true →
     TranslateRoute.requestJson env = Returns b →
     TranslateRoute.text b = VString t →
     (trim t = [] ∨ 5000 < strlen t →
      ∃ r, TranslateRoute.POST h env st
           = (r, [RateLimitCheck (TranslateRoute.clientIP env); ReadBody], st)
           ∧ isInvalidInput r)
     ∧ (strlen t = 5000 → ¬ isLengthError (TranslateRoute.POST h env st).1.1)
     ∧ (strlen t = 5000 → trim t ≠ [] →
        validLanguage (TranslateRoute.sourceLanguage b) →
        validLanguage (TranslateRoute.targetLanguage b) →
        ∃ r effs st' key,
          TranslateRoute.POST h env st
          = (r, RateLimitCheck (TranslateRoute.clientIP env) :: ReadBody :: CacheGet key :: effs,
             st')))
  ∧ (∀ navigator now t source target s,
     Client.isOnline navigator = true →
     (trim t = [] ∨ 5000 < strlen t →
      ∃ e, Client.translate navigator now t source target s = (Client.Throw e, [], s)
           ∧ Client.code e = Client.INVALID_INPUT ∧ Client.status e = 400)
     ∧ (strlen t = 5000 →
        ¬ isClientLengthError (Client.translate navigator now t source target s).1.1)
     ∧ (strlen t = 5000 → trim t ≠ [] →
        ∀ e, (Client.translate navigator now t source target s).1.1 ≠ Client.Throw e)).
Proof.
  split.
  - intros h env st b t Ha Hb Ht. rewrite (translate_POST_admitted h env st b Ha Hb).
    split_and!.
    + intros Hinv.
      destruct (translate_handleBody_invalid h env st b) as (r & -> & Hr); [| eauto].
      unfold invalidTranslateBody. rewrite Ht. tauto.
    + intros Hlen.
      pose proof (translate_handleBody_not_length h env st b t Ht ltac:(lia)) as Hn.
      by destruct (TranslateRoute.handleBody _ _ _ _) as [[r effs] st'].
    + intros Hlen Htrim Hs Hg.
      destruct (translate_handleBody_5000 h env st b t Ht Hlen Htrim Hs Hg)
        as (r & effs & st' & ->). eauto 6.
  - intros navigator now t source target s Hon. unfold Client.translate. rewrite Hon.
    cbn [negb]. split_and!.
    + intros [Htrim|Hlen].
      * assert ((strlen (trim t) =? 0) = true) as -> by (by apply strlen_0).
        rewrite orb_true_r. eauto.
      * destruct ((strlen t =? 0) || (strlen (trim t) =? 0)); [eauto |].
        assert ((strlen t >? 5000) = true) as -> by (rewrite Z.gtb_ltb; by apply Z.ltb_lt).
        eauto.
    + intros Hlen. rewrite Hlen. change (5000 >? 5000) with false.
      unfold isClientLengthError.
      destruct (_ || _); [cbn [fst]; literal_mismatch |].
      cbv zeta. destruct (mget _ _) as [cached|]; [destruct (_ <? _) |];
        try destruct (_ !! _); cbn [fst]; discriminate.
    + intros Hlen Htrim e. rewrite Hlen. apply strlen_0_false in Htrim. rewrite Htrim.
      change (5000 =? 0) with false. change (5000 >? 5000) with false. cbn [orb].
      cbv zeta. destruct (mget _ _) as [cached|]; [destruct (_ <? _) |];
        try destruct (_ !! _); cbn; discriminate.
Qed.

Lemma admitted_translate_input_limits_witness :
  ∃ r, TranslateRoute.POST sampleHeaders
         (translateEnv allowedResult oversizeText) emptyTranslateStore
       = (r, [RateLimitCheck (lit "203.0.113.7"); ReadBody], emptyTranslateStore)
       ∧ isInvalidInput r.
Proof.
  apply (proj1 (proj1 admitted_translate_input_limits sampleHeaders
                  (translateEnv allowedResult oversizeText) emptyTranslateStore
                  {| TranslateRoute.text := VString oversizeText;
                     TranslateRoute.sourceLanguage := VString (lit "en");
                     TranslateRoute.targetLanguage := VString (lit "ja") |}
                  oversizeText eq_refl eq_refl eq_refl)).
  right. vm_compute. reflexivity.
Defined.

(** C7 as the specification words it fails on an empty text: offline, the
    client throws OFFLINE with status 0; denied by the rate limiter, the
    server answers 429. *)
Lemma empty_text_not_always_invalid_input_counterexample :
  Client.translate (Some false) 0 [] Client.en Client.ja Client.initial
  = (Client.Throw {| Client.code := Client.OFFLINE;
                     Client.message := lit "You are offline. Please check your internet connection.";
                     Client.status := 0 |}, [], Client.initial)
  ∧ TranslateRoute.r_status
      (TranslateRoute.POST sampleHeaders (translateEnv deniedResult []) emptyTranslateStore).1.1
    = 429.
Proof. split; reflexivity. Qed.

(** ** The offline check of the client *)

(** C10: when the browser reports offline, translate throws OFFLINE with
    status 0 whatever the text, the languages, the cache and the pending
    requests are: nothing is validated, looked up, joined or sent, and the
    state is left as it was.  An empty text yields OFFLINE too. *)
Theorem client_offline_check_comes_first navigator now text source target s :
  Client.isOnline navigator = false →
  Client.translate navigator now text source target s
  = (Client.Throw {| Client.code := Client.OFFLINE;
                     Client.message := lit "You are offline. Please check your internet connection.";
                     Client.status := 0 |}, [], s).
Proof. intros Hoff. unfold Client.translate. rewrite Hoff. reflexivity. Qed.

Lemma client_offline_check_comes_first_witness :
  Client.translate (Some false) 0 [] Client.en Client.ja Client.initial
  = (Client.Throw {| Client.code := Client.OFFLINE;
                     Client.message := lit "You are offline. Please check your internet connection.";
                     Client.status := 0 |}, [], Client.initial).
Proof.
  apply (client_offline_check_comes_first (Some false) 0 [] Client.en Client.ja Client.initial).
  reflexivity.
Defined.

(** ** Cache keys *)

Lemma getCacheKey_inj t1 t2 source target :
  TranslateRoute.getCacheKey t1 source target = TranslateRoute.getCacheKey t2 source target
  ↔ t1 = t2.
Proof.
  unfold TranslateRoute.getCacheKey. split; [| by intros ->].
  intros H. by repeat apply app_inv_head in H.
Qed.

Section CacheLookups.
Variable h : RateLimitResult → Headers.

Lemma translate_handleBody_lookup env st b t :
  TranslateRoute.text b = VString t → trim t ≠ [] → strlen t ≤ 5000 →
  validLanguage (TranslateRoute.sourceLanguage b) →
  validLanguage (TranslateRoute.targetLanguage b) →
  TranslateRoute.handleBody h env st b
  = let key := requestKey b t in
    let miss :=
      let '(r, effs, st') :=
        TranslateRoute.callGoogle h env st t (toString (TranslateRoute.sourceLanguage b))
          (toString (TranslateRoute.targetLanguage b)) key in
      (r, CacheGet key :: effs, st') in
    match mget key (ServerCache.cache st) with
    | Some cached =>
      if TranslateRoute.nowLookup env - TranslateRoute.timestamp cached <? TranslateRoute.CACHE_TTL
      then (TranslateRoute.json
              (TranslateRoute.TranslationBody (TranslateRoute.translatedText cached) None
                 (TranslateRoute.romanization cached) true)
              200 (TranslateRoute.successHeaders h (TranslateRoute.rateLimitResult env)),
            [CacheGet key], st)
      else miss
    | None => miss
    end.
Proof.
  intros Ht Htrim Hlen Hs Hg. unfold TranslateRoute.handleBody. rewrite Ht. cbn [truthy].
  assert ((strlen t =? 0) = false) as -> by (apply strlen_0_false; by intros ->).
  apply strlen_0_false in Htrim. rewrite Htrim. cbn [negb].
  assert ((strlen t >? 5000) = false) as -> by (rewrite Z.gtb_ltb; by apply Z.ltb_ge).
  assert (TranslateRoute.arrayIncludes TranslateRoute.validLanguages
            (TranslateRoute.sourceLanguage b) = true) as ->
    by (destruct Hs as [->| ->]; reflexivity).
  assert (TranslateRoute.arrayIncludes TranslateRoute.validLanguages
            (TranslateRoute.targetLanguage b) = true) as ->
    by (destruct Hg as [->| ->]; reflexivity).
  reflexivity.
Qed.

Lemma translate_POST_lookup env st b t :
  reachesLookup env b t →
  TranslateRoute.POST h env st
  = let '(r, effs, st') := TranslateRoute.handleBody h env st b in
    (r, RateLimitCheck (TranslateRoute.clientIP env) :: ReadBody :: effs, st').
Proof. intros (Ha & Hb & _). by apply translate_POST_admitted. Qed.

Lemma translate_POST_hit env st b t cached :
  reachesLookup env b t →
  mget (requestKey b t) (ServerCache.cache st) = Some cached →
  TranslateRoute.nowLookup env - TranslateRoute.timestamp cached < TranslateRoute.CACHE_TTL →
  TranslateRoute.POST h env st
  = (TranslateRoute.json
       (TranslateRoute.TranslationBody (TranslateRoute.translatedText cached) None
          (TranslateRoute.romanization cached) true)
       200 (TranslateRoute.successHeaders h (TranslateRoute.rateLimitResult env)),
     [RateLimitCheck (TranslateRoute.clientIP env); ReadBody; CacheGet (requestKey b t)], st).
Proof.
  intros Hreach Hget Hage. rewrite (translate_POST_lookup env st b t Hreach).
  destruct Hreach as (_ & _ & Ht & Htrim & Hlen & Hs & Hg).
  rewrite (translate_handleBody_lookup env st b t Ht Htrim Hlen Hs Hg). cbv zeta.
  rewrite Hget. by apply Z.ltb_lt in Hage as ->.
Qed.

Lemma analyze_POST_lookup env st t :
  reachesAnalysisLookup env t →
  AnalyzeRoute.POST h env st
  = let miss :=
      let '(r, effs, st') := AnalyzeRoute.analyze h env st t in
      (r, RateLimitCheck (AnalyzeRoute.clientIP env) :: ReadBody :: CacheGet t :: effs, st') in
    match mget t (ServerCache.cache st) with
    | Some cached =>
      if AnalyzeRoute.nowLookup env - AnalyzeRoute.timestamp cached <? AnalyzeRoute.CACHE_TTL
      then (AnalyzeRoute.json (AnalyzeRoute.TokensBody (AnalyzeRoute.tokens cached) true) 200
              (copyInto (h (AnalyzeRoute.rateLimitResult env)) []),
            [RateLimitCheck (AnalyzeRoute.clientIP env); ReadBody; CacheGet t], st)
      else miss
    | None => miss
    end.
Proof.
  intros (Ha & Hb & Htrim & Hlen). rewrite (analyze_POST_admitted h env st _ Ha Hb).
  unfold AnalyzeRoute.handleBody, AnalyzeRoute.cacheKey. cbn [truthy].
  assert ((strlen t =? 0) = false) as -> by (apply strlen_0_false; by intros ->).
  apply strlen_0_false in Htrim. rewrite Htrim. cbn [negb orb].
  assert ((strlen t >? 5000) = false) as -> by (rewrite Z.gtb_ltb; by apply Z.ltb_ge).
  cbv zeta. destruct (AnalyzeRoute.analyze h env st t) as [[r effs] st'].
  destruct (mget _ _) as [cached|]; [destruct (_ <? _) |]; reflexivity.
Qed.

Lemma analyze_POST_hit env st t cached :
  reachesAnalysisLookup env t →
  mget t (ServerCache.cache st) = Some cached →
  AnalyzeRoute.nowLookup env - AnalyzeRoute.timestamp cached < AnalyzeRoute.CACHE_TTL →
  AnalyzeRoute.POST h env st
  = (AnalyzeRoute.json (AnalyzeRoute.TokensBody (AnalyzeRoute.tokens cached) true) 200
       (copyInto (h (AnalyzeRoute.rateLimitResult env)) []),
     [RateLimitCheck (AnalyzeRoute.clientIP env); ReadBody; CacheGet t], st).
Proof.
  intros Hreach Hget Hage. rewrite (analyze_POST_lookup env st t Hreach). cbv zeta.
  rewrite Hget. by apply Z.ltb_lt in Hage as ->.
Qed.

Lemma translate_looks_up env b t :
  reachesLookup env b t → translateLooksUp h env (requestKey b t).
Proof.
  intros Hreach st. split.
  - rewrite (translate_POST_lookup env st b t Hreach).
    destruct Hreach as (_ & _ & Ht & Htrim & Hlen & Hs & Hg).
    rewrite (translate_handleBody_lookup env st b t Ht Htrim Hlen Hs Hg). cbv zeta.
    destruct (TranslateRoute.callGoogle _ _ _ _ _ _ _) as [[r effs] st'].
    destruct (mget _ _) as [cached|]; [destruct (_ <? _) |]; eexists; reflexivity.
  - intros cached Hget Hage.
    by rewrite (translate_POST_hit env st b t cached Hreach Hget Hage).
Qed.

Lemma analyze_looks_up env t :
  reachesAnalysisLookup env t → analyzeLooksUp h env t.
Proof.
  intros Hreach st. split.
  - rewrite (analyze_POST_lookup env st t Hreach). cbv zeta.
    destruct (AnalyzeRoute.analyze _ _ _ _) as [[r effs] st'].
    destruct (mget _ _) as [cached|]; [destruct (_ <? _) |]; eexists; reflexivity.
  - intros cached Hget Hage.
    by rewrite (analyze_POST_hit env st t cached Hreach Hget Hage).
Qed.

End CacheLookups.

(** C9, as the code has it.  A translate request that gets to the lookup
    reads translationCache under one key, whatever the store; for one source
    and one target language the keys of two such requests are the same
    exactly when their texts are equal after trimming, so two texts that
    differ in surrounding whitespace only are answered from the same entry.
    The client forms its key from the trimmed text as well.  An analyze
    request reads analysisCache under a key that is shared by two requests
    exactly when their texts are equal as they came, surrounding whitespace
    included. *)
Theorem cache_key_equality :
  (∀ h env1 env2 b1 b2 t1 t2,
     reachesLookup env1 b1 t1 → reachesLookup env2 b2 t2 →
     TranslateRoute.sourceLanguage b1 = TranslateRoute.sourceLanguage b2 →
     TranslateRoute.targetLanguage b1 = TranslateRoute.targetLanguage b2 →
     ∃ k1 k2,
       translateLooksUp h env1 k1 ∧ translateLooksUp h env2 k2
       ∧ (k1 = k2 ↔ trim t1 = trim t2))
  ∧ (∀ t1 t2 source target,
     Client.getClientCacheKey t1 source target = Client.getClientCacheKey t2 source target
     ↔ trim t1 = trim t2)
  ∧ (∀ h env1 env2 t1 t2,
     reachesAnalysisLookup env1 t1 → reachesAnalysisLookup env2 t2 →
     ∃ k1 k2,
       analyzeLooksUp h env1 k1 ∧ analyzeLooksUp h env2 k2
       ∧ (k1 = k2 ↔ t1 = t2)).
Proof.
  split_and!.
  - intros h env1 env2 b1 b2 t1 t2 H1 H2 Hs Ht.
    exists (requestKey b1 t1), (requestKey b2 t2).
    split_and!; [by apply translate_looks_up | by apply translate_looks_up |].
    unfold requestKey. rewrite Hs, Ht. apply getCacheKey_inj.
  - intros t1 t2 source target. unfold Client.getClientCacheKey. split; [| by intros ->].
    intros H. by repeat apply app_inv_head in H.
  - intros h env1 env2 t1 t2 H1 H2. exists t1, t2.
    split_and!; [by apply analyze_looks_up | by apply analyze_looks_up | done].
Qed.

Lemma helloEnv_reaches_lookup :
  reachesLookup (translateEnv allowedResult (lit "hello")) helloBody (lit "hello").
Proof.
  unfold reachesLookup. split_and!; try reflexivity;
    [discriminate | vm_compute; discriminate | by left | by right].
Qed.

Lemma paddedHelloEnv_reaches_lookup key convert :
  reachesLookup (paddedHelloEnv key convert) paddedHelloBody (lit " hello ").
Proof.
  unfold reachesLookup. split_and!; try reflexivity;
    [discriminate | vm_compute; discriminate | by left | by right].
Qed.

Lemma analyzeEnv_reaches_lookup :
  reachesAnalysisLookup (analyzeEnv allowedResult [97%N]) [97%N].
Proof.
  unfold reachesAnalysisLookup. split_and!; try reflexivity;
    [discriminate | vm_compute; discriminate].
Qed.

Lemma cache_key_equality_witness :
  ∃ k, translateLooksUp sampleHeaders (translateEnv allowedResult (lit "hello")) k
       ∧ translateLooksUp sampleHeaders (paddedHelloEnv None (Throws OtherError)) k.
Proof.
  destruct (proj1 cache_key_equality sampleHeaders
              (translateEnv allowedResult (lit "hello"))
              (paddedHelloEnv None (Throws OtherError))
              helloBody paddedHelloBody (lit "hello") (lit " hello ")
              helloEnv_reaches_lookup (paddedHelloEnv_reaches_lookup _ _) eq_refl eq_refl)
    as (k1 & k2 & H1 & H2 & Hiff).
  exists k2. split; [| exact H2].
  rewrite <-(proj2 Hiff); [exact H1 | vm_compute; reflexivity].
Defined.

(** C9 as the specification words it fails on the analyze route: " a" and
    "a" are equal after trimming, yet they have different keys, and a
    request for " a" misses the fresh entry stored for "a" and runs the
    analyzer, where a request for "a" is served from the cache. *)
Lemma analyze_key_not_trimmed_counterexample :
  trim [32; 97]%N = trim [97]%N
  ∧ AnalyzeRoute.cacheKey [32; 97]%N ≠ AnalyzeRoute.cacheKey [97]%N
  ∧ (AnalyzeRoute.POST sampleHeaders (analyzeEnv allowedResult [97]%N)
       (analyzeStoreWith [97]%N)).1.2
    = [RateLimitCheck (lit "203.0.113.7"); ReadBody; CacheGet [97]%N]
  ∧ (AnalyzeRoute.POST sampleHeaders (analyzeEnv allowedResult [32; 97]%N)
       (analyzeStoreWith [97]%N)).1.2
    = [RateLimitCheck (lit "203.0.113.7"); ReadBody; CacheGet [32; 97]%N;
       KuroshiroParse [32; 97]%N; CacheSet [32; 97]%N; CacheCleanup].
Proof. split_and!; try reflexivity. discriminate. Qed.

(** ** The pending requests of the client *)

Module ClientFacts.
Import Client.

Lemma initial_consistent : consistent initial.
Proof. split; cbn; intros *; rewrite ?lookup_empty, ?lookup_nil; done. Qed.

Lemma translate_uncached navigator now text source target s :
  isOnline navigator = true → validText text →
  cacheMiss now (getClientCacheKey text source target) s →
  translate navigator now text source target s
  = let cacheKey := getClientCacheKey text source target in
    match pendingRequests s !! cacheKey with
    | Some p => (Await p, [], s)
    | None =>
      (Await (List.length (requests s)), [Fetch text source target],
       {| clientCache := clientCache s;
          pendingRequests := <[cacheKey := List.length (requests s)]> (pendingRequests s);
          requests := requests s
                      ++ [{| req_key := cacheKey; req_state := Pending; req_finalized := false |}] |})
    end.
Proof.
  intros Hon [Htrim Hlen] Hmiss. unfold translate. rewrite Hon. cbn [negb].
  assert ((strlen text =? 0) = false) as ->.
  { apply strlen_0_false. intros ->. by apply Htrim. }
  apply strlen_0_false in Htrim. rewrite Htrim. cbn [orb].
  assert ((strlen text >? 5000) = false) as -> by (rewrite Z.gtb_ltb; by apply Z.ltb_ge).
  cbv zeta. unfold cacheMiss in Hmiss.
  destruct (mget _ _) as [cached|]; [by rewrite Hmiss | done].
Qed.

(** Whatever the arguments, a call leaves the state alone or registers one
    new request under a key that had none. *)
Lemma translate_state navigator now text source target s :
  (translate navigator now text source target s).2 = s
  ∨ ∃ k, pendingRequests s !! k = None
         ∧ (translate navigator now text source target s).2
           = {| clientCache := clientCache s;
                pendingRequests := <[k := List.length (requests s)]> (pendingRequests s);
                requests := requests s
                            ++ [{| req_key := k; req_state := Pending; req_finalized := false |}] |}.
Proof.
  unfold translate. destruct (negb _); [by left |].
  destruct (_ || _); [by left |]. destruct (_ >? _); [by left |]. cbv zeta.
  set (k := getClientCacheKey text source target).
  destruct (pendingRequests s !! k) as [p|] eqn:Hp.
  - destruct (mget _ _) as [c|]; [destruct (_ <? _) |]; by left.
  - destruct (mget _ _) as [c|]; [destruct (_ <? _) |]; [by left | |]; right; exists k; done.
Qed.

Lemma register_consistent s k :
  consistent s → pendingRequests s !! k = None →
  consistent
    {| clientCache := clientCache s;
       pendingRequests := <[k := List.length (requests s)]> (pendingRequests s);
       requests := requests s
                   ++ [{| req_key := k; req_state := Pending; req_finalized := false |}] |}.
Proof.
  intros [Hreg Htr Hfin] Hnone. split; cbn.
  - intros k' p. destruct (decide (k = k')) as [<-|Hne].
    + rewrite lookup_insert_eq. intros [= <-].
      exists {| req_key := k; req_state := Pending; req_finalized := false |}.
      split_and!; [| done | done].
      by rewrite lookup_app_r, Nat.sub_diag.
    + rewrite lookup_insert_ne by done. intros Hp.
      destruct (Hreg k' p Hp) as (r & Hr & Hk & Hf). exists r. split_and!; try done.
      by apply lookup_app_l_Some.
  - intros p r Hr Hf. apply lookup_app_Some in Hr as [Hr|[Hge Hr]].
    + pose proof (Htr p r Hr Hf) as Hp. rewrite lookup_insert_ne; [done |].
      intros ->. congruence.
    + apply list_lookup_singleton_Some in Hr as [Hz <-]. cbn.
      rewrite lookup_insert_eq. f_equal. lia.
  - intros p r Hr Hf. apply lookup_app_Some in Hr as [Hr|[Hge Hr]]; [by eapply Hfin |].
    apply list_lookup_singleton_Some in Hr as [Hz <-]. done.
Qed.

Lemma translate_consistent navigator now text source target s :
  consistent s → consistent (translate navigator now text source target s).2.
Proof.
  intros Hs. destruct (translate_state navigator now text source target s)
    as [->|(k & Hnone & ->)]; [done | by apply register_consistent].
Qed.

(** Replacing request [p] by one of the same key and the same [finally]
    flag, no longer pending. *)
Lemma settle_consistent p f nowStore nowCleanup s :
  consistent s → consistent (settle p f nowStore nowCleanup s).
Proof.
  intros [Hreg Htr Hfin]. unfold settle.
  destruct (requests s !! p) as [[k st fin]|] eqn:Hp; [| done].
  destruct st; try done.
  assert (p < List.length (requests s))%nat as Hlt by (by eapply lookup_lt_Some).
  destruct (requestResult f) as [resp|err]; split; cbn.
  all: try (intros k' q Hq; destruct (Hreg k' q Hq) as (r & Hr & Hk & Hf);
            destruct (decide (q = p)) as [->|Hne];
            [ rewrite list_lookup_insert_eq by done; eexists; split; [done |]; cbn;
              rewrite Hp in Hr; by injection Hr as <-
            | rewrite list_lookup_insert_ne by done; eauto ]).
  all: try (intros q r Hr Hf; destruct (decide (q = p)) as [->|Hne];
            [ rewrite list_lookup_insert_eq in Hr by done; injection Hr as <-; cbn in *;
              first [ by apply (Htr p _ Hp) | done ]
            | rewrite list_lookup_insert_ne in Hr by done; eauto ]).
Qed.

Lemma finallyBlock_consistent p s : consistent s → consistent (finallyBlock p s).
Proof.
  intros [Hreg Htr Hfin]. unfold finallyBlock.
  destruct (requests s !! p) as [[k st [|]]|] eqn:Hp; try done.
  assert (p < List.length (requests s))%nat as Hlt by (by eapply lookup_lt_Some).
  pose proof (Htr p _ Hp eq_refl) as Hpk. cbn in Hpk.
  assert (consistent
            {| clientCache := clientCache s;
               pendingRequests := delete k (pendingRequests s);
               requests := <[p := {| req_key := k; req_state := st; req_finalized := true |}]>
                             (requests s) |} ∨ st = Pending) as [Hc| ->];
    [| by destruct st | by split].
  assert (st = Pending ∨ st ≠ Pending) as [->|Hst] by (destruct st; auto);
    [by right | left]. split; cbn.
  - intros k' q Hq. apply lookup_delete_Some in Hq as [Hne Hq].
    destruct (Hreg k' q Hq) as (r & Hr & Hk & Hf).
    rewrite list_lookup_insert_ne; [eauto |].
    intros ->. rewrite Hp in Hr. injection Hr as <-. done.
  - intros q r Hr Hf. destruct (decide (q = p)) as [->|Hne].
    + rewrite list_lookup_insert_eq in Hr by done. injection Hr as <-. done.
    + rewrite list_lookup_insert_ne in Hr by done.
      pose proof (Htr q r Hr Hf) as Hq.
      rewrite lookup_delete_ne; [done |]. intros Hk. rewrite <-Hk, Hpk in Hq. congruence.
  - intros q r Hr Hf. destruct (decide (q = p)) as [->|Hne].
    + rewrite list_lookup_insert_eq in Hr by done. injection Hr as <-. done.
    + rewrite list_lookup_insert_ne in Hr by done. by eapply Hfin.
Qed.

Lemma step_consistent s ev : consistent s → consistent (step s ev).
Proof.
  destruct ev; cbn [step];
    [apply translate_consistent | apply settle_consistent | apply finallyBlock_consistent].
Qed.

Lemma run_snoc evs ev : run (evs ++ [ev]) = step (run evs) ev.
Proof. unfold run. by rewrite foldl_app. Qed.

Lemma run_consistent evs : consistent (run evs).
Proof.
  induction evs as [|ev evs IH] using rev_ind; [apply initial_consistent |].
  rewrite run_snoc. by apply step_consistent.
Qed.

Lemma inFlight_registered s p k :
  consistent s → inFlight s p k → pendingRequests s !! k = Some p.
Proof.
  intros Hs (r & Hr & Hk & Hst). rewrite <-Hk. apply (tracked s Hs p r Hr).
  destruct (req_finalized r) eqn:Hf; [| done].
  by destruct (finalized_settled s Hs p r Hr Hf).
Qed.

(** A settled request keeps its outcome: no step changes what it delivers. *)
Lemma step_delivered s ev p o : delivered s p = Some o → delivered (step s ev) p = Some o.
Proof.
  unfold delivered. intros Hd.
  destruct (requests s !! p) as [[k st fin]|] eqn:Hp; [| done].
  assert (p < List.length (requests s))%nat as Hlt by (by eapply lookup_lt_Some).
  destruct ev as [navigator now text source target|q f nowStore nowCleanup|q]; cbn [step].
  - destruct (translate_state navigator now text source target s) as [->|(k' & _ & ->)].
    + by rewrite Hp.
    + cbn. by rewrite (lookup_app_l_Some _ _ _ _ Hp).
  - unfold settle. destruct (requests s !! q) as [[kq stq finq]|] eqn:Hq; [| by rewrite Hp].
    destruct stq; try by rewrite Hp.
    assert (q ≠ p) by (intros ->; rewrite Hp in Hq; injection Hq as -> -> ->; done).
    destruct (requestResult f); cbn; rewrite list_lookup_insert_ne by done; by rewrite Hp.
  - unfold finallyBlock. destruct (requests s !! q) as [[kq stq [|]]|] eqn:Hq; try by rewrite Hp.
    destruct stq; try by rewrite Hp.
    all: cbn; destruct (decide (q = p)) as [->|Hne];
      [ rewrite list_lookup_insert_eq by done; rewrite Hp in Hq; by injection Hq as -> -> ->
      | rewrite list_lookup_insert_ne by done; by rewrite Hp ].
Qed.

Lemma run_delivered evs later p o :
  delivered (run evs) p = Some o → delivered (run (evs ++ later)) p = Some o.
Proof.
  intros Hd. induction later as [|ev later IH] using rev_ind.
  - by rewrite app_nil_r.
  - rewrite app_assoc, run_snoc. by apply step_delivered.
Qed.

Lemma finallyBlock_removes s p r :
  requests s !! p = Some r → req_state r ≠ Pending → req_finalized r = false →
  finallyBlock p s
  = {| clientCache := clientCache s;
       pendingRequests := delete (req_key r) (pendingRequests s);
       requests := <[p := {| req_key := req_key r; req_state := req_state r;
                             req_finalized := true |}]> (requests s) |}.
Proof.
  intros Hr Hst Hf. unfold finallyBlock. rewrite Hr.
  destruct r as [k st fin]. cbn in *. subst fin. by destruct st.
Qed.

(** C2: in every state the client can reach, (1) a key has at most one
    pending request, and that request is the one registered under the key;
    (2) a call that finds a request registered under its key is handed that
    request, sends nothing and changes nothing; (3) a request that has
    settled delivers the same payload or the same error for ever after, to
    whoever awaits it; (4) once a request has settled, with a payload or with
    an error, the [finally] block of the call that started it removes the
    entry of its key; (5) after that, a call for the key that finds no fresh
    cache entry starts a new request. *)
Theorem client_coalescer (evs : list event) :
  let s := run evs in
  (∀ k p q, inFlight s p k → inFlight s q k →
            p = q ∧ pendingRequests s !! k = Some p)
  ∧ (∀ navigator now text source target p,
       isOnline navigator = true → validText text →
       cacheMiss now (getClientCacheKey text source target) s →
       pendingRequests s !! getClientCacheKey text source target = Some p →
       translate navigator now text source target s = (Await p, [], s))
  ∧ (∀ later p o, delivered s p = Some o → delivered (run (evs ++ later)) p = Some o)
  ∧ (∀ p r, requests s !! p = Some r → req_state r ≠ Pending → req_finalized r = false →
            pendingRequests (finallyBlock p s) !! req_key r = None)
  ∧ (∀ p r navigator now text source target,
       requests s !! p = Some r → req_state r ≠ Pending → req_finalized r = false →
       getClientCacheKey text source target = req_key r →
       isOnline navigator = true → validText text →
       cacheMiss now (req_key r) (finallyBlock p s) →
       (translate navigator now text source target (finallyBlock p s)).1
       = (Await (List.length (requests s)), [Fetch text source target])).
Proof.
  intros s. pose proof (run_consistent evs) as Hs. fold s in Hs. split_and!.
  - intros k p q Hp Hq.
    pose proof (inFlight_registered s p k Hs Hp) as Hp'.
    pose proof (inFlight_registered s q k Hs Hq) as Hq'.
    split; [congruence | done].
  - intros navigator now text source target p Hon Hv Hmiss Hp.
    rewrite translate_uncached by done. cbv zeta. by rewrite Hp.
  - intros later p o. apply run_delivered.
  - intros p r Hr Hst Hf. rewrite (finallyBlock_removes s p r Hr Hst Hf). cbn.
    apply lookup_delete_eq.
  - intros p r navigator now text source target Hr Hst Hf Hk Hon Hv Hmiss.
    rewrite translate_uncached; [| done | done | by rewrite Hk].
    cbv zeta. rewrite Hk. rewrite (finallyBlock_removes s p r Hr Hst Hf) in *. cbn.
    rewrite lookup_delete_eq. cbn. by rewrite length_insert.
Qed.

End ClientFacts.

Lemma client_coalescer_witness :
  Client.translate None 0 (lit "hi ") Client.en Client.ja (Client.run twoCallers)
  = (Client.Await 0%nat, [], Client.run twoCallers).
Proof.
  apply (proj1 (proj2 (ClientFacts.client_coalescer twoCallers))).
  - reflexivity.
  - split; [vm_compute; discriminate | vm_compute; discriminate].
  - vm_compute. exact I.
  - vm_compute. reflexivity.
Defined.

(** ** The size of the client cache *)

(** cleanupClientCache removes expired entries only: a cache without any is
    returned as it is, however large. *)
Lemma cleanupClientCache_nothing_expired now (m : jsmap Client.CacheEntry) :
  (∀ kv, kv ∈ m → now - Client.timestamp kv.2 ≤ Client.CLIENT_CACHE_TTL) →
  Client.cleanupClientCache now m = m.
Proof.
  intros Hfresh. unfold Client.cleanupClientCache. destruct (_ <? _)%nat; [| done].
  rewrite (foldl_mdelete_if (λ v, now - Client.timestamp v >? Client.CLIENT_CACHE_TTL)).
  apply filter_all. intros x _. rewrite filter_none; [apply not_elem_of_nil |].
  intros kv Hkv. specialize (Hfresh kv Hkv). rewrite Z.gtb_ltb. intros H%Z.ltb_lt. lia.
Qed.

(** A reply that brings a new key into a cache without expired entries makes
    the cache one entry larger, whatever its size was. *)
Lemma settle_grows p f nowStore nowCleanup s key resp :
  Client.requests s !! p
  = Some {| Client.req_key := key; Client.req_state := Client.Pending;
            Client.req_finalized := false |} →
  Client.requestResult f = inl resp →
  key ∉ (Client.clientCache s).*1 →
  (∀ kv, kv ∈ Client.clientCache s →
         nowCleanup - Client.timestamp kv.2 ≤ Client.CLIENT_CACHE_TTL) →
  nowCleanup - nowStore ≤ Client.CLIENT_CACHE_TTL →
  msize (Client.clientCache (Client.settle p f nowStore nowCleanup s))
  = S (msize (Client.clientCache s)).
Proof.
  intros Hp Hres Hnew Hfresh Hnow. unfold Client.settle. rewrite Hp, Hres.
  cbn [Client.clientCache]. rewrite cleanupClientCache_nothing_expired.
  - rewrite msize_mset. by rewrite decide_False.
  - intros kv Hkv. apply list_elem_of_lookup in Hkv as [i Hi].
    assert (mset key {| Client.response := resp; Client.timestamp := nowStore |}
              (Client.clientCache s)
            = Client.clientCache s
              ++ [(key, {| Client.response := resp; Client.timestamp := nowStore |})]) as Heq.
    { clear -Hnew. induction (Client.clientCache s) as [|[k v] m IH]; [done |].
      cbn in *. apply not_elem_of_cons in Hnew as [Hne Hnin].
      rewrite decide_False by done. by rewrite IH. }
    rewrite Heq in Hi. apply lookup_app_Some in Hi as [Hi|[_ Hi]].
    + apply Hfresh. by eapply list_elem_of_lookup_2.
    + apply list_lookup_singleton_Some in Hi as [_ <-]. done.
Qed.

(** C4 fails in the client: 101 translations of different texts, each stored
    by clientCache.set and followed by cleanupClientCache, leave 101 entries
    in a cache whose maximum is 100; no request is pending, so no cleanup is
    still to come. *)
Theorem client_cache_exceeds_maximum :
  let s := Client.run (translations 101) in
  msize (Client.clientCache s) = 101%nat
  ∧ (Client.MAX_CLIENT_CACHE_SIZE < msize (Client.clientCache s))%nat
  ∧ Client.pendingRequests s = ∅
  ∧ Client.cleanupClientCache 0 (Client.clientCache s) = Client.clientCache s.
Proof.
  cbv zeta. split_and!.
  - vm_compute. reflexivity.
  - vm_compute. lia.
  - vm_compute. reflexivity.
  - vm_compute. reflexivity.
Qed.

(** ** The size of the two server caches *)

Section ServerBounds.
Variable createRateLimitHeaders : RateLimitResult → Headers.

(** A translate request leaves the store as it was or passes it through
    [translationCache.set] and [cleanupCache]. *)
Lemma translate_POST_store env st :
  putThenCleanup TranslateRoute.cleanupCache st
    (TranslateRoute.POST createRateLimitHeaders env st).2.
Proof.
  unfold TranslateRoute.POST. destruct (negb _); [by left |].
  destruct (TranslateRoute.requestJson env) as [b|e]; [| by left].
  assert (putThenCleanup TranslateRoute.cleanupCache st
            (TranslateRoute.handleBody createRateLimitHeaders env st b).2) as H.
  { unfold TranslateRoute.handleBody.
    destruct (TranslateRoute.text b) as [| | | |t|]; try by left.
    destruct (negb _); [by left |]. destruct (_ =? _); [by left |].
    destruct (_ >? _); [by left |]. destruct (_ || _); [by left |]. cbv zeta.
    set (key := TranslateRoute.getCacheKey _ _ _).
    assert (putThenCleanup TranslateRoute.cleanupCache st
              (TranslateRoute.callGoogle createRateLimitHeaders env st t
                 (toString (TranslateRoute.sourceLanguage b))
                 (toString (TranslateRoute.targetLanguage b)) key).2) as H.
    { unfold TranslateRoute.callGoogle.
      destruct (TranslateRoute.apiKey env) as [[|c k]|]; try by left.
      destruct (TranslateRoute.googleFetch env) as [g|e]; [| by left].
      destruct (_ =? _); [by left |]. destruct (_ || _); [by left |].
      destruct (negb _); [destruct (TranslateRoute.responseJson _ _ _); by left |].
      destruct (TranslateRoute.g_json g) as [[|translation l]|e]; try by left.
      destruct (bool_decide _); [destruct (TranslateRoute.generateRomanization _ _) |];
        right; cbn; eauto. }
    destruct (TranslateRoute.callGoogle _ _ _ _ _ _ _) as [[r effs] st'].
    destruct (mget _ _) as [c|]; [destruct (_ <? _); [by left |] |]; exact H. }
  destruct (TranslateRoute.handleBody _ _ _ _) as [[r effs] st']. exact H.
Qed.

Lemma analyze_POST_store env st :
  putThenCleanup AnalyzeRoute.cleanupCache st
    (AnalyzeRoute.POST createRateLimitHeaders env st).2.
Proof.
  unfold AnalyzeRoute.POST. destruct (negb _); [by left |].
  destruct (AnalyzeRoute.requestJson env) as [v|e]; [| by left].
  assert (putThenCleanup AnalyzeRoute.cleanupCache st
            (AnalyzeRoute.handleBody createRateLimitHeaders env st v).2) as H.
  { unfold AnalyzeRoute.handleBody.
    destruct v as [| | | |t|]; try by left.
    destruct (_ || _); [by left |]. destruct (_ >? _); [by left |]. cbv zeta.
    assert (putThenCleanup AnalyzeRoute.cleanupCache st
              (AnalyzeRoute.analyze createRateLimitHeaders env st t).2) as H.
    { unfold AnalyzeRoute.analyze.
      destruct (AnalyzeRoute.kuroshiro env); [| by left].
      destruct (AnalyzeRoute.parse env); [| by left]. right. cbn. eauto. }
    destruct (AnalyzeRoute.analyze _ _ _ _) as [[r effs] st'].
    destruct (mget _ _) as [c|]; [destruct (_ <? _); [by left |] |]; exact H. }
  destruct (AnalyzeRoute.handleBody _ _ _ _) as [[r effs] st']. exact H.
Qed.

(** X12: on the server the size bound holds: a request that stores a result runs
    cleanupCache right after the write, and cleanupCache never leaves more
    than MAX_CACHE_SIZE entries, expired or not; a request that stores
    nothing leaves the cache alone.  The keys stay distinct throughout. *)
Theorem server_caches_stay_bounded :
  (∀ env st,
     let st' := (TranslateRoute.POST createRateLimitHeaders env st).2 in
     ((msize (ServerCache.cache st) ≤ TranslateRoute.MAX_CACHE_SIZE)%nat →
      (msize (ServerCache.cache st') ≤ TranslateRoute.MAX_CACHE_SIZE)%nat)
     ∧ (wf (ServerCache.cache st) → wf (ServerCache.cache st')))
  ∧ (∀ env st,
     let st' := (AnalyzeRoute.POST createRateLimitHeaders env st).2 in
     ((msize (ServerCache.cache st) ≤ AnalyzeRoute.MAX_CACHE_SIZE)%nat →
      (msize (ServerCache.cache st') ≤ AnalyzeRoute.MAX_CACHE_SIZE)%nat)
     ∧ (wf (ServerCache.cache st) → wf (ServerCache.cache st'))).
Proof.
  split; intros env st st'; subst st'.
  - destruct (translate_POST_store env st) as [->|(key & entry & now & ->)]; [done |].
    split; intros H.
    + apply cleanupCache_bound.
    + apply cleanupCache_wf. cbn. by apply mset_wf.
  - destruct (analyze_POST_store env st) as [->|(key & entry & now & ->)]; [done |].
    split; intros H.
    + apply cleanupCache_bound.
    + apply cleanupCache_wf. cbn. by apply mset_wf.
Qed.

End ServerBounds.

(** * Further properties *)

(** ** More on the insertion-ordered map *)

Section JsMapMore.
Context {V : Type}.
Implicit Types (m : jsmap V) (k : jsstring) (v : V).

Lemma mget_elem k v m : wf m → mget k m = Some v ↔ (k, v) ∈ m.
Proof.
  unfold wf. induction m as [|[k' v'] m IH]; intros Hnd.
  - split; [done | by intros ?%elem_of_nil].
  - cbn in Hnd. apply NoDup_cons in Hnd as [Hnin Hnd]. cbn.
    destruct (decide (k' = k)) as [->|Hne].
    + split.
      * intros [= ->]. by left.
      * intros [[= ->]|Hin]%elem_of_cons; [done |].
        exfalso. apply Hnin. apply list_elem_of_fmap. by exists (k, v).
    + rewrite (IH Hnd). split.
      * intros ?. by right.
      * intros [[= ? ?]|Hin]%elem_of_cons; [done | done].
Qed.

Lemma mget_None k m : mget k m = None ↔ k ∉ m.*1.
Proof.
  induction m as [|[k' v'] m IH]; cbn.
  - split; [intros _; apply not_elem_of_nil | done].
  - destruct (decide (k' = k)) as [->|Hne].
    + split; [done | intros H; exfalso; apply H; by left].
    + rewrite IH, not_elem_of_cons. split; [intros ?; split; [congruence | done] | by intros [_ ?]].
Qed.

Lemma mset_new k v m : k ∉ m.*1 → mset k v m = m ++ [(k, v)].
Proof.
  induction m as [|[k' v'] m IH]; [done |].
  cbn. intros [Hne Hnin]%not_elem_of_cons.
  rewrite decide_False by done. by rewrite IH.
Qed.

Lemma mset_elem k v m : (k, v) ∈ mset k v m.
Proof.
  induction m as [|[k' v'] m IH]; cbn; [by left |].
  destruct (decide (k' = k)); [by left | by right].
Qed.

Lemma mset_elem_inv k v m kv : kv ∈ mset k v m → kv = (k, v) ∨ kv ∈ m.
Proof.
  induction m as [|[k' v'] m IH]; cbn.
  - intros ?%list_elem_of_singleton. by left.
  - destruct (decide (k' = k)).
    + intros [->|?]%elem_of_cons; [by left | right; by right].
    + intros [->|?]%elem_of_cons; [right; by left |].
      destruct IH as [?|?]; [done | by left | right; by right].
Qed.

End JsMapMore.

(** ** More on cleanupCache *)

Section ServerCacheMore.
Context {V : Type}.
Variable timestamp : V → Z.
Variable CACHE_TTL : Z.
Variable MAX_CACHE_SIZE : nat.
Variable CLEANUP_INTERVAL : Z.

Local Abbreviation sortByTimestamp := (ServerCache.sortByTimestamp timestamp).
Local Abbreviation insertByTimestamp := (ServerCache.insertByTimestamp timestamp).
Local Abbreviation evictOldest := (ServerCache.evictOldest timestamp MAX_CACHE_SIZE).
Local Abbreviation removeCount := (ServerCache.removeCount MAX_CACHE_SIZE).
Local Abbreviation expireStage := (ServerCache.expireStage timestamp CACHE_TTL CLEANUP_INTERVAL).
Local Abbreviation cleanupCache :=
  (ServerCache.cleanupCache timestamp CACHE_TTL MAX_CACHE_SIZE CLEANUP_INTERVAL).

Lemma store_eta (s : ServerCache.store V) :
  {| ServerCache.cache := ServerCache.cache s;
     ServerCache.lastCleanupTime := ServerCache.lastCleanupTime s |} = s.
Proof. by destruct s. Qed.

Lemma cleanupCache_sublist now s :
  ServerCache.cache (cleanupCache now s) `sublist_of` ServerCache.cache s.
Proof.
  unfold ServerCache.cleanupCache. cbn. etrans; [apply evictOldest_sublist |].
  unfold ServerCache.expireStage. destruct (_ >? _); [| done]. cbn.
  unfold ServerCache.purgeExpired.
  rewrite (foldl_mdelete_if (λ v, now - timestamp v >? CACHE_TTL)). apply sublist_filter.
Qed.

(** Running the cleanup again at the same instant changes nothing. *)
Lemma cleanupCache_idempotent now s :
  0 ≤ CLEANUP_INTERVAL →
  cleanupCache now (cleanupCache now s) = cleanupCache now s.
Proof.
  intros Hint.
  assert (expireStage now (cleanupCache now s) = cleanupCache now s) as Hstage.
  { unfold ServerCache.expireStage at 1. unfold ServerCache.cleanupCache at 1 2.
    cbn [ServerCache.lastCleanupTime]. unfold ServerCache.expireStage at 1 2.
    destruct (Z.gtb_spec (now - ServerCache.lastCleanupTime s) CLEANUP_INTERVAL) as [Hdue|Hnot].
    - cbn [ServerCache.lastCleanupTime].
      destruct (Z.gtb_spec (now - now) CLEANUP_INTERVAL); [lia | done].
    - destruct (Z.gtb_spec (now - ServerCache.lastCleanupTime s) CLEANUP_INTERVAL);
        [lia | done]. }
  unfold ServerCache.cleanupCache at 1. rewrite Hstage.
  rewrite evictOldest_small by apply cleanupCache_bound. apply store_eta.
Qed.

(** When the periodic sweep is due, no entry older than the TTL is left and
    the time of the sweep is recorded; an entry that is exactly TTL old is
    not swept. *)
Lemma cleanupCache_sweep now s :
  wf (ServerCache.cache s) →
  CLEANUP_INTERVAL < now - ServerCache.lastCleanupTime s →
  ServerCache.lastCleanupTime (cleanupCache now s) = now
  ∧ (∀ kv, kv ∈ ServerCache.cache (cleanupCache now s) → now - timestamp kv.2 ≤ CACHE_TTL)
  ∧ (∀ kv, kv ∈ ServerCache.cache s → now - timestamp kv.2 ≤ CACHE_TTL →
           (msize (ServerCache.cache s) ≤ MAX_CACHE_SIZE)%nat →
           kv ∈ ServerCache.cache (cleanupCache now s)).
Proof.
  intros Hwf Hdue. unfold ServerCache.cleanupCache, ServerCache.expireStage.
  destruct (Z.gtb_spec (now - ServerCache.lastCleanupTime s) CLEANUP_INTERVAL) as [_|?]; [| lia].
  cbn. rewrite purgeExpired_filter by done. split_and!; [done | |].
  - intros kv Hkv. eapply elem_of_sublist in Hkv; [| apply evictOldest_sublist].
    apply list_elem_of_filter in Hkv as [Hkv _].
    destruct (Z.gtb_spec (now - timestamp kv.2) CACHE_TTL); [done | lia].
  - intros kv Hkv Hfresh Hsmall. rewrite evictOldest_small.
    + apply list_elem_of_filter. split; [| done].
      destruct (Z.gtb_spec (now - timestamp kv.2) CACHE_TTL); [lia | done].
    + unfold msize in *. etrans; [apply length_filter | done].
Qed.

Lemma insertByTimestamp_before_last x l e :
  timestamp x.2 ≤ timestamp e.2 →
  insertByTimestamp x (l ++ [e]) = insertByTimestamp x l ++ [e].
Proof.
  intros Hle. induction l as [|y l IH]; cbn.
  - destruct (Z.leb_spec (timestamp x.2) (timestamp e.2)); [done | lia].
  - destruct (timestamp x.2 <=? timestamp y.2); [done |]. by rewrite IH.
Qed.

(** An entry at the end of the array that no entry is newer than stays at
    the end when the array is sorted. *)
Lemma sortByTimestamp_newest_last l e :
  (∀ x, x ∈ l → timestamp x.2 ≤ timestamp e.2) →
  sortByTimestamp (l ++ [e]) = sortByTimestamp l ++ [e].
Proof.
  induction l as [|x l IH]; intros Hle; [done |].
  cbn. rewrite IH by (intros y Hy; apply Hle; by right).
  apply insertByTimestamp_before_last. apply Hle. by left.
Qed.

(** What Map.set has just stored is still there after cleanupCache, when the
    cache was within its maximum before the write, no entry carries a later
    timestamp and the entry has not expired by the time of the cleanup. *)
Lemma stored_entry_survives now k v m last :
  (1 ≤ MAX_CACHE_SIZE)%nat →
  wf m → (msize m ≤ MAX_CACHE_SIZE)%nat →
  (∀ kv, kv ∈ m → timestamp kv.2 ≤ timestamp v) →
  now - timestamp v ≤ CACHE_TTL →
  mget k (ServerCache.cache
            (cleanupCache now {| ServerCache.cache := mset k v m;
                                 ServerCache.lastCleanupTime := last |})) = Some v.
Proof.
  intros Hmax Hwf Hsize Hnewest Hfresh.
  set (s := {| ServerCache.cache := mset k v m; ServerCache.lastCleanupTime := last |}).
  assert (wf (ServerCache.cache s)) as Hwfs by (by apply mset_wf).
  assert (wf (ServerCache.cache (cleanupCache now s))) as Hwfc by (by apply cleanupCache_wf).
  apply mget_elem; [done |].
  unfold ServerCache.cleanupCache. cbn [ServerCache.cache].
  (* the sweep keeps the entry, and keeps it last when the key is new *)
  assert (∃ P : jsstring * V → Prop, ∃ dec : ∀ x, Decision (P x),
            ServerCache.cache (expireStage now s) = filter P (mset k v m) ∧ P (k, v))
    as (P & dec & Hstage & HP).
  { unfold ServerCache.expireStage.
    destruct (_ >? _); cbn.
    - exists (λ kv, (now - timestamp kv.2 >? CACHE_TTL) = false), _.
      split; [by apply purgeExpired_filter |].
      cbn. destruct (Z.gtb_spec (now - timestamp v) CACHE_TTL); [lia | done].
    - exists (λ _, True), _. split; [| done]. symmetry. by apply filter_all. }
  rewrite Hstage.
  destruct (Nat.le_gt_cases (msize (filter P (mset k v m))) MAX_CACHE_SIZE) as [Hsmall|Hbig].
  { rewrite evictOldest_small by done. apply list_elem_of_filter. split; [done |].
    apply mset_elem. }
  (* more than the maximum is left: the key was new and nothing was swept *)
  assert (k ∉ m.*1) as Hnew.
  { intros Hin. pose proof (msize_mset k v m) as Hs. rewrite decide_True in Hs by done.
    unfold msize in *. pose proof (length_filter P (mset k v m)). lia. }
  rewrite mset_new in * by done. rewrite filter_app in *.
  rewrite (filter_cons_True P (k, v)) in * by done. rewrite filter_nil in *.
  set (m' := filter P m) in *.
  assert (wf (m' ++ [(k, v)])) as Hwf'.
  { unfold wf. rewrite <-Hstage. by apply expireStage_wf. }
  rewrite (evictOldest_kept timestamp MAX_CACHE_SIZE _ Hwf' Hbig).
  rewrite sortByTimestamp_newest_last.
  2:{ intros x Hx. apply Hnewest. by apply list_elem_of_filter in Hx as [_ ?]. }
  assert (List.length m' ≤ MAX_CACHE_SIZE)%nat as Hm'.
  { unfold msize in Hsize. etrans; [apply length_filter | done]. }
  assert (removeCount (List.length (m' ++ [(k, v)])) ≤ List.length (sortByTimestamp m'))%nat
    as Hcount.
  { rewrite sortByTimestamp_perm. unfold ServerCache.removeCount.
    rewrite length_app. cbn [List.length]. unfold msize in Hbig.
    rewrite length_app in Hbig. cbn [List.length] in Hbig.
    apply Nat.lt_succ_r. apply Nat.Div0.div_lt_upper_bound. lia. }
  rewrite drop_app_le by done. apply elem_of_app. right. by left.
Qed.

End ServerCacheMore.

(** ** More on POST /api/translate *)

Section TranslateMore.
Variable h : RateLimitResult → Headers.

Lemma translate_callGoogle_not_cached env st t source target key :
  ¬ isCachedResponse (TranslateRoute.callGoogle h env st t source target key).1.1.
Proof.
  intros (tt & d & ro & Hbody). revert Hbody. unfold TranslateRoute.callGoogle.
  destruct (TranslateRoute.apiKey env) as [[|c k]|]; try discriminate.
  destruct (TranslateRoute.googleFetch env) as [g|[m|]];
    [| cbn [TranslateRoute.onError]; destruct (includes _ _); discriminate | discriminate].
  destruct (_ =? _); [discriminate |]. destruct (_ || _); [discriminate |].
  destruct (negb _); [passed_on; discriminate |].
  destruct (TranslateRoute.g_json g) as [[|translation l]|[m|]];
    [ cbn [TranslateRoute.onError]; destruct (includes _ _); discriminate | |
      cbn [TranslateRoute.onError]; destruct (includes _ _); discriminate | discriminate].
  destruct (bool_decide _); [destruct (TranslateRoute.generateRomanization _ _) |]; discriminate.
Qed.

(** X1: A request that reaches the lookup is answered from translationCache
    exactly when the entry of its key is less than CACHE_TTL old: then the
    answer carries the stored text and romanization and [cached: true], no
    call leaves the server and the store is as before; an entry of age
    CACHE_TTL or more is not served. *)
Theorem translate_entry_served_iff_fresh env st b t cached :
  reachesLookup env b t →
  mget (requestKey b t) (ServerCache.cache st) = Some cached →
  (TranslateRoute.nowLookup env - TranslateRoute.timestamp cached < TranslateRoute.CACHE_TTL →
   TranslateRoute.POST h env st
   = (TranslateRoute.json
        (TranslateRoute.TranslationBody (TranslateRoute.translatedText cached) None
           (TranslateRoute.romanization cached) true)
        200 (TranslateRoute.successHeaders h (TranslateRoute.rateLimitResult env)),
      [RateLimitCheck (TranslateRoute.clientIP env); ReadBody; CacheGet (requestKey b t)], st))
  ∧ (TranslateRoute.CACHE_TTL ≤ TranslateRoute.nowLookup env - TranslateRoute.timestamp cached →
     ¬ isCachedResponse (TranslateRoute.POST h env st).1.1).
Proof.
  intros Hreach Hget. split; intros Hage; [by apply translate_POST_hit |].
  rewrite (translate_POST_lookup h env st b t Hreach).
  destruct Hreach as (_ & _ & Ht & Htrim & Hlen & Hs & Hg).
  rewrite (translate_handleBody_lookup h env st b t Ht Htrim Hlen Hs Hg). cbv zeta.
  rewrite Hget.
  - apply Z.ltb_ge in Hage as ->.
    pose proof (translate_callGoogle_not_cached env st t
                  (toString (TranslateRoute.sourceLanguage b))
                  (toString (TranslateRoute.targetLanguage b)) (requestKey b t)) as Hn.
    by destruct (TranslateRoute.callGoogle _ _ _ _ _ _ _) as [[r effs] st'].
Qed.

Lemma translate_POST_miss env st b t :
  reachesLookup env b t →
  translateMiss (TranslateRoute.nowLookup env) (requestKey b t) st →
  TranslateRoute.POST h env st
  = let '(r, effs, st') :=
      TranslateRoute.callGoogle h env st t (toString (TranslateRoute.sourceLanguage b))
        (toString (TranslateRoute.targetLanguage b)) (requestKey b t) in
    (r, RateLimitCheck (TranslateRoute.clientIP env) :: ReadBody
        :: CacheGet (requestKey b t) :: effs, st').
Proof.
  intros Hreach Hmiss. rewrite (translate_POST_lookup h env st b t Hreach).
  destruct Hreach as (_ & _ & Ht & Htrim & Hlen & Hs & Hg).
  rewrite (translate_handleBody_lookup h env st b t Ht Htrim Hlen Hs Hg). cbv zeta.
  unfold translateMiss in Hmiss.
  destruct (TranslateRoute.callGoogle _ _ _ _ _ _ _) as [[r effs] st'].
  destruct (mget _ _) as [cached|]; [| done].
  by apply Z.ltb_ge in Hmiss as ->.
Qed.

(** The call to Google and what follows it, when Google answers 2xx with at
    least one translation. *)
Lemma translate_callGoogle_success env st t source target key c k g tr rest :
  TranslateRoute.apiKey env = Some (c :: k) →
  TranslateRoute.googleFetch env = Returns g →
  200 ≤ TranslateRoute.g_status g ≤ 299 →
  TranslateRoute.g_json g = Returns (tr :: rest) →
  ∃ romaji converted,
    TranslateRoute.callGoogle h env st t source target key
    = (TranslateRoute.json
         (TranslateRoute.TranslationBody (TranslateRoute.tr_translatedText tr)
            (TranslateRoute.tr_detectedSourceLanguage tr) romaji false)
         200 (TranslateRoute.successHeaders h (TranslateRoute.rateLimitResult env)),
       GoogleFetch t source target :: converted ++ [CacheSet key; CacheCleanup],
       TranslateRoute.cleanupCache (TranslateRoute.nowCleanup env)
         {| ServerCache.cache :=
              mset key
                {| TranslateRoute.translatedText := TranslateRoute.tr_translatedText tr;
                   TranslateRoute.romanization := romaji;
                   TranslateRoute.timestamp := TranslateRoute.nowStore env |}
                (ServerCache.cache st);
            ServerCache.lastCleanupTime := ServerCache.lastCleanupTime st |})
    ∧ (∀ r, romaji = Some r
            ↔ target = lit "ja" ∧ TranslateRoute.tr_translatedText tr ≠ []
              ∧ TranslateRoute.kuroshiroConvert env = Returns r ∧ r ≠ [])
    ∧ (converted = [KuroshiroConvert (TranslateRoute.tr_translatedText tr)]
       ∨ converted = []
          ∧ (target ≠ lit "ja" ∨ TranslateRoute.tr_translatedText tr = [])).
Proof.
  intros Hkey Hfetch Hok Hjson. unfold TranslateRoute.callGoogle.
  rewrite Hkey, Hfetch, Hjson.
  assert ((TranslateRoute.g_status g =? 429) = false) as -> by (apply Z.eqb_neq; lia).
  assert ((TranslateRoute.g_status g =? 401) = false) as -> by (apply Z.eqb_neq; lia).
  assert ((TranslateRoute.g_status g =? 403) = false) as -> by (apply Z.eqb_neq; lia).
  assert (TranslateRoute.g_ok g = true) as ->.
  { unfold TranslateRoute.g_ok. apply andb_true_iff. split; apply Z.leb_le; lia. }
  cbn [orb negb]. unfold TranslateRoute.generateRomanization.
  destruct (bool_decide_reflect (target = lit "ja")) as [Hja|Hja].
  - destruct (strlen (TranslateRoute.tr_translatedText tr) =? 0) eqn:Hempty.
    + apply strlen_0 in Hempty. cbv beta iota zeta. change (strlen [] =? 0) with true.
      cbv iota. eexists _, _. split; [reflexivity |]. split.
      * intros r. split; [done | intros (_ & ? & _); done].
      * right. split; [done | by right].
    + apply strlen_0_false in Hempty.
      destruct (TranslateRoute.kuroshiroConvert env) as [r0|e] eqn:Hconv; cbv beta iota zeta.
      * destruct (strlen r0 =? 0) eqn:Hr0; eexists _, _; (split; [reflexivity |]);
          (split; [| by left]).
        -- apply strlen_0 in Hr0. intros r. split; [done |].
           intros (_ & _ & [= <-] & ?). done.
        -- apply strlen_0_false in Hr0. intros r. split.
           ++ intros [= <-]. done.
           ++ intros (_ & _ & [= <-] & _). done.
      * change (strlen [] =? 0) with true. cbv iota.
        eexists _, _. split; [reflexivity |]. split; [| by left].
        intros r. split; [done | intros (_ & _ & ? & _); done].
  - cbv beta iota zeta. change (strlen [] =? 0) with true. cbv iota.
    eexists _, _. split; [reflexivity |]. split.
    + intros r. split; [done | intros (? & _); done].
    + right. split; [done | by left].
Qed.

(** What the call to Google returns when it does not end in a stored
    translation: the store is the one it was given. *)
Lemma translate_callGoogle_cases env st t source target key :
  ((TranslateRoute.callGoogle h env st t source target key).2 = st
   ∧ ∀ translated detected romaji,
       TranslateRoute.r_body (TranslateRoute.callGoogle h env st t source target key).1.1
       ≠ TranslateRoute.TranslationBody translated detected romaji false)
  ∨ ∃ tr romaji,
      TranslateRoute.r_body (TranslateRoute.callGoogle h env st t source target key).1.1
      = TranslateRoute.TranslationBody (TranslateRoute.tr_translatedText tr)
          (TranslateRoute.tr_detectedSourceLanguage tr) romaji false
      ∧ TranslateRoute.r_status (TranslateRoute.callGoogle h env st t source target key).1.1
        = 200
      ∧ (TranslateRoute.callGoogle h env st t source target key).2
        = TranslateRoute.cleanupCache (TranslateRoute.nowCleanup env)
            {| ServerCache.cache :=
                 mset key
                   {| TranslateRoute.translatedText := TranslateRoute.tr_translatedText tr;
                      TranslateRoute.romanization := romaji;
                      TranslateRoute.timestamp := TranslateRoute.nowStore env |}
                   (ServerCache.cache st);
               ServerCache.lastCleanupTime := ServerCache.lastCleanupTime st |}.
Proof.
  destruct (TranslateRoute.apiKey env) as [[|c k]|] eqn:Hkey;
    [left | | left]; try (unfold TranslateRoute.callGoogle; rewrite Hkey; by split).
  destruct (TranslateRoute.googleFetch env) as [g|e] eqn:Hfetch.
  2:{ left. unfold TranslateRoute.callGoogle. rewrite Hkey, Hfetch.
      split; [done |]. intros ? ? ?. destruct e as [m|]; cbn [fst TranslateRoute.onError];
        [destruct (includes _ _) |]; discriminate. }
  destruct (decide (200 ≤ TranslateRoute.g_status g ≤ 299)) as [Hok|Hbad].
  - destruct (TranslateRoute.g_json g) as [[|tr rest]|e] eqn:Hjson.
    + left. unfold TranslateRoute.callGoogle. rewrite Hkey, Hfetch, Hjson.
      destruct (_ =? _); [by split |]. destruct (_ || _); [by split |].
      destruct (negb _); [passed_on; by split |]. split; [done |]. intros ? ? ?.
      cbn [fst TranslateRoute.onError]. destruct (includes _ _); discriminate.
    + right.
      destruct (translate_callGoogle_success env st t source target key c k g tr rest
                  Hkey Hfetch Hok Hjson) as (romaji & converted & -> & _).
      by exists tr, romaji.
    + left. unfold TranslateRoute.callGoogle. rewrite Hkey, Hfetch, Hjson.
      destruct (_ =? _); [by split |]. destruct (_ || _); [by split |].
      destruct (negb _); [passed_on; by split |]. split; [done |]. intros ? ? ?.
      destruct e as [m|]; cbn [fst TranslateRoute.onError];
        [destruct (includes _ _) |]; discriminate.
  - left. unfold TranslateRoute.callGoogle. rewrite Hkey, Hfetch.
    destruct (_ =? _); [by split |]. destruct (_ || _); [by split |].
    assert (TranslateRoute.g_ok g = false) as ->; [| cbn [negb]; passed_on; by split].
    unfold TranslateRoute.g_ok. apply andb_false_iff.
    destruct (Z.leb_spec 200 (TranslateRoute.g_status g));
      destruct (Z.leb_spec (TranslateRoute.g_status g) 299); auto; lia.
Qed.

(** Every way a translate request can end. *)
Lemma translate_POST_cases env st :
  ((TranslateRoute.POST h env st).2 = st
   ∧ ∀ translated detected romaji,
       TranslateRoute.r_body (TranslateRoute.POST h env st).1.1
       ≠ TranslateRoute.TranslationBody translated detected romaji false)
  ∨ ∃ b t tr romaji,
      TranslateRoute.requestJson env = Returns b
      ∧ TranslateRoute.text b = VString t
      ∧ TranslateRoute.r_body (TranslateRoute.POST h env st).1.1
        = TranslateRoute.TranslationBody (TranslateRoute.tr_translatedText tr)
            (TranslateRoute.tr_detectedSourceLanguage tr) romaji false
      ∧ TranslateRoute.r_status (TranslateRoute.POST h env st).1.1 = 200
      ∧ (TranslateRoute.POST h env st).2
        = TranslateRoute.cleanupCache (TranslateRoute.nowCleanup env)
            {| ServerCache.cache :=
                 mset (requestKey b t)
                   {| TranslateRoute.translatedText := TranslateRoute.tr_translatedText tr;
                      TranslateRoute.romanization := romaji;
                      TranslateRoute.timestamp := TranslateRoute.nowStore env |}
                   (ServerCache.cache st);
               ServerCache.lastCleanupTime := ServerCache.lastCleanupTime st |}.
Proof.
  unfold TranslateRoute.POST.
  destruct (negb _); [left; by split |].
  destruct (TranslateRoute.requestJson env) as [b|e] eqn:Hb.
  2:{ left. split; [done |]. intros ? ? ?.
      destruct e as [m|]; cbn [fst TranslateRoute.onError];
        [destruct (includes _ _) |]; discriminate. }
  unfold TranslateRoute.handleBody.
  destruct (TranslateRoute.text b) as [| | | |t|] eqn:Ht; try (left; by split).
  destruct (negb _); [left; by split |]. destruct (_ =? _); [left; by split |].
  destruct (_ >? _); [left; by split |]. destruct (_ || _); [left; by split |].
  cbv zeta. fold (requestKey b t).
  pose proof (translate_callGoogle_cases env st t
                (toString (TranslateRoute.sourceLanguage b))
                (toString (TranslateRoute.targetLanguage b)) (requestKey b t)) as Hcases.
  destruct (TranslateRoute.callGoogle _ _ _ _ _ _ _) as [[r effs] st'].
  destruct (mget _ _) as [cached|]; [destruct (_ <? _); [left; by split |] |];
    (destruct Hcases as [[Hst Hnot]|(tr & romaji & Hbody & Hstatus & Hst)];
     [left; by split | right; exists b, t, tr, romaji; by split_and!]).
Qed.

(** X3: only a translation obtained from Google is written to translationCache:
    whenever the store is not the one the request found, the answer is a 200
    with a translation not marked cached; in particular an answer with
    another status leaves the store untouched. *)
Theorem translate_failures_never_cached env st :
  ((TranslateRoute.POST h env st).2 = st ∨ isFreshTranslation (TranslateRoute.POST h env st).1.1)
  ∧ (TranslateRoute.r_status (TranslateRoute.POST h env st).1.1 ≠ 200 →
     (TranslateRoute.POST h env st).2 = st).
Proof.
  destruct (translate_POST_cases env st)
    as [[Hst _]|(b & t & tr & romaji & _ & _ & Hbody & Hstatus & _)].
  - split; [by left | done].
  - split; [right; split; [done | eauto] | done].
Qed.

(** X4: without an API key the request is answered 500 AUTH_ERROR and nothing is
    sent to Google.  A reply of Google outside 2xx is answered with the code
    RATE_LIMIT for 429, AUTH_ERROR for 401 and 403 and API_ERROR otherwise;
    it is handed on under its own status when a response with a body can
    carry that status (300..599 but 304), and otherwise Response.json throws
    and the catch clause answers 500.  None of these touches the store. *)
Theorem translate_upstream_failures env st b t :
  reachesLookup env b t →
  translateMiss (TranslateRoute.nowLookup env) (requestKey b t) st →
  let source := toString (TranslateRoute.sourceLanguage b) in
  let target := toString (TranslateRoute.targetLanguage b) in
  let before := [RateLimitCheck (TranslateRoute.clientIP env); ReadBody;
                 CacheGet (requestKey b t)] in
  (TranslateRoute.apiKey env = None ∨ TranslateRoute.apiKey env = Some [] →
   TranslateRoute.POST h env st
   = (TranslateRoute.errorResponse TranslateRoute.AUTH_ERROR
        (lit "Translation service configuration error.") 500, before, st))
  ∧ (∀ c k g,
       TranslateRoute.apiKey env = Some (c :: k) →
       TranslateRoute.googleFetch env = Returns g →
       ¬ (200 ≤ TranslateRoute.g_status g ≤ 299) →
       ∃ code message status,
         TranslateRoute.POST h env st
         = (TranslateRoute.errorResponse code message status,
            before ++ [GoogleFetch t source target], st)
         ∧ code = (if decide (TranslateRoute.g_status g = 429) then TranslateRoute.RATE_LIMIT
                   else if decide (TranslateRoute.g_status g = 401
                                   ∨ TranslateRoute.g_status g = 403)
                        then TranslateRoute.AUTH_ERROR
                        else TranslateRoute.API_ERROR)
         ∧ message = (if decide (TranslateRoute.g_status g = 429)
                      then lit "Too many requests. Please wait a moment and try again."
                      else if decide (TranslateRoute.g_status g = 401
                                      ∨ TranslateRoute.g_status g = 403)
                           then lit "Translation service configuration error."
                           else lit "Translation service is temporarily unavailable.")
         ∧ status = (if decide (300 ≤ TranslateRoute.g_status g ≤ 599
                                ∧ TranslateRoute.g_status g ≠ 304)
                     then TranslateRoute.g_status g
                     else 500)).
Proof.
  intros Hreach Hmiss source target before.
  rewrite (translate_POST_miss env st b t Hreach Hmiss). fold source target.
  unfold TranslateRoute.callGoogle. split.
  - intros [-> | ->]; reflexivity.
  - intros c k g -> -> Hbad.
    destruct (decide (TranslateRoute.g_status g = 429)) as [H429|H429].
    { rewrite H429. eexists _, _, _. split_and!; [reflexivity | reflexivity | reflexivity |].
      by rewrite decide_True by lia. }
    assert ((TranslateRoute.g_status g =? 429) = false) as -> by (by apply Z.eqb_neq).
    destruct (decide (_ ∨ _)) as [Hauth|Hauth].
    { assert ((TranslateRoute.g_status g =? 401) || (TranslateRoute.g_status g =? 403) = true)
        as -> by (apply orb_true_iff; destruct Hauth; [left | right]; by apply Z.eqb_eq).
      eexists _, _, _. split_and!; [reflexivity | reflexivity | reflexivity |].
      by rewrite decide_True by lia. }
    assert ((TranslateRoute.g_status g =? 401) || (TranslateRoute.g_status g =? 403) = false)
      as ->.
    { apply orb_false_iff. split; apply Z.eqb_neq; intros ?; apply Hauth; auto. }
    assert (TranslateRoute.g_ok g = false) as ->.
    { unfold TranslateRoute.g_ok. apply andb_false_iff.
      destruct (Z.leb_spec 200 (TranslateRoute.g_status g));
        destruct (Z.leb_spec (TranslateRoute.g_status g) 299); auto; lia. }
    cbn [negb].
    destruct (responseJson_cases TranslateRoute.API_ERROR
                (lit "Translation service is temporarily unavailable.")
                (TranslateRoute.g_status g)) as [(-> & Hrange)|(e & -> & -> & Hrange)].
    + eexists _, _, _. split_and!; [reflexivity | reflexivity | reflexivity |].
      by rewrite decide_True by lia.
    + eexists _, _, _. split_and!; [reflexivity | reflexivity | reflexivity |].
      by rewrite decide_False by lia.
Qed.

(** X5: when Google has translated, the request succeeds whatever kuroshiro
    does: the answer is a 200 with the first translation, the result is
    stored under the request's key and cleanupCache runs.  The answer and the
    stored entry carry a romanization exactly when the target language is
    'ja', the translated text is not empty and the conversion returned a
    non-empty string; a conversion that throws only leaves it out. *)
Theorem translate_succeeds_without_romanization env st b t c k g tr rest :
  reachesLookup env b t →
  translateMiss (TranslateRoute.nowLookup env) (requestKey b t) st →
  TranslateRoute.apiKey env = Some (c :: k) →
  TranslateRoute.googleFetch env = Returns g →
  200 ≤ TranslateRoute.g_status g ≤ 299 →
  TranslateRoute.g_json g = Returns (tr :: rest) →
  ∃ romaji converted,
    TranslateRoute.POST h env st
    = (TranslateRoute.json
         (TranslateRoute.TranslationBody (TranslateRoute.tr_translatedText tr)
            (TranslateRoute.tr_detectedSourceLanguage tr) romaji false)
         200 (TranslateRoute.successHeaders h (TranslateRoute.rateLimitResult env)),
       [RateLimitCheck (TranslateRoute.clientIP env); ReadBody; CacheGet (requestKey b t);
        GoogleFetch t (toString (TranslateRoute.sourceLanguage b))
          (toString (TranslateRoute.targetLanguage b))]
       ++ converted ++ [CacheSet (requestKey b t); CacheCleanup],
       TranslateRoute.cleanupCache (TranslateRoute.nowCleanup env)
         {| ServerCache.cache :=
              mset (requestKey b t)
                {| TranslateRoute.translatedText := TranslateRoute.tr_translatedText tr;
                   TranslateRoute.romanization := romaji;
                   TranslateRoute.timestamp := TranslateRoute.nowStore env |}
                (ServerCache.cache st);
            ServerCache.lastCleanupTime := ServerCache.lastCleanupTime st |})
    ∧ (∀ r, romaji = Some r
            ↔ TranslateRoute.targetLanguage b = VString (lit "ja")
              ∧ TranslateRoute.tr_translatedText tr ≠ []
              ∧ TranslateRoute.kuroshiroConvert env = Returns r ∧ r ≠ [])
    ∧ (∀ e, TranslateRoute.kuroshiroConvert env = Throws e → romaji = None).
Proof.
  intros Hreach Hmiss Hkey Hfetch Hok Hjson.
  rewrite (translate_POST_miss env st b t Hreach Hmiss).
  destruct (translate_callGoogle_success env st t
              (toString (TranslateRoute.sourceLanguage b))
              (toString (TranslateRoute.targetLanguage b)) (requestKey b t)
              c k g tr rest Hkey Hfetch Hok Hjson)
    as (romaji & converted & -> & Hromaji & _).
  exists romaji, converted. split; [reflexivity |].
  destruct Hreach as (_ & _ & _ & _ & _ & _ & Htarget).
  assert (toString (TranslateRoute.targetLanguage b) = lit "ja"
          ↔ TranslateRoute.targetLanguage b = VString (lit "ja")) as Hiff.
  { destruct Htarget as [-> | ->]; cbn; split; intros H; try done; by injection H. }
  split.
  - intros r. rewrite (Hromaji r). by rewrite Hiff.
  - intros e He. destruct romaji as [r|]; [| done].
    destruct (proj1 (Hromaji r) eq_refl) as (_ & _ & Hr & _). congruence.
Qed.

Lemma translate_onError_answer e : translateAnswer (TranslateRoute.onError e).
Proof.
  unfold TranslateRoute.onError, TranslateRoute.errorResponse.
  destruct e as [m|]; [destruct (includes _ _) |]; constructor; lia.
Qed.

Lemma translate_callGoogle_answer env st t source target key :
  translateAnswer (TranslateRoute.callGoogle h env st t source target key).1.1.
Proof.
  unfold TranslateRoute.callGoogle, TranslateRoute.errorResponse.
  destruct (TranslateRoute.apiKey env) as [[|c k]|];
    [constructor; by left | | constructor; by left].
  destruct (TranslateRoute.googleFetch env) as [g|e]; [| apply translate_onError_answer].
  destruct (_ =? _); [constructor |].
  destruct ((_ =? 401) || _) eqn:Hauth.
  { constructor. apply orb_true_iff in Hauth as [?%Z.eqb_eq|?%Z.eqb_eq]; auto. }
  destruct (negb _) eqn:Hok.
  { destruct (responseJson_cases TranslateRoute.API_ERROR
                (lit "Translation service is temporarily unavailable.")
                (TranslateRoute.g_status g)) as [(-> & _)|(e & -> & _ & _)];
      [| apply translate_onError_answer].
    cbn [fst]. unfold TranslateRoute.errorResponse.
    constructor. apply negb_true_iff in Hok. unfold TranslateRoute.g_ok in Hok.
    apply andb_false_iff in Hok as [?%Z.leb_gt|?%Z.leb_gt]; lia. }
  destruct (TranslateRoute.g_json g) as [[|translation l]|e];
    [apply translate_onError_answer | | apply translate_onError_answer].
  destruct (bool_decide _); [destruct (TranslateRoute.generateRomanization _ _) |];
    cbn [fst]; constructor.
Qed.

(** X6: whatever the request and whatever the collaborators answer, the handler
    replies with a translation under status 200 or with an error body whose
    [status] field equals the HTTP status and whose code is one of
    INVALID_INPUT (400), RATE_LIMIT (429), NETWORK_ERROR (503), AUTH_ERROR
    (500, 401 or 403) and API_ERROR (never a 2xx status). *)
Theorem translate_answer_well_formed env st :
  translateAnswer (TranslateRoute.POST h env st).1.1.
Proof.
  unfold TranslateRoute.POST.
  destruct (negb _); [cbn [fst]; unfold TranslateRoute.rateLimited; constructor |].
  destruct (TranslateRoute.requestJson env) as [b|e]; [| apply translate_onError_answer].
  assert (translateAnswer (TranslateRoute.handleBody h env st b).1.1) as Hb.
  { unfold TranslateRoute.handleBody, TranslateRoute.invalidInput.
    destruct (TranslateRoute.text b) as [| | | |t|]; try (cbn [fst]; constructor).
    destruct (negb _); [constructor |]. destruct (_ =? _); [constructor |].
    destruct (_ >? _); [constructor |]. destruct (_ || _); [constructor |].
    cbv zeta.
    pose proof (translate_callGoogle_answer env st t
                  (toString (TranslateRoute.sourceLanguage b))
                  (toString (TranslateRoute.targetLanguage b))
                  (TranslateRoute.getCacheKey (trim t)
                     (toString (TranslateRoute.sourceLanguage b))
                     (toString (TranslateRoute.targetLanguage b)))) as Hg.
    destruct (TranslateRoute.callGoogle _ _ _ _ _ _ _) as [[r effs] st'].
    destruct (mget _ _) as [cached|]; [destruct (_ <? _); [constructor |] |]; exact Hg. }
  by destruct (TranslateRoute.handleBody _ _ _ _) as [[r effs] st'].
Qed.

(** X2: A translation the route has just obtained is served from the cache to
    the next request for the same key: when the cache was within its maximum
    and its keys distinct, the clock has not run backwards and less than
    CACHE_TTL has passed, the second answer is [cached: true] with the text
    and the romanization of the first, and Google is not called again. *)
Theorem translate_round_trip env1 env2 st b1 t1 b2 t2 translated detected romaji :
  wf (ServerCache.cache st) →
  (msize (ServerCache.cache st) ≤ TranslateRoute.MAX_CACHE_SIZE)%nat →
  (∀ kv, kv ∈ ServerCache.cache st →
         TranslateRoute.timestamp kv.2 ≤ TranslateRoute.nowStore env1) →
  TranslateRoute.nowCleanup env1 - TranslateRoute.nowStore env1 ≤ TranslateRoute.CACHE_TTL →
  TranslateRoute.requestJson env1 = Returns b1 →
  TranslateRoute.text b1 = VString t1 →
  TranslateRoute.r_body (TranslateRoute.POST h env1 st).1.1
  = TranslateRoute.TranslationBody translated detected romaji false →
  reachesLookup env2 b2 t2 →
  requestKey b2 t2 = requestKey b1 t1 →
  TranslateRoute.nowLookup env2 - TranslateRoute.nowStore env1 < TranslateRoute.CACHE_TTL →
  TranslateRoute.POST h env2 (TranslateRoute.POST h env1 st).2
  = (TranslateRoute.json (TranslateRoute.TranslationBody translated None romaji true)
       200 (TranslateRoute.successHeaders h (TranslateRoute.rateLimitResult env2)),
     [RateLimitCheck (TranslateRoute.clientIP env2); ReadBody; CacheGet (requestKey b2 t2)],
     (TranslateRoute.POST h env1 st).2).
Proof.
  intros Hwf Hsize Hclock Hclean Hb1 Ht1 Hbody Hreach Hkey Hage.
  destruct (translate_POST_cases env1 st)
    as [[_ Hnot]|(b & t & tr & ro & Hb & Ht & Hbody' & _ & Hst)];
    [by destruct (Hnot _ _ _ Hbody) |].
  rewrite Hb1 in Hb. injection Hb as <-. rewrite Ht1 in Ht. injection Ht as <-.
  rewrite Hbody in Hbody'. injection Hbody' as -> -> ->.
  set (entry := {| TranslateRoute.translatedText := TranslateRoute.tr_translatedText tr;
                   TranslateRoute.romanization := ro;
                   TranslateRoute.timestamp := TranslateRoute.nowStore env1 |}) in *.
  assert (mget (requestKey b2 t2) (ServerCache.cache (TranslateRoute.POST h env1 st).2)
          = Some entry) as Hget.
  { rewrite Hst, Hkey. unfold TranslateRoute.cleanupCache.
    apply stored_entry_survives; try done.
    unfold TranslateRoute.MAX_CACHE_SIZE. lia. }
  by rewrite (translate_POST_hit h env2 _ b2 t2 entry Hreach Hget).
Qed.

End TranslateMore.

(** ** More on POST /api/analyze-text *)

Section AnalyzeMore.
Variable h : RateLimitResult → Headers.

(** What getKuroshiro and the analyzer lead to, once the cache has missed. *)
Lemma analyze_cases env st t :
  ((AnalyzeRoute.analyze h env st t).2 = st
   ∧ (AnalyzeRoute.analyze h env st t).1.1 = AnalyzeRoute.onError
   ∧ (AnalyzeRoute.kuroshiro env = Returns () → ∃ e, AnalyzeRoute.parse env = Throws e))
  ∨ ∃ parsed,
      AnalyzeRoute.kuroshiro env = Returns ()
      ∧ AnalyzeRoute.parse env = Returns parsed
      ∧ AnalyzeRoute.analyze h env st t
        = (AnalyzeRoute.json
             (AnalyzeRoute.TokensBody (AnalyzeRoute.analyzeToken <$> parsed) false) 200
             (copyInto (h (AnalyzeRoute.rateLimitResult env)) []),
           [KuroshiroParse t; CacheSet t; CacheCleanup],
           AnalyzeRoute.cleanupCache (AnalyzeRoute.nowCleanup env)
             {| ServerCache.cache :=
                  mset t {| AnalyzeRoute.tokens := AnalyzeRoute.analyzeToken <$> parsed;
                            AnalyzeRoute.timestamp := AnalyzeRoute.nowStore env |}
                       (ServerCache.cache st);
                ServerCache.lastCleanupTime := ServerCache.lastCleanupTime st |}).
Proof.
  unfold AnalyzeRoute.analyze, AnalyzeRoute.cacheKey.
  destruct (AnalyzeRoute.kuroshiro env) as [[]|e]; [| left; by split_and!].
  destruct (AnalyzeRoute.parse env) as [parsed|e]; [right; by exists parsed |].
  left. split_and!; [done | done | by exists e].
Qed.

(** X7: A request that reaches the lookup is answered from analysisCache exactly
    when the entry stored under its text, as it came, is less than CACHE_TTL
    old: then the stored tokens are returned with [cached: true], the analyzer
    is not called and the store is as before. *)
Theorem analyze_entry_served_iff_fresh env st t cached :
  reachesAnalysisLookup env t →
  mget t (ServerCache.cache st) = Some cached →
  (AnalyzeRoute.nowLookup env - AnalyzeRoute.timestamp cached < AnalyzeRoute.CACHE_TTL →
   AnalyzeRoute.POST h env st
   = (AnalyzeRoute.json (AnalyzeRoute.TokensBody (AnalyzeRoute.tokens cached) true) 200
        (copyInto (h (AnalyzeRoute.rateLimitResult env)) []),
      [RateLimitCheck (AnalyzeRoute.clientIP env); ReadBody; CacheGet t], st))
  ∧ (AnalyzeRoute.CACHE_TTL ≤ AnalyzeRoute.nowLookup env - AnalyzeRoute.timestamp cached →
     ∀ tokens, AnalyzeRoute.r_body (AnalyzeRoute.POST h env st).1.1
               ≠ AnalyzeRoute.TokensBody tokens true).
Proof.
  intros Hreach Hget. split; intros Hage; [by apply analyze_POST_hit |].
  rewrite (analyze_POST_lookup h env st t Hreach). cbv zeta. rewrite Hget.
  - apply Z.ltb_ge in Hage as ->. intros tokens.
    destruct (analyze_cases env st t) as [(_ & Hr & _)|(parsed & _ & _ & Heq)].
    + destruct (AnalyzeRoute.analyze h env st t) as [[r effs] st']. cbn in *. by subst r.
    + by rewrite Heq.
Qed.

(** Every way an analyze request can end. *)
Lemma analyze_POST_cases env st :
  ((AnalyzeRoute.POST h env st).2 = st
   ∧ ∀ tokens, AnalyzeRoute.r_body (AnalyzeRoute.POST h env st).1.1
               ≠ AnalyzeRoute.TokensBody tokens false)
  ∨ ∃ t parsed,
      AnalyzeRoute.requestJson env = Returns (VString t)
      ∧ AnalyzeRoute.parse env = Returns parsed
      ∧ AnalyzeRoute.r_body (AnalyzeRoute.POST h env st).1.1
        = AnalyzeRoute.TokensBody (AnalyzeRoute.analyzeToken <$> parsed) false
      ∧ AnalyzeRoute.r_status (AnalyzeRoute.POST h env st).1.1 = 200
      ∧ (AnalyzeRoute.POST h env st).2
        = AnalyzeRoute.cleanupCache (AnalyzeRoute.nowCleanup env)
            {| ServerCache.cache :=
                 mset t {| AnalyzeRoute.tokens := AnalyzeRoute.analyzeToken <$> parsed;
                           AnalyzeRoute.timestamp := AnalyzeRoute.nowStore env |}
                      (ServerCache.cache st);
               ServerCache.lastCleanupTime := ServerCache.lastCleanupTime st |}.
Proof.
  unfold AnalyzeRoute.POST.
  destruct (negb _); [left; by split |].
  destruct (AnalyzeRoute.requestJson env) as [v|e] eqn:Hv; [| left; by split].
  unfold AnalyzeRoute.handleBody, AnalyzeRoute.cacheKey.
  destruct v as [| | | |t|]; try (left; by split).
  destruct (_ || _); [left; by split |]. destruct (_ >? _); [left; by split |].
  cbv zeta.
  destruct (analyze_cases env st t) as [(Hst & Hr & _)|(parsed & _ & Hparse & Heq)].
  - destruct (AnalyzeRoute.analyze h env st t) as [[r effs] st']. cbn in Hst, Hr. subst.
    left. destruct (mget _ _) as [cached|]; [destruct (_ <? _) |]; by split.
  - rewrite Heq. destruct (mget _ _) as [cached|]; [destruct (_ <? _); [left; by split |] |];
      right; exists t, parsed; by split_and!.
Qed.

(** X8: only an analysis obtained from the analyzer is written to analysisCache:
    whenever the store is not the one the request found, the answer is a 200
    with tokens not marked cached, and these tokens are the analyzer's,
    converted one by one and in order.  When getKuroshiro or the analyzer
    throws on a request that missed the cache, the answer is the 500 of the
    catch clause and the store is untouched. *)
Theorem analyze_failures_never_cached env st :
  ((AnalyzeRoute.POST h env st).2 = st ∨ isFreshAnalysis (AnalyzeRoute.POST h env st).1.1)
  ∧ (AnalyzeRoute.r_status (AnalyzeRoute.POST h env st).1.1 ≠ 200 →
     (AnalyzeRoute.POST h env st).2 = st)
  ∧ (∀ tokens,
       AnalyzeRoute.r_body (AnalyzeRoute.POST h env st).1.1
       = AnalyzeRoute.TokensBody tokens false →
       ∃ parsed, AnalyzeRoute.parse env = Returns parsed
                 ∧ tokens = AnalyzeRoute.analyzeToken <$> parsed
                 ∧ AnalyzeRoute.surface <$> tokens = AnalyzeRoute.surface_form <$> parsed)
  ∧ (∀ t, reachesAnalysisLookup env t →
          analysisMiss (AnalyzeRoute.nowLookup env) t st →
          (∃ e, AnalyzeRoute.kuroshiro env = Throws e)
          ∨ (∃ e, AnalyzeRoute.parse env = Throws e) →
          (AnalyzeRoute.POST h env st).1.1 = AnalyzeRoute.onError
          ∧ AnalyzeRoute.r_status (AnalyzeRoute.POST h env st).1.1 = 500
          ∧ (AnalyzeRoute.POST h env st).2 = st).
Proof.
  assert (∀ t, reachesAnalysisLookup env t →
               analysisMiss (AnalyzeRoute.nowLookup env) t st →
               (∃ e, AnalyzeRoute.kuroshiro env = Throws e)
               ∨ (∃ e, AnalyzeRoute.parse env = Throws e) →
               (AnalyzeRoute.POST h env st).1.1 = AnalyzeRoute.onError
               ∧ AnalyzeRoute.r_status (AnalyzeRoute.POST h env st).1.1 = 500
               ∧ (AnalyzeRoute.POST h env st).2 = st) as Hthrows.
  { intros t Hreach Hmiss Hthrow. rewrite (analyze_POST_lookup h env st t Hreach). cbv zeta.
    assert (AnalyzeRoute.analyze h env st t
            = (AnalyzeRoute.onError, (AnalyzeRoute.analyze h env st t).1.2, st)) as ->.
    { destruct (analyze_cases env st t) as [(Hst & Hr & _)|(parsed & Hk & Hp & _)].
      - destruct (AnalyzeRoute.analyze h env st t) as [[r effs] st']. cbn in *. by subst.
      - destruct Hthrow as [[e He]|[e He]]; congruence. }
    unfold analysisMiss in Hmiss.
    destruct (mget _ _) as [cached|]; [| done].
    by apply Z.ltb_ge in Hmiss as ->. }
  destruct (analyze_POST_cases env st)
    as [[Hst Hnot]|(t & parsed & _ & Hparse & Hbody & Hstatus & _)].
  - split_and!; [by left | done | | done]. intros tokens Hb. by destruct (Hnot tokens).
  - split_and!; [right; split; [done | eauto] | done | | done].
    intros tokens Hb. rewrite Hbody in Hb. injection Hb as <-.
    exists parsed. split_and!; [done | done |].
    rewrite <-list_fmap_compose. reflexivity.
Qed.

(** X9: an analysis the route has just obtained is served from the cache to the
    next request for exactly the same text, under the same conditions as for
    translations. *)
Theorem analyze_round_trip env1 env2 st t tokens :
  wf (ServerCache.cache st) →
  (msize (ServerCache.cache st) ≤ AnalyzeRoute.MAX_CACHE_SIZE)%nat →
  (∀ kv, kv ∈ ServerCache.cache st →
         AnalyzeRoute.timestamp kv.2 ≤ AnalyzeRoute.nowStore env1) →
  AnalyzeRoute.nowCleanup env1 - AnalyzeRoute.nowStore env1 ≤ AnalyzeRoute.CACHE_TTL →
  AnalyzeRoute.requestJson env1 = Returns (VString t) →
  AnalyzeRoute.r_body (AnalyzeRoute.POST h env1 st).1.1 = AnalyzeRoute.TokensBody tokens false →
  reachesAnalysisLookup env2 t →
  AnalyzeRoute.nowLookup env2 - AnalyzeRoute.nowStore env1 < AnalyzeRoute.CACHE_TTL →
  AnalyzeRoute.POST h env2 (AnalyzeRoute.POST h env1 st).2
  = (AnalyzeRoute.json (AnalyzeRoute.TokensBody tokens true) 200
       (copyInto (h (AnalyzeRoute.rateLimitResult env2)) []),
     [RateLimitCheck (AnalyzeRoute.clientIP env2); ReadBody; CacheGet t],
     (AnalyzeRoute.POST h env1 st).2).
Proof.
  intros Hwf Hsize Hclock Hclean Hb1 Hbody Hreach Hage.
  destruct (analyze_POST_cases env1 st)
    as [[_ Hnot]|(t' & parsed & Hb & _ & Hbody' & _ & Hst)];
    [by destruct (Hnot _ Hbody) |].
  rewrite Hb1 in Hb. injection Hb as <-.
  rewrite Hbody in Hbody'. injection Hbody' as ->.
  set (entry := {| AnalyzeRoute.tokens := AnalyzeRoute.analyzeToken <$> parsed;
                   AnalyzeRoute.timestamp := AnalyzeRoute.nowStore env1 |}) in *.
  assert (mget t (ServerCache.cache (AnalyzeRoute.POST h env1 st).2) = Some entry) as Hget.
  { rewrite Hst. unfold AnalyzeRoute.cleanupCache.
    apply stored_entry_survives; try done.
    unfold AnalyzeRoute.MAX_CACHE_SIZE. lia. }
  by rewrite (analyze_POST_hit h env2 _ t entry Hreach Hget).
Qed.

End AnalyzeMore.

(** ** Token conversion *)

Lemma katakana_shift c :
  let f := (λ c, if (12449 <=? c) && (c <=? 12534) then c - 96 else c)%N in
  ¬ isKatakana (f c) ∧ f (f c) = f c ∧ (¬ isKatakana c → f c = c)
  ∧ (isKatakana c → f c = (c - 96)%N).
Proof.
  cbv zeta. unfold isKatakana.
  destruct ((12449 <=? c) && (c <=? 12534))%N eqn:E.
  - apply andb_true_iff in E as [?%N.leb_le ?%N.leb_le].
    assert (((12449 <=? c - 96) && (c - 96 <=? 12534))%N = false) as ->.
    { apply andb_false_iff. left. apply N.leb_gt. lia. }
    split_and!; [lia | done | lia | done].
  - rewrite E. apply andb_false_iff in E as [?%N.leb_gt|?%N.leb_gt];
      split_and!; (done || lia).
Qed.

(** X13: the reading conversion works code unit by code unit: it keeps the length,
    moves each unit of U+30A1..U+30F6 down by 0x60 and leaves the others, so
    no unit of that block is left, a string without any is returned as it is,
    and converting twice is converting once. *)
Theorem katakanaToHiragana_spec (s : jsstring) :
  List.length (AnalyzeRoute.katakanaToHiragana s) = List.length s
  ∧ (∀ i c, s !! i = Some c →
            AnalyzeRoute.katakanaToHiragana s !! i
            = Some (if decide (isKatakana c) then c - 96 else c)%N)
  ∧ Forall (λ c, ¬ isKatakana c) (AnalyzeRoute.katakanaToHiragana s)
  ∧ (Forall (λ c, ¬ isKatakana c) s → AnalyzeRoute.katakanaToHiragana s = s)
  ∧ AnalyzeRoute.katakanaToHiragana (AnalyzeRoute.katakanaToHiragana s)
    = AnalyzeRoute.katakanaToHiragana s.
Proof.
  unfold AnalyzeRoute.katakanaToHiragana. split_and!.
  - apply length_fmap.
  - intros i c Hi. rewrite list_lookup_fmap, Hi. cbn. f_equal.
    destruct (katakana_shift c) as (_ & _ & Hid & Hshift).
    destruct (decide (isKatakana c)); [by apply Hshift | by apply Hid].
  - apply Forall_fmap, Forall_true. intros c.
    by destruct (katakana_shift c) as (? & _).
  - intros Hs. induction Hs as [|c l Hc Hl IH]; [done |].
    rewrite fmap_cons, IH. f_equal.
    destruct (katakana_shift c) as (_ & _ & Hid & _). by apply Hid.
  - rewrite <-list_fmap_compose. apply list_fmap_ext. intros i c _.
    by destruct (katakana_shift c) as (_ & ? & _).
Qed.

(** X14: what a converted token holds: the surface of the analyzer's token; a
    reading as long as the analyzer's and free of the katakana block; a
    dictionary form unless the analyzer gave '*'; a detail text that is never
    empty and is 'No additional info' when conjugation type, conjugation
    form and first detail are all '*'. *)
Theorem analyzeToken_spec (token : AnalyzeRoute.KuromojiToken) :
  let a := AnalyzeRoute.analyzeToken token in
  AnalyzeRoute.surface a = AnalyzeRoute.surface_form token
  ∧ (∃ r, AnalyzeRoute.a_reading a = Some r
          ∧ List.length r = List.length (AnalyzeRoute.reading token)
          ∧ Forall (λ c, ¬ isKatakana c) r)
  ∧ (AnalyzeRoute.basicForm a = None ↔ AnalyzeRoute.basic_form token = lit "*")
  ∧ (∀ f, AnalyzeRoute.basicForm a = Some f → f = AnalyzeRoute.basic_form token)
  ∧ AnalyzeRoute.posDetail a ≠ []
  ∧ (AnalyzeRoute.conjugated_type token = lit "*" →
     AnalyzeRoute.conjugated_form token = lit "*" →
     AnalyzeRoute.pos_detail_1 token = lit "*" →
     AnalyzeRoute.posDetail a = lit "No additional info").
Proof.
  cbv zeta. unfold AnalyzeRoute.analyzeToken. cbn [AnalyzeRoute.surface
    AnalyzeRoute.a_reading AnalyzeRoute.basicForm AnalyzeRoute.posDetail].
  split_and!.
  - done.
  - eexists. split; [done |].
    unfold AnalyzeRoute.katakanaToHiragana. split; [apply length_fmap |].
    apply Forall_fmap, Forall_true. intros c. by destruct (katakana_shift c) as (? & _).
  - destruct (bool_decide_reflect (AnalyzeRoute.basic_form token ≠ lit "*")) as [Hne|He].
    + split; [done | intros ?; done].
    + split; [intros _ | done]. by destruct (decide (AnalyzeRoute.basic_form token = lit "*")).
  - intros f. destruct (bool_decide _); [by intros [= <-] | done].
  - unfold AnalyzeRoute.getPOSDetail. cbv zeta. by destruct (AnalyzeRoute.join _ _).
  - intros H1 H2 H3. unfold AnalyzeRoute.getPOSDetail. rewrite H1, H2, H3. reflexivity.
Qed.

(** ** More on getKuroshiro in the analyze route *)

Module AnalyzeKuroshiroMore.
Import AnalyzeRoute.

Lemma kstep_built k ev :
  kuroshiroInstance k ≠ None →
  kuroshiroInstance (kstep k ev) ≠ None ∧ attempts (kstep k ev) = attempts k.
Proof.
  intros Hbuilt. unfold attempts.
  destruct ev as [|p failure|p failure]; cbn [kstep].
  - unfold getKuroshiro. destruct (kuroshiroInstance k) eqn:E; [cbn; by rewrite E | done].
  - unfold importsDone. destruct (runs k !! p) as [[| | |]|]; try done;
      destruct failure; cbn; by rewrite length_insert.
  - unfold initDone. destruct (runs k !! p) as [[| | |]|]; try done;
      destruct failure; cbn; by rewrite length_insert.
Qed.

Lemma krun_app evs later : krun (evs ++ later) = foldl kstep (krun evs) later.
Proof. unfold krun. apply foldl_app. Qed.

(** X17: once an instance is stored the analyze route never goes back: whatever
    happens afterwards, an instance remains stored, every call of
    getKuroshiro returns the stored instance at once, and no further run of
    the construction code is started. *)
Theorem analyze_getKuroshiro_built_is_kept evs later :
  kuroshiroInstance (krun evs) ≠ None →
  let k := krun (evs ++ later) in
  (∃ i, kuroshiroInstance k = Some i ∧ getKuroshiro k = (Ready i, k))
  ∧ attempts k = attempts (krun evs).
Proof.
  intros Hbuilt. cbv zeta. rewrite krun_app.
  assert (kuroshiroInstance (foldl kstep (krun evs) later) ≠ None
          ∧ attempts (foldl kstep (krun evs) later) = attempts (krun evs)) as [Hk Hn].
  { induction later as [|ev later IH] using rev_ind; [done |].
    rewrite foldl_app. cbn [foldl]. destruct IH as [IH1 IH2].
    destruct (kstep_built _ ev IH1) as [? ?]. split; [done | congruence]. }
  split; [| done].
  destruct (kuroshiroInstance (foldl kstep (krun evs) later)) as [i|] eqn:Hi; [| done].
  exists i. split; [done |]. unfold getKuroshiro. by rewrite Hi.
Qed.

End AnalyzeKuroshiroMore.

(** ** More on the translation API client *)

Module ClientMore.
Import Client.

Lemma cleanupClientCache_wf now (m : jsmap CacheEntry) : wf m → wf (cleanupClientCache now m).
Proof.
  intros Hwf. unfold cleanupClientCache. destruct (_ <? _)%nat; [| done].
  rewrite (foldl_mdelete_if (λ v, now - timestamp v >? CLIENT_CACHE_TTL)). by apply filter_wf.
Qed.

Lemma step_cache_wf s ev : wf (clientCache s) → wf (clientCache (step s ev)).
Proof.
  intros Hwf. destruct ev as [navigator now text source target|p f nowStore nowCleanup|p];
    cbn [step].
  - by destruct (ClientFacts.translate_state navigator now text source target s)
      as [->|(k & _ & ->)].
  - unfold settle. destruct (requests s !! p) as [[k [| |] fin]|]; try done.
    destruct (requestResult f); [| done]. cbn.
    by apply cleanupClientCache_wf, mset_wf.
  - unfold finallyBlock. destruct (requests s !! p) as [[k st [|]]|]; try done.
    by destruct st.
Qed.

Lemma run_cache_wf evs : wf (clientCache (run evs)).
Proof.
  induction evs as [|ev evs IH] using rev_ind; [apply NoDup_nil_2 |].
  rewrite ClientFacts.run_snoc. by apply step_cache_wf.
Qed.

(** cleanupClientCache leaves an entry that has not expired where it is. *)
Lemma cleanupClientCache_keeps now (m : jsmap CacheEntry) k v :
  wf m → mget k m = Some v → now - timestamp v ≤ CLIENT_CACHE_TTL →
  mget k (cleanupClientCache now m) = Some v.
Proof.
  intros Hwf Hget Hfresh.
  apply mget_elem; [by apply cleanupClientCache_wf |].
  apply mget_elem in Hget; [| done].
  unfold cleanupClientCache. destruct (_ <? _)%nat; [| done].
  rewrite (foldl_mdelete_if_wf (λ v, now - timestamp v >? CLIENT_CACHE_TTL)) by done.
  apply list_elem_of_filter. split; [| done]. cbn.
  destruct (Z.gtb_spec (now - timestamp v) CLIENT_CACHE_TTL); [lia | done].
Qed.

Lemma translate_cached navigator now text source target s cached :
  isOnline navigator = true → validText text →
  mget (getClientCacheKey text source target) (clientCache s) = Some cached →
  now - timestamp cached < CLIENT_CACHE_TTL →
  translate navigator now text source target s = (Return (response cached), [], s).
Proof.
  intros Hon [Htrim Hlen] Hget Hage. unfold translate. rewrite Hon. cbn [negb].
  assert ((strlen text =? 0) = false) as -> by (apply strlen_0_false; by intros ->).
  apply strlen_0_false in Htrim. rewrite Htrim. cbn [orb].
  assert ((strlen text >? 5000) = false) as -> by (rewrite Z.gtb_ltb; by apply Z.ltb_ge).
  cbv zeta. rewrite Hget. by apply Z.ltb_lt in Hage as ->.
Qed.

(** With a fresh entry under [key], a call either leaves the state as it is
    or starts a request for another key. *)
Lemma translate_state_fresh navigator now text source target s key entry :
  mget key (clientCache s) = Some entry →
  now - timestamp entry < CLIENT_CACHE_TTL →
  (translate navigator now text source target s).2 = s
  ∨ ∃ k, k ≠ key
         ∧ (translate navigator now text source target s).2
           = {| clientCache := clientCache s;
                pendingRequests := <[k := List.length (requests s)]> (pendingRequests s);
                requests := requests s
                            ++ [{| req_key := k; req_state := Pending; req_finalized := false |}] |}.
Proof.
  intros Hget Hage. unfold translate.
  destruct (negb _); [by left |]. destruct (_ || _); [by left |].
  destruct (_ >? _); [by left |]. cbv zeta.
  destruct (decide (getClientCacheKey text source target = key)) as [->|Hne].
  - rewrite Hget. apply Z.ltb_lt in Hage as ->. by left.
  - destruct (mget (getClientCacheKey text source target) (clientCache s)) as [c|];
      [destruct (_ <? _); [by left |] |];
      (destruct (pendingRequests s !! _); [by left | right; eexists; by split]).
Qed.

(** While the entry of [key] is fresh and no request for [key] is under way,
    a step inside the window keeps both so. *)
Lemma step_keeps_entry s ev key entry :
  wf (clientCache s) →
  withinWindow (timestamp entry) ev →
  mget key (clientCache s) = Some entry →
  (∀ q r, requests s !! q = Some r → req_key r = key → req_state r ≠ Pending) →
  mget key (clientCache (step s ev)) = Some entry
  ∧ (∀ q r, requests (step s ev) !! q = Some r → req_key r = key → req_state r ≠ Pending).
Proof.
  intros Hwf Hwin Hget Hreq.
  destruct ev as [navigator now text source target|p f nowStore nowCleanup|p];
    cbn [step withinWindow] in *.
  - destruct (translate_state_fresh navigator now text source target s key entry Hget Hwin)
      as [->|(k & Hne & ->)]; [done |].
    cbn. split; [done |]. intros q r Hq Hk.
    apply lookup_app_Some in Hq as [Hq|[_ Hq]]; [by eapply Hreq |].
    apply list_lookup_singleton_Some in Hq as [_ <-]. by cbn in Hk.
  - unfold settle. destruct (requests s !! p) as [[k st fin]|] eqn:Hp; [| done].
    destruct st; try done.
    assert (k ≠ key) as Hne by (intros ->; by apply (Hreq p _ Hp eq_refl)).
    assert (p < List.length (requests s))%nat as Hlt by (by eapply lookup_lt_Some).
    destruct (requestResult f) as [translation|error]; cbn.
    + split.
      * apply cleanupClientCache_keeps; [by apply mset_wf | by rewrite mget_mset_ne | done].
      * intros q r Hq Hk. destruct (decide (q = p)) as [->|Hqp].
        -- rewrite list_lookup_insert_eq in Hq by done. injection Hq as <-. by cbn in Hk.
        -- rewrite list_lookup_insert_ne in Hq by done. by eapply Hreq.
    + split; [done |].
      intros q r Hq Hk. destruct (decide (q = p)) as [->|Hqp].
      * rewrite list_lookup_insert_eq in Hq by done. injection Hq as <-. by cbn in Hk.
      * rewrite list_lookup_insert_ne in Hq by done. by eapply Hreq.
  - unfold finallyBlock. destruct (requests s !! p) as [[k st [|]]|] eqn:Hp; try done.
    assert (p < List.length (requests s))%nat as Hlt by (by eapply lookup_lt_Some).
    destruct st as [|res|err]; [done | |]; cbn; (split; [done |]);
      intros q r Hq Hk; (destruct (decide (q = p)) as [->|Hqp];
        [rewrite list_lookup_insert_eq in Hq by done; by injection Hq as <-
        |rewrite list_lookup_insert_ne in Hq by done; by eapply Hreq]).
Qed.

Lemma run_keeps_entry evs later key entry :
  Forall (withinWindow (timestamp entry)) later →
  mget key (clientCache (run evs)) = Some entry →
  (∀ q r, requests (run evs) !! q = Some r → req_key r = key → req_state r ≠ Pending) →
  mget key (clientCache (run (evs ++ later))) = Some entry
  ∧ (∀ q r, requests (run (evs ++ later)) !! q = Some r → req_key r = key →
            req_state r ≠ Pending).
Proof.
  intros Hwin Hget Hreq. induction later as [|ev later IH] using rev_ind.
  - by rewrite app_nil_r.
  - apply Forall_app in Hwin as [Hwin Hev]. rewrite Forall_singleton in Hev.
    destruct (IH Hwin) as [Hget' Hreq'].
    rewrite app_assoc, ClientFacts.run_snoc.
    apply step_keeps_entry; [apply run_cache_wf | done | done | done].
Qed.

(** X18: a reply that carries a translation settles its request with it and
    puts it in the cache.  From then on, after any further calls, replies and
    [finally] blocks that come before the entry expires, the request still
    delivers that translation, and a call whose text gives the same key gets
    the translation back at once and sends nothing. *)
Theorem client_reply_served_from_cache
    evs p key f nowStore nowCleanup translation later :
  inFlight (run evs) p key →
  requestResult f = inl translation →
  nowCleanup - nowStore ≤ CLIENT_CACHE_TTL →
  Forall (withinWindow nowStore) later →
  let s' := run (evs ++ Settle p f nowStore nowCleanup :: later) in
  delivered s' p = Some (inl translation)
  ∧ ∀ navigator now text source target,
      isOnline navigator = true → validText text →
      getClientCacheKey text source target = key →
      now - nowStore < CLIENT_CACHE_TTL →
      translate navigator now text source target s' = (Return translation, [], s').
Proof.
  intros Hp Hres Hclean Hwin. cbv zeta.
  pose proof (ClientFacts.inFlight_registered _ _ _ (ClientFacts.run_consistent evs) Hp) as Hreg.
  assert (∀ q r, requests (run evs) !! q = Some r → req_key r = key → req_state r = Pending →
                 q = p) as Hone.
  { intros q r Hq Hk Hst.
    assert (pendingRequests (run evs) !! key = Some q) as Hq'
      by (apply ClientFacts.inFlight_registered;
          [apply ClientFacts.run_consistent | by exists r]).
    congruence. }
  destruct Hp as (r & Hr & Hk & Hst).
  destruct r as [k st fin]. cbn in Hk, Hst. subst k st.
  assert (p < List.length (requests (run evs)))%nat as Hlt by (by eapply lookup_lt_Some).
  set (entry := {| response := translation; timestamp := nowStore |}).
  assert (run (evs ++ [Settle p f nowStore nowCleanup])
          = {| clientCache :=
                 cleanupClientCache nowCleanup (mset key entry (clientCache (run evs)));
               pendingRequests := pendingRequests (run evs);
               requests := <[p := {| req_key := key; req_state := Resolved translation;
                                     req_finalized := fin |}]> (requests (run evs)) |}) as Hs.
  { rewrite ClientFacts.run_snoc. cbn [step]. unfold settle. by rewrite Hr, Hres. }
  replace (evs ++ Settle p f nowStore nowCleanup :: later)
    with ((evs ++ [Settle p f nowStore nowCleanup]) ++ later) by (by rewrite <-app_assoc).
  destruct (run_keeps_entry (evs ++ [Settle p f nowStore nowCleanup]) later key entry)
    as [Hget _].
  - done.
  - rewrite Hs. cbn [clientCache].
    apply cleanupClientCache_keeps; [apply mset_wf, run_cache_wf | apply mget_mset_eq | done].
  - rewrite Hs. cbn [requests]. intros q r Hq Hkey.
    destruct (decide (q = p)) as [->|Hqp].
    + rewrite list_lookup_insert_eq in Hq by done. by injection Hq as <-.
    + rewrite list_lookup_insert_ne in Hq by done. intros Hpend.
      by apply Hqp, (Hone q r).
  - split.
    + apply ClientFacts.run_delivered. rewrite Hs. unfold delivered. cbn.
      by rewrite list_lookup_insert_eq.
    + intros navigator now text source target Hon Hvalid Hkey Hage.
      rewrite (translate_cached navigator now text source target _ entry); try done.
      by rewrite Hkey.
Qed.

(** X19: how a reply is classified: a translation comes only from a 2xx reply
    whose body could be read, and is that body; every failure carries a
    non-empty code, and the status of the reply when there was one with a
    readable body; a failure leaves the cache and the pending requests as
    they were. *)
Theorem client_reply_classification p f nowStore nowCleanup s :
  (∀ r, requestResult f = inl r
        ↔ ∃ st d, f = FetchReplies st (Returns d) ∧ 200 ≤ st ≤ 299 ∧ r = d_translation d)
  ∧ (∀ e, requestResult f = inr e →
          code e ≠ []
          ∧ (∀ st d, f = FetchReplies st (Returns d) → status e = st)
          ∧ ((∃ m, f = FetchFails (TypeError m)) → code e = NETWORK_ERROR ∧ status e = 0)
          ∧ clientCache (settle p f nowStore nowCleanup s) = clientCache s
          ∧ pendingRequests (settle p f nowStore nowCleanup s) = pendingRequests s).
Proof.
  split.
  - intros r. unfold requestResult. split.
    + destruct f as [e|st [d|e]]; try done.
      destruct (Z.leb_spec 200 st); destruct (Z.leb_spec st 299); cbn [andb negb]; try done.
      intros [= <-]. exists st, d. split_and!; (done || lia).
    + intros (st & d & -> & Hok & ->).
      destruct (Z.leb_spec 200 st); destruct (Z.leb_spec st 299); cbn [andb negb];
        try done; lia.
  - intros e He. split_and!.
    + revert He. unfold requestResult.
      destruct f as [[m|]|st [d|[m|]]]; try (intros [= <-]; done).
      destruct (negb _); [| done]. intros [= <-]. cbn. unfold orElse.
      by destruct (d_code d) as [[|c l]|].
    + intros st d ->. revert He. unfold requestResult.
      destruct (negb _); [| done]. by intros [= <-].
    + intros [m ->]. revert He. unfold requestResult. by intros [= <-].
    + unfold settle. destruct (requests s !! p) as [[k [| |] fin]|]; try done. by rewrite He.
    + unfold settle. destruct (requests s !! p) as [[k [| |] fin]|]; try done. by rewrite He.
Qed.

(** Calls that follow one another in the in-flight window of a key, however
    many, are all handed one and the same request, and between them at most
    one request is sent: exactly one when none was pending for the key, none
    when one was.  The cache is not touched. *)
Lemma callAll_joined navigator now texts source target s key p :
  isOnline navigator = true →
  (∀ text, text ∈ texts → validText text ∧ getClientCacheKey text source target = key) →
  cacheMiss now key s →
  pendingRequests s !! key = Some p →
  callAll navigator now texts source target s = (replicate (List.length texts) (Await p), [], s).
Proof.
  intros Hon Htexts Hmiss Hp. induction texts as [|text rest IH]; [done |].
  destruct (Htexts text) as [Hvalid Hkey]; [by left |].
  cbn [callAll]. rewrite ClientFacts.translate_uncached; [| done | done | by rewrite Hkey].
  cbv zeta. rewrite Hkey, Hp. rewrite IH by (intros t Ht; apply Htexts; by right). done.
Qed.

(** X20: calls made one after the other with no reply in between, all online,
    valid and of one key that the cache does not answer, are all handed the
    same request.  Together they send one fetch, the first call's, when no
    request was pending for the key, and none when one was; the cache is not
    touched and the request stays registered under the key. *)
Theorem client_concurrent_calls_share_one_request
    navigator now texts source target s key :
  isOnline navigator = true →
  texts ≠ [] →
  (∀ text, text ∈ texts → validText text ∧ getClientCacheKey text source target = key) →
  cacheMiss now key s →
  ∃ p s',
    callAll navigator now texts source target s
    = (replicate (List.length texts) (Await p),
       match pendingRequests s !! key with
       | Some _ => []
       | None => match texts with text :: _ => [Fetch text source target] | [] => [] end
       end,
       s')
    ∧ pendingRequests s' !! key = Some p
    ∧ clientCache s' = clientCache s.
Proof.
  intros Hon Hne Htexts Hmiss.
  destruct (pendingRequests s !! key) as [p|] eqn:Hp.
  - exists p, s. by rewrite (callAll_joined navigator now texts source target s key p).
  - destruct texts as [|text rest]; [done |].
    destruct (Htexts text) as [Hvalid Hkey]; [by left |].
    cbn [callAll]. rewrite ClientFacts.translate_uncached; [| done | done | by rewrite Hkey].
    cbv zeta. rewrite Hkey, Hp.
    set (s1 := {| clientCache := clientCache s;
                  pendingRequests := <[key := List.length (requests s)]> (pendingRequests s);
                  requests := requests s
                              ++ [{| req_key := key; req_state := Pending;
                                     req_finalized := false |}] |}).
    rewrite (callAll_joined navigator now rest source target s1 key (List.length (requests s)));
      [| done | intros t Ht; apply Htexts; by right | done | apply lookup_insert_eq].
    exists (List.length (requests s)), s1. split_and!; [done | apply lookup_insert_eq | done].
Qed.

(** X21: nothing is left behind in pendingRequests: in every state the client can
    reach, an entry belongs to a request whose [finally] block is still to
    run, so once every request started has run it, the map is empty. *)
Theorem client_pending_requests_do_not_leak evs :
  let s := run evs in
  (∀ k p, pendingRequests s !! k = Some p →
          ∃ r, requests s !! p = Some r ∧ req_key r = k ∧ req_finalized r = false)
  ∧ ((∀ p r, requests s !! p = Some r → req_finalized r = true) → pendingRequests s = ∅).
Proof.
  cbv zeta. pose proof (ClientFacts.run_consistent evs) as Hs. split.
  - apply (registered _ Hs).
  - intros Hall. apply map_empty. intros k.
    destruct (pendingRequests (run evs) !! k) as [p|] eqn:Hp; [| done].
    destruct (registered _ Hs k p Hp) as (r & Hr & _ & Hf).
    rewrite (Hall p r Hr) in Hf. done.
Qed.

(** Online and with a valid text, translate does not throw in its synchronous
    part. *)
Lemma translate_not_thrown navigator now text source target s :
  isOnline navigator = true → trim text ≠ [] → strlen text ≤ 5000 →
  ∀ e, (translate navigator now text source target s).1.1 = Throw e → False.
Proof.
  intros Hon Htrim Hlen e. unfold translate. rewrite Hon. cbn [negb].
  assert ((strlen text =? 0) = false) as -> by (apply strlen_0_false; by intros ->).
  apply strlen_0_false in Htrim. rewrite Htrim. cbn [orb].
  assert ((strlen text >? 5000) = false) as -> by (rewrite Z.gtb_ltb; by apply Z.ltb_ge).
  cbv zeta. destruct (mget _ _) as [cached|]; [destruct (_ <? _) |];
    try destruct (_ !! _); cbn [fst]; discriminate.
Qed.

Lemma translate_thrown_invalid navigator now text source target s :
  isOnline navigator = true → trim text = [] ∨ 5000 < strlen text →
  ∃ e, translate navigator now text source target s = (Throw e, [], s)
       ∧ code e = INVALID_INPUT ∧ status e = 400.
Proof.
  intros Hon Hbad. unfold translate. rewrite Hon. cbn [negb].
  destruct ((strlen text =? 0) || (strlen (trim text) =? 0)) eqn:Hblank; [eauto |].
  apply orb_false_iff in Hblank as [_ Htrim%strlen_0_false].
  destruct Hbad as [?|Hlen]; [done |].
  assert ((strlen text >? 5000) = true) as -> by (rewrite Z.gtb_ltb; by apply Z.ltb_lt).
  eauto.
Qed.

End ClientMore.

(** ** The client and the translate route together *)

Section ClientAndServer.
Variable h : RateLimitResult → Headers.

Lemma translate_callGoogle_not_invalid env st t source target key :
  ¬ isInvalidInput (TranslateRoute.callGoogle h env st t source target key).1.1.
Proof.
  intros (_ & message & Hbody). revert Hbody.
  unfold TranslateRoute.callGoogle, TranslateRoute.errorResponse.
  destruct (TranslateRoute.apiKey env) as [[|c k]|];
    [cbn [fst TranslateRoute.json TranslateRoute.r_body]; literal_mismatch | |
     cbn [fst TranslateRoute.json TranslateRoute.r_body]; literal_mismatch].
  assert (∀ e, TranslateRoute.r_body (TranslateRoute.onError e)
               ≠ TranslateRoute.ErrorBody TranslateRoute.INVALID_INPUT message 400 None)
    as Herr.
  { intros e. unfold TranslateRoute.onError, TranslateRoute.errorResponse.
    destruct e as [m|]; [destruct (includes _ _) |];
      cbn [TranslateRoute.json TranslateRoute.r_body]; literal_mismatch. }
  destruct (TranslateRoute.googleFetch env) as [g|e]; [| apply Herr].
  destruct (_ =? _); [cbn [fst TranslateRoute.json TranslateRoute.r_body]; literal_mismatch |].
  destruct (_ || _); [cbn [fst TranslateRoute.json TranslateRoute.r_body]; literal_mismatch |].
  destruct (negb _);
    [destruct (TranslateRoute.responseJson _ _ _) as [r|e] eqn:Hr; [| apply Herr];
     unfold TranslateRoute.responseJson in Hr;
     destruct (_ || _); [discriminate Hr |]; destruct (TranslateRoute.nullBodyStatus _);
     [discriminate Hr |]; injection Hr as <-;
     cbn [fst TranslateRoute.errorResponse TranslateRoute.json TranslateRoute.r_body];
     literal_mismatch |].
  destruct (TranslateRoute.g_json g) as [[|translation l]|e]; [apply Herr | | apply Herr].
  destruct (bool_decide _); [destruct (TranslateRoute.generateRomanization _ _) |];
    cbn [fst TranslateRoute.json TranslateRoute.r_body]; discriminate.
Qed.

(** X22: the client and the route turn down the same texts: for a call made while
    online, translate throws before sending exactly when the route would
    answer the body the client sends with 400 INVALID_INPUT, and what the
    client throws is then INVALID_INPUT with status 400 too. *)
Theorem client_and_server_validation_agree env st navigator now s t source target :
  Client.isOnline navigator = true →
  (∃ e, (Client.translate navigator now t source target s).1.1 = Client.Throw e
        ∧ Client.code e = Client.INVALID_INPUT ∧ Client.status e = 400)
  ↔ isInvalidInput
      (TranslateRoute.handleBody h env st (clientRequestBody t source target)).1.1.
Proof.
  intros Hon.
  assert (validLanguage (VString (Client.languageString source))) as Hs
    by (destruct source; [by left | by right]).
  assert (validLanguage (VString (Client.languageString target))) as Hg
    by (destruct target; [by left | by right]).
  destruct (decide (trim t = [] ∨ 5000 < strlen t)) as [Hbad|Hgood].
  - split; intros _.
    + destruct (translate_handleBody_invalid h env st (clientRequestBody t source target))
        as (r & -> & Hr); [| done].
      unfold invalidTranslateBody. cbn. tauto.
    + destruct (ClientMore.translate_thrown_invalid navigator now t source target s Hon Hbad)
        as (e & -> & ? & ?).
      by exists e.
  - assert (trim t ≠ [] ∧ strlen t ≤ 5000) as [Htrim Hlen].
    { split; [intros ?; apply Hgood; by left | ].
      destruct (Z.le_gt_cases (strlen t) 5000); [done |]. exfalso. apply Hgood. right. lia. }
    split.
    + intros (e & He & _). exfalso.
      by apply (ClientMore.translate_not_thrown navigator now t source target s Hon Htrim Hlen e).
    + intros Hinv. exfalso. revert Hinv.
      rewrite (translate_handleBody_lookup h env st (clientRequestBody t source target) t
                 eq_refl Htrim Hlen Hs Hg). cbv zeta.
      pose proof (translate_callGoogle_not_invalid env st t
                    (toString (VString (Client.languageString source)))
                    (toString (VString (Client.languageString target)))
                    (requestKey (clientRequestBody t source target) t)) as Hn.
      destruct (TranslateRoute.callGoogle _ _ _ _ _ _ _) as [[r effs] st'].
      destruct (mget _ _) as [cached|]; [destruct (_ <? _) |]; try exact Hn.
      intros (_ & message & Hbody). discriminate Hbody.
Qed.

End ClientAndServer.

(** ** cleanupCache in the two routes *)

(** X10: in both routes, running cleanupCache a second time at the same instant
    changes neither the cache nor the time of the last sweep. *)
Theorem server_cleanup_idempotent :
  (∀ now s, TranslateRoute.cleanupCache now (TranslateRoute.cleanupCache now s)
            = TranslateRoute.cleanupCache now s)
  ∧ (∀ now s, AnalyzeRoute.cleanupCache now (AnalyzeRoute.cleanupCache now s)
              = AnalyzeRoute.cleanupCache now s).
Proof.
  split; intros now s; apply cleanupCache_idempotent;
    [unfold TranslateRoute.CLEANUP_INTERVAL | unfold AnalyzeRoute.CLEANUP_INTERVAL]; lia.
Qed.

(** X11: in both routes cleanupCache only removes: what it leaves is a
    sub-sequence of the entries it found.  When more than CLEANUP_INTERVAL
    has passed since the last sweep, the sweep is recorded at [now], no entry
    older than CACHE_TTL is left, and, in a cache within its maximum, every
    entry of age CACHE_TTL or less is kept. *)
Theorem server_cleanup_sweeps_expired :
  (∀ now (s : TranslateRoute.store),
     ServerCache.cache (TranslateRoute.cleanupCache now s) `sublist_of` ServerCache.cache s
     ∧ (wf (ServerCache.cache s) →
        TranslateRoute.CLEANUP_INTERVAL < now - ServerCache.lastCleanupTime s →
        ServerCache.lastCleanupTime (TranslateRoute.cleanupCache now s) = now
        ∧ (∀ kv, kv ∈ ServerCache.cache (TranslateRoute.cleanupCache now s) →
                 now - TranslateRoute.timestamp kv.2 ≤ TranslateRoute.CACHE_TTL)
        ∧ (∀ kv, kv ∈ ServerCache.cache s →
                 now - TranslateRoute.timestamp kv.2 ≤ TranslateRoute.CACHE_TTL →
                 (msize (ServerCache.cache s) ≤ TranslateRoute.MAX_CACHE_SIZE)%nat →
                 kv ∈ ServerCache.cache (TranslateRoute.cleanupCache now s))))
  ∧ (∀ now (s : AnalyzeRoute.store),
     ServerCache.cache (AnalyzeRoute.cleanupCache now s) `sublist_of` ServerCache.cache s
     ∧ (wf (ServerCache.cache s) →
        AnalyzeRoute.CLEANUP_INTERVAL < now - ServerCache.lastCleanupTime s →
        ServerCache.lastCleanupTime (AnalyzeRoute.cleanupCache now s) = now
        ∧ (∀ kv, kv ∈ ServerCache.cache (AnalyzeRoute.cleanupCache now s) →
                 now - AnalyzeRoute.timestamp kv.2 ≤ AnalyzeRoute.CACHE_TTL)
        ∧ (∀ kv, kv ∈ ServerCache.cache s →
                 now - AnalyzeRoute.timestamp kv.2 ≤ AnalyzeRoute.CACHE_TTL →
                 (msize (ServerCache.cache s) ≤ AnalyzeRoute.MAX_CACHE_SIZE)%nat →
                 kv ∈ ServerCache.cache (AnalyzeRoute.cleanupCache now s)))).
Proof.
  split; intros now s; (split; [apply cleanupCache_sublist | apply cleanupCache_sweep]).
Qed.

(** ** The further properties on sample inputs *)

Lemma translate_entry_served_iff_fresh_witness :
  TranslateRoute.POST sampleHeaders (translateEnv allowedResult (lit "hello"))
    (translateStoreWith helloKey helloEntry)
  = (TranslateRoute.json
       (TranslateRoute.TranslationBody [12354%N] None (Some (lit "a")) true) 200
       (TranslateRoute.successHeaders sampleHeaders allowedResult),
     [RateLimitCheck (lit "203.0.113.7"); ReadBody; CacheGet helloKey],
     translateStoreWith helloKey helloEntry).
Proof.
  apply (proj1 (translate_entry_served_iff_fresh sampleHeaders
                  (translateEnv allowedResult (lit "hello"))
                  (translateStoreWith helloKey helloEntry) helloBody (lit "hello") helloEntry
                  helloEnv_reaches_lookup eq_refl)).
  vm_compute. reflexivity.
Defined.

Lemma translate_round_trip_witness :
  TranslateRoute.POST sampleHeaders (paddedHelloEnv None (Throws OtherError))
    (TranslateRoute.POST sampleHeaders (paddedHelloEnv (Some (lit "key")) (Returns (lit "a")))
       emptyTranslateStore).2
  = (TranslateRoute.json
       (TranslateRoute.TranslationBody [12354%N] None (Some (lit "a")) true) 200
       (TranslateRoute.successHeaders sampleHeaders allowedResult),
     [RateLimitCheck (lit "203.0.113.7"); ReadBody; CacheGet helloKey],
     (TranslateRoute.POST sampleHeaders (paddedHelloEnv (Some (lit "key")) (Returns (lit "a")))
        emptyTranslateStore).2).
Proof.
  apply (translate_round_trip sampleHeaders
           (paddedHelloEnv (Some (lit "key")) (Returns (lit "a")))
           (paddedHelloEnv None (Throws OtherError))
           emptyTranslateStore paddedHelloBody (lit " hello ") paddedHelloBody (lit " hello ")
           [12354%N] None (Some (lit "a"))).
  - apply NoDup_nil_2.
  - cbn. lia.
  - intros kv Hkv. by apply elem_of_nil in Hkv.
  - vm_compute. discriminate.
  - reflexivity.
  - reflexivity.
  - reflexivity.
  - apply paddedHelloEnv_reaches_lookup.
  - reflexivity.
  - vm_compute. reflexivity.
Defined.

Lemma translate_failures_never_cached_witness :
  (TranslateRoute.POST sampleHeaders (translateEnv deniedResult (lit "hello"))
     emptyTranslateStore).2 = emptyTranslateStore.
Proof.
  apply (proj2 (translate_failures_never_cached sampleHeaders
                  (translateEnv deniedResult (lit "hello")) emptyTranslateStore)).
  vm_compute. discriminate.
Defined.

Lemma helloEnvWithStatus_reaches_lookup status :
  reachesLookup (helloEnvWithStatus status) helloBody (lit "hello").
Proof.
  unfold reachesLookup, validLanguage. split_and!; try reflexivity; [| | by left | by right].
  - vm_compute. discriminate.
  - vm_compute. discriminate.
Qed.

Lemma translate_upstream_failures_witness :
  TranslateRoute.POST sampleHeaders (paddedHelloEnv None (Returns (lit "a"))) emptyTranslateStore
  = (TranslateRoute.errorResponse TranslateRoute.AUTH_ERROR
       (lit "Translation service configuration error.") 500,
     [RateLimitCheck (lit "203.0.113.7"); ReadBody; CacheGet helloKey], emptyTranslateStore)
  ∧ (TranslateRoute.POST sampleHeaders (helloEnvWithStatus 503) emptyTranslateStore).1.1
    = TranslateRoute.errorResponse TranslateRoute.API_ERROR
        (lit "Translation service is temporarily unavailable.") 503
  ∧ (TranslateRoute.POST sampleHeaders (helloEnvWithStatus 304) emptyTranslateStore).1.1
    = TranslateRoute.errorResponse TranslateRoute.API_ERROR
        (lit "Translation service is temporarily unavailable.") 500.
Proof.
  split_and!.
  - apply (proj1 (translate_upstream_failures sampleHeaders
                    (paddedHelloEnv None (Returns (lit "a"))) emptyTranslateStore
                    paddedHelloBody (lit " hello ")
                    (paddedHelloEnv_reaches_lookup None (Returns (lit "a"))) I)).
    by left.
  - destruct (proj2 (translate_upstream_failures sampleHeaders
                       (helloEnvWithStatus 503) emptyTranslateStore helloBody (lit "hello")
                       (helloEnvWithStatus_reaches_lookup 503) I)
                _ _ _ eq_refl eq_refl ltac:(cbn; lia))
      as (code & message & status & -> & -> & -> & ->).
    reflexivity.
  - destruct (proj2 (translate_upstream_failures sampleHeaders
                       (helloEnvWithStatus 304) emptyTranslateStore helloBody (lit "hello")
                       (helloEnvWithStatus_reaches_lookup 304) I)
                _ _ _ eq_refl eq_refl ltac:(cbn; lia))
      as (code & message & status & -> & -> & -> & ->).
    reflexivity.
Defined.

Lemma translate_succeeds_without_romanization_witness :
  ∃ romaji,
    (TranslateRoute.POST sampleHeaders (paddedHelloEnv (Some (lit "key")) (Throws OtherError))
       emptyTranslateStore).1.1
    = TranslateRoute.json (TranslateRoute.TranslationBody [12354%N] None romaji false) 200
        (TranslateRoute.successHeaders sampleHeaders allowedResult)
    ∧ romaji = None.
Proof.
  destruct (translate_succeeds_without_romanization sampleHeaders
              (paddedHelloEnv (Some (lit "key")) (Throws OtherError)) emptyTranslateStore
              paddedHelloBody (lit " hello ") 107%N (lit "ey")
              {| TranslateRoute.g_status := 200;
                 TranslateRoute.g_json :=
                   Returns [{| TranslateRoute.tr_translatedText := [12354%N];
                               TranslateRoute.tr_detectedSourceLanguage := None |}] |}
              {| TranslateRoute.tr_translatedText := [12354%N];
                 TranslateRoute.tr_detectedSourceLanguage := None |} []
              (paddedHelloEnv_reaches_lookup _ _) I eq_refl eq_refl
              (conj (Zle_bool_imp_le 200 200 eq_refl) (Zle_bool_imp_le 200 299 eq_refl))
              eq_refl)
    as (romaji & converted & Hpost & _ & Hthrows).
  exists romaji. rewrite Hpost. split; [reflexivity | exact (Hthrows OtherError eq_refl)].
Defined.

Lemma analyze_entry_served_iff_fresh_witness :
  AnalyzeRoute.POST sampleHeaders (analyzeEnv allowedResult [97%N]) (analyzeStoreWith [97%N])
  = (AnalyzeRoute.json (AnalyzeRoute.TokensBody [] true) 200
       (copyInto (sampleHeaders allowedResult) []),
     [RateLimitCheck (lit "203.0.113.7"); ReadBody; CacheGet [97%N]],
     analyzeStoreWith [97%N]).
Proof.
  apply (proj1 (analyze_entry_served_iff_fresh sampleHeaders (analyzeEnv allowedResult [97%N])
                  (analyzeStoreWith [97%N]) [97%N]
                  {| AnalyzeRoute.tokens := []; AnalyzeRoute.timestamp := 0 |}
                  analyzeEnv_reaches_lookup eq_refl)).
  vm_compute. reflexivity.
Defined.

Lemma analyze_failures_never_cached_witness :
  (AnalyzeRoute.POST sampleHeaders (analyzeEnvFailing [97%N]) emptyAnalyzeStore).1.1
  = AnalyzeRoute.onError
  ∧ AnalyzeRoute.r_status
      (AnalyzeRoute.POST sampleHeaders (analyzeEnvFailing [97%N]) emptyAnalyzeStore).1.1 = 500
  ∧ (AnalyzeRoute.POST sampleHeaders (analyzeEnvFailing [97%N]) emptyAnalyzeStore).2
    = emptyAnalyzeStore.
Proof.
  apply (proj2 (proj2 (proj2 (analyze_failures_never_cached sampleHeaders
                                (analyzeEnvFailing [97%N]) emptyAnalyzeStore))) [97%N]).
  - unfold reachesAnalysisLookup. split_and!; try reflexivity;
      [discriminate | vm_compute; discriminate].
  - exact I.
  - left. by exists OtherError.
Defined.

Lemma analyze_round_trip_witness :
  AnalyzeRoute.POST sampleHeaders (analyzeEnv allowedResult [97%N])
    (AnalyzeRoute.POST sampleHeaders (analyzeEnv allowedResult [97%N]) emptyAnalyzeStore).2
  = (AnalyzeRoute.json (AnalyzeRoute.TokensBody [] true) 200
       (copyInto (sampleHeaders allowedResult) []),
     [RateLimitCheck (lit "203.0.113.7"); ReadBody; CacheGet [97%N]],
     (AnalyzeRoute.POST sampleHeaders (analyzeEnv allowedResult [97%N]) emptyAnalyzeStore).2).
Proof.
  apply (analyze_round_trip sampleHeaders (analyzeEnv allowedResult [97%N])
           (analyzeEnv allowedResult [97%N]) emptyAnalyzeStore [97%N] []).
  - apply NoDup_nil_2.
  - cbn. lia.
  - intros kv Hkv. by apply elem_of_nil in Hkv.
  - vm_compute. discriminate.
  - reflexivity.
  - reflexivity.
  - apply analyzeEnv_reaches_lookup.
  - vm_compute. reflexivity.
Defined.

Lemma server_cleanup_sweeps_expired_witness :
  ServerCache.lastCleanupTime (TranslateRoute.cleanupCache 7200001 staleTranslateStore)
  = 7200001
  ∧ ServerCache.cache (TranslateRoute.cleanupCache 7200001 staleTranslateStore) = [].
Proof.
  destruct (proj2 (proj1 server_cleanup_sweeps_expired 7200001 staleTranslateStore))
    as (Htime & _ & _).
  - unfold wf. apply (bool_decide_unpack _). vm_compute. exact I.
  - vm_compute. reflexivity.
  - split; [exact Htime | reflexivity].
Defined.

Lemma server_caches_stay_bounded_witness :
  (msize (ServerCache.cache
            (TranslateRoute.POST sampleHeaders (translateEnv allowedResult (lit "hello"))
               emptyTranslateStore).2)
   ≤ TranslateRoute.MAX_CACHE_SIZE)%nat.
Proof.
  apply (proj1 (proj1 (server_caches_stay_bounded sampleHeaders)
                  (translateEnv allowedResult (lit "hello")) emptyTranslateStore)).
  unfold TranslateRoute.MAX_CACHE_SIZE. cbn. lia.
Defined.

Lemma katakanaToHiragana_spec_witness :
  AnalyzeRoute.katakanaToHiragana (lit "abc") = lit "abc".
Proof.
  apply (proj1 (proj2 (proj2 (proj2 (katakanaToHiragana_spec (lit "abc")))))).
  change (lit "abc") with [97; 98; 99]%N.
  repeat (apply Forall_cons; split; [unfold isKatakana; lia |]). apply Forall_nil_2.
Defined.

Lemma analyzeToken_spec_witness :
  AnalyzeRoute.posDetail (AnalyzeRoute.analyzeToken sampleToken) = lit "No additional info".
Proof.
  apply (proj2 (proj2 (proj2 (proj2 (proj2 (analyzeToken_spec sampleToken)))))); reflexivity.
Defined.

Lemma translate_getKuroshiro_coalesces_witness :
  TranslateRoute.getKuroshiro (TranslateRoute.krun [KCall])
  = (Awaiting 0%nat, TranslateRoute.krun [KCall]).
Proof.
  apply (proj1 (TranslateKuroshiroFacts.translate_getKuroshiro_coalesces [KCall] 0%nat
                  (or_introl eq_refl))).
Defined.

Lemma analyze_getKuroshiro_built_is_kept_witness :
  AnalyzeRoute.attempts
    (AnalyzeRoute.krun ([KCall; KImportsDone 0 None; KInitDone 0 None] ++ [KCall; KCall]))
  = AnalyzeRoute.attempts (AnalyzeRoute.krun [KCall; KImportsDone 0 None; KInitDone 0 None]).
Proof.
  apply (proj2 (AnalyzeKuroshiroMore.analyze_getKuroshiro_built_is_kept
                  [KCall; KImportsDone 0 None; KInitDone 0 None] [KCall; KCall]
                  ltac:(vm_compute; discriminate))).
Defined.

Lemma client_reply_served_from_cache_witness :
  Client.translate None 5 (lit " hi ") Client.en Client.ja
    (Client.run (oneCaller ++ [Client.Settle 0 (sampleReply [12354%N]) 1 2; Client.Finally 0]))
  = (Client.Return {| Client.translatedText := [12354%N]; Client.romanization := None;
                      Client.cached := false |}, [],
     Client.run (oneCaller ++ [Client.Settle 0 (sampleReply [12354%N]) 1 2; Client.Finally 0])).
Proof.
  apply (proj2 (ClientMore.client_reply_served_from_cache oneCaller 0%nat (lit "en:ja:hi")
                  (sampleReply [12354%N]) 1 2
                  {| Client.translatedText := [12354%N]; Client.romanization := None;
                     Client.cached := false |}
                  [Client.Finally 0]
                  ltac:(eexists; split_and!; reflexivity) eq_refl
                  ltac:(vm_compute; discriminate)
                  ltac:(repeat constructor))).
  - reflexivity.
  - split; vm_compute; discriminate.
  - reflexivity.
  - vm_compute. reflexivity.
Defined.

Lemma client_reply_classification_witness :
  Client.status {| Client.code := lit "RATE_LIMIT"; Client.message := lit "slow down";
                   Client.status := 429 |} = 429.
Proof.
  apply (proj1 (proj2 (proj2 (ClientMore.client_reply_classification 0%nat
                                (Client.FetchReplies 429
                                   (Returns {| Client.d_code := Some (lit "RATE_LIMIT");
                                               Client.d_message := Some (lit "slow down");
                                               Client.d_translation :=
                                                 {| Client.translatedText := [];
                                                    Client.romanization := None;
                                                    Client.cached := false |} |}))
                                0 0 Client.initial) _ eq_refl)) 429
           {| Client.d_code := Some (lit "RATE_LIMIT");
              Client.d_message := Some (lit "slow down");
              Client.d_translation :=
                {| Client.translatedText := []; Client.romanization := None;
                   Client.cached := false |} |}).
  reflexivity.
Defined.

Lemma client_concurrent_calls_share_one_request_witness :
  ∃ p s',
    callAll None 0 [lit "hi"; lit " hi "; lit "hi "] Client.en Client.ja Client.initial
    = (replicate 3 (Client.Await p), [Client.Fetch (lit "hi") Client.en Client.ja], s')
    ∧ Client.pendingRequests s' !! lit "en:ja:hi" = Some p
    ∧ Client.clientCache s' = Client.clientCache Client.initial.
Proof.
  apply (ClientMore.client_concurrent_calls_share_one_request None 0
           [lit "hi"; lit " hi "; lit "hi "] Client.en Client.ja Client.initial
           (lit "en:ja:hi")).
  - reflexivity.
  - discriminate.
  - intros text Htext. repeat (apply elem_of_cons in Htext as [->|Htext]);
      [| | | by apply elem_of_nil in Htext];
      (split; [split; vm_compute; discriminate | reflexivity]).
  - exact I.
Defined.

Lemma client_pending_requests_do_not_leak_witness :
  Client.pendingRequests (Client.run (translations 2)) = ∅.
Proof.
  apply (proj2 (ClientMore.client_pending_requests_do_not_leak (translations 2))).
  intros [|[|p]] r; vm_compute; intros [= <-]; reflexivity.
Defined.

Lemma client_and_server_validation_agree_witness :
  isInvalidInput
    (TranslateRoute.handleBody sampleHeaders (translateEnv allowedResult [])
       emptyTranslateStore (clientRequestBody [] Client.en Client.ja)).1.1.
Proof.
  apply (proj1 (client_and_server_validation_agree sampleHeaders
                  (translateEnv allowedResult []) emptyTranslateStore
                  None 0 Client.initial [] Client.en Client.ja eq_refl)).
  eexists. split_and!; reflexivity.
Defined.
